(** * Cadence: value traversal dispatch and interface-declaration checking

    A shallow embedding of
    - [runtime/interpreter/visitor.go]: the [Visitor] interface and the
      [EmptyVisitor] with one optional callback slot per value variant;
    - the interface part of the semantic checker ([package sema]):
      [VisitInterfaceDeclaration], [checkInterfaceFunctions],
      [declareInterfaceDeclaration], [checkInterfaceSpecialFunctionBlock];
    - the signature and hash algorithm enumerations of [package sema]: the two
      catalogs and the methods [Name], [RawValue] and [DocString].

    Go pointers are modelled as references into explicit stores, maps as
    [gmap], panics and [defer] by a state-and-panic monad. *)

From Stdlib Require Import ZArith Lia.
From stdpp Require Import gmap strings list fin_maps sorting.

#[local] Set Warnings "-register-all".

(** * Part I: the value visitor ([package interpreter]) *)

Module Interpreter.

(** One tag per method of the [Visitor] interface.  The methods that return
    nothing are the leaf slots, the four that return [bool] are the
    container slots. *)

Inductive LeafSlot : Type :=
  | SValue
  | STypeValue
  | SVoidValue
  | SBoolValue
  | SStringValue
  | SIntValue
  | SInt8Value
  | SInt16Value
  | SInt32Value
  | SInt64Value
  | SInt128Value
  | SInt256Value
  | SUIntValue
  | SUInt8Value
  | SUInt16Value
  | SUInt32Value
  | SUInt64Value
  | SUInt128Value
  | SUInt256Value
  | SWord8Value
  | SWord16Value
  | SWord32Value
  | SWord64Value
  | SFix64Value
  | SUFix64Value
  | SNilValue
  | SStorageReferenceValue
  | SEphemeralReferenceValue
  | SAddressValue
  | SAuthAccountValue
  | SPublicAccountValue
  | SPathValue
  | SCapabilityValue
  | SLinkValue
  | SInterpretedFunctionValue
  | SHostFunctionValue
  | SBoundFunctionValue
  | SAuthAccountContractsValue
  | SDeployedContractValue.

Inductive ContainerSlot : Type :=
  | SArrayValue
  | SCompositeValue
  | SDictionaryValue
  | SSomeValue.

(** The runtime values, as far as traversal sees them: a leaf carries the tag
    of the [Visit...] method its variant dispatches to and an opaque payload;
    the four containers carry their children in order. *)

Inductive Value : Type :=
  | LeafValue (variant : LeafSlot) (payload : Z)
  | ArrayValue (Values : list Value)
  | CompositeValue (Fields : list (string * Value))
  | DictionaryValue (Entries : list (string * Value))
  | SomeValue (inner : Value).

Section Visitors.

(** [Interpreter] is the [*Interpreter] context handed to every callback;
    [World] is whatever state a callback can touch.  A callback may panic:
    it then yields [None]. *)
Context {Interpreter World : Type}.

Definition LeafCallback : Type := Interpreter -> Value -> World -> option World.
Definition ContainerCallback : Type :=
  Interpreter -> Value -> World -> option (bool * World).

(** [type Visitor interface] *)
Record Visitor : Type := {
  iVisitValue : Interpreter -> Value -> World -> option World;
  iVisitTypeValue : Interpreter -> Value -> World -> option World;
  iVisitVoidValue : Interpreter -> Value -> World -> option World;
  iVisitBoolValue : Interpreter -> Value -> World -> option World;
  iVisitStringValue : Interpreter -> Value -> World -> option World;
  iVisitArrayValue : Interpreter -> Value -> World -> option (bool * World);
  iVisitIntValue : Interpreter -> Value -> World -> option World;
  iVisitInt8Value : Interpreter -> Value -> World -> option World;
  iVisitInt16Value : Interpreter -> Value -> World -> option World;
  iVisitInt32Value : Interpreter -> Value -> World -> option World;
  iVisitInt64Value : Interpreter -> Value -> World -> option World;
  iVisitInt128Value : Interpreter -> Value -> World -> option World;
  iVisitInt256Value : Interpreter -> Value -> World -> option World;
  iVisitUIntValue : Interpreter -> Value -> World -> option World;
  iVisitUInt8Value : Interpreter -> Value -> World -> option World;
  iVisitUInt16Value : Interpreter -> Value -> World -> option World;
  iVisitUInt32Value : Interpreter -> Value -> World -> option World;
  iVisitUInt64Value : Interpreter -> Value -> World -> option World;
  iVisitUInt128Value : Interpreter -> Value -> World -> option World;
  iVisitUInt256Value : Interpreter -> Value -> World -> option World;
  iVisitWord8Value : Interpreter -> Value -> World -> option World;
  iVisitWord16Value : Interpreter -> Value -> World -> option World;
  iVisitWord32Value : Interpreter -> Value -> World -> option World;
  iVisitWord64Value : Interpreter -> Value -> World -> option World;
  iVisitFix64Value : Interpreter -> Value -> World -> option World;
  iVisitUFix64Value : Interpreter -> Value -> World -> option World;
  iVisitCompositeValue : Interpreter -> Value -> World -> option (bool * World);
  iVisitDictionaryValue : Interpreter -> Value -> World -> option (bool * World);
  iVisitNilValue : Interpreter -> Value -> World -> option World;
  iVisitSomeValue : Interpreter -> Value -> World -> option (bool * World);
  iVisitStorageReferenceValue : Interpreter -> Value -> World -> option World;
  iVisitEphemeralReferenceValue : Interpreter -> Value -> World -> option World;
  iVisitAddressValue : Interpreter -> Value -> World -> option World;
  iVisitAuthAccountValue : Interpreter -> Value -> World -> option World;
  iVisitPublicAccountValue : Interpreter -> Value -> World -> option World;
  iVisitPathValue : Interpreter -> Value -> World -> option World;
  iVisitCapabilityValue : Interpreter -> Value -> World -> option World;
  iVisitLinkValue : Interpreter -> Value -> World -> option World;
  iVisitInterpretedFunctionValue : Interpreter -> Value -> World -> option World;
  iVisitHostFunctionValue : Interpreter -> Value -> World -> option World;
  iVisitBoundFunctionValue : Interpreter -> Value -> World -> option World;
  iVisitAuthAccountContractsValue : Interpreter -> Value -> World -> option World;
  iVisitDeployedContractValue : Interpreter -> Value -> World -> option World
}.

(** [type EmptyVisitor struct]: a nil func is [None]. *)
Record EmptyVisitor : Type := {
  ValueVisitor : option LeafCallback;
  TypeValueVisitor : option LeafCallback;
  VoidValueVisitor : option LeafCallback;
  BoolValueVisitor : option LeafCallback;
  StringValueVisitor : option LeafCallback;
  ArrayValueVisitor : option ContainerCallback;
  IntValueVisitor : option LeafCallback;
  Int8ValueVisitor : option LeafCallback;
  Int16ValueVisitor : option LeafCallback;
  Int32ValueVisitor : option LeafCallback;
  Int64ValueVisitor : option LeafCallback;
  Int128ValueVisitor : option LeafCallback;
  Int256ValueVisitor : option LeafCallback;
  UIntValueVisitor : option LeafCallback;
  UInt8ValueVisitor : option LeafCallback;
  UInt16ValueVisitor : option LeafCallback;
  UInt32ValueVisitor : option LeafCallback;
  UInt64ValueVisitor : option LeafCallback;
  UInt128ValueVisitor : option LeafCallback;
  UInt256ValueVisitor : option LeafCallback;
  Word8ValueVisitor : option LeafCallback;
  Word16ValueVisitor : option LeafCallback;
  Word32ValueVisitor : option LeafCallback;
  Word64ValueVisitor : option LeafCallback;
  Fix64ValueVisitor : option LeafCallback;
  UFix64ValueVisitor : option LeafCallback;
  CompositeValueVisitor : option ContainerCallback;
  DictionaryValueVisitor : option ContainerCallback;
  NilValueVisitor : option LeafCallback;
  SomeValueVisitor : option ContainerCallback;
  StorageReferenceValueVisitor : option LeafCallback;
  EphemeralReferenceValueVisitor : option LeafCallback;
  AddressValueVisitor : option LeafCallback;
  AuthAccountValueVisitor : option LeafCallback;
  PublicAccountValueVisitor : option LeafCallback;
  PathValueVisitor : option LeafCallback;
  CapabilityValueVisitor : option LeafCallback;
  LinkValueVisitor : option LeafCallback;
  InterpretedFunctionValueVisitor : option LeafCallback;
  HostFunctionValueVisitor : option LeafCallback;
  BoundFunctionValueVisitor : option LeafCallback;
  AuthAccountContractsValueVisitor : option LeafCallback;
  DeployedContractValueVisitor : option LeafCallback
}.

Definition VisitValue (v : EmptyVisitor) (interpreter : Interpreter) (value : Value)
  : World -> option World :=
  match ValueVisitor v with
  | None => fun w => Some w
  | Some f => f interpreter value
  end.

Definition VisitTypeValue (v : EmptyVisitor) (interpreter : Interpreter) (value : Value)
  : World -> option World :=
  match TypeValueVisitor v with
  | None => fun w => Some w
  | Some f => f interpreter value
  end.

Definition VisitVoidValue (v : EmptyVisitor) (interpreter : Interpreter) (value : Value)
  : World -> option World :=
  match VoidValueVisitor v with
  | None => fun w => Some w
  | Some f => f interpreter value
  end.

Definition VisitBoolValue (v : EmptyVisitor) (interpreter : Interpreter) (value : Value)
  : World -> option World :=
  match BoolValueVisitor v with
  | None => fun w => Some w
  | Some f => f interpreter value
  end.

Definition VisitStringValue (v : EmptyVisitor) (interpreter : Interpreter) (value : Value)
  : World -> option World :=
  match StringValueVisitor v with
  | None => fun w => Some w
  | Some f => f interpreter value
  end.

Definition VisitArrayValue (v : EmptyVisitor) (interpreter : Interpreter) (value : Value)
  : World -> option (bool * World) :=
  match ArrayValueVisitor v with
  | None => fun w => Some (true, w)
  | Some f => f interpreter value
  end.

Definition VisitIntValue (v : EmptyVisitor) (interpreter : Interpreter) (value : Value)
  : World -> option World :=
  match IntValueVisitor v with
  | None => fun w => Some w
  | Some f => f interpreter value
  end.

Definition VisitInt8Value (v : EmptyVisitor) (interpreter : Interpreter) (value : Value)
  : World -> option World :=
  match Int8ValueVisitor v with
  | None => fun w => Some w
  | Some f => f interpreter value
  end.

Definition VisitInt16Value (v : EmptyVisitor) (interpreter : Interpreter) (value : Value)
  : World -> option World :=
  match Int16ValueVisitor v with
  | None => fun w => Some w
  | Some f => f interpreter value
  end.

Definition VisitInt32Value (v : EmptyVisitor) (interpreter : Interpreter) (value : Value)
  : World -> option World :=
  match Int32ValueVisitor v with
  | None => fun w => Some w
  | Some f => f interpreter value
  end.

Definition VisitInt64Value (v : EmptyVisitor) (interpreter : Interpreter) (value : Value)
  : World -> option World :=
  match Int64ValueVisitor v with
  | None => fun w => Some w
  | Some f => f interpreter value
  end.

Definition VisitInt128Value (v : EmptyVisitor) (interpreter : Interpreter) (value : Value)
  : World -> option World :=
  match Int128ValueVisitor v with
  | None => fun w => Some w
  | Some f => f interpreter value
  end.

Definition VisitInt256Value (v : EmptyVisitor) (interpreter : Interpreter) (value : Value)
  : World -> option World :=
  match Int256ValueVisitor v with
  | None => fun w => Some w
  | Some f => f interpreter value
  end.

Definition VisitUIntValue (v : EmptyVisitor) (interpreter : Interpreter) (value : Value)
  : World -> option World :=
  match UIntValueVisitor v with
  | None => fun w => Some w
  | Some f => f interpreter value
  end.

Definition VisitUInt8Value (v : EmptyVisitor) (interpreter : Interpreter) (value : Value)
  : World -> option World :=
  match UInt8ValueVisitor v with
  | None => fun w => Some w
  | Some f => f interpreter value
  end.

Definition VisitUInt16Value (v : EmptyVisitor) (interpreter : Interpreter) (value : Value)
  : World -> option World :=
  match UInt16ValueVisitor v with
  | None => fun w => Some w
  | Some f => f interpreter value
  end.

Definition VisitUInt32Value (v : EmptyVisitor) (interpreter : Interpreter) (value : Value)
  : World -> option World :=
  match UInt32ValueVisitor v with
  | None => fun w => Some w
  | Some f => f interpreter value
  end.

Definition VisitUInt64Value (v : EmptyVisitor) (interpreter : Interpreter) (value : Value)
  : World -> option World :=
  match UInt64ValueVisitor v with
  | None => fun w => Some w
  | Some f => f interpreter value
  end.

Definition VisitUInt128Value (v : EmptyVisitor) (interpreter : Interpreter) (value : Value)
  : World -> option World :=
  match UInt128ValueVisitor v with
  | None => fun w => Some w
  | Some f => f interpreter value
  end.

Definition VisitUInt256Value (v : EmptyVisitor) (interpreter : Interpreter) (value : Value)
  : World -> option World :=
  match UInt256ValueVisitor v with
  | None => fun w => Some w
  | Some f => f interpreter value
  end.

Definition VisitWord8Value (v : EmptyVisitor) (interpreter : Interpreter) (value : Value)
  : World -> option World :=
  match Word8ValueVisitor v with
  | None => fun w => Some w
  | Some f => f interpreter value
  end.

Definition VisitWord16Value (v : EmptyVisitor) (interpreter : Interpreter) (value : Value)
  : World -> option World :=
  match Word16ValueVisitor v with
  | None => fun w => Some w
  | Some f => f interpreter value
  end.

Definition VisitWord32Value (v : EmptyVisitor) (interpreter : Interpreter) (value : Value)
  : World -> option World :=
  match Word32ValueVisitor v with
  | None => fun w => Some w
  | Some f => f interpreter value
  end.

Definition VisitWord64Value (v : EmptyVisitor) (interpreter : Interpreter) (value : Value)
  : World -> option World :=
  match Word64ValueVisitor v with
  | None => fun w => Some w
  | Some f => f interpreter value
  end.

Definition VisitFix64Value (v : EmptyVisitor) (interpreter : Interpreter) (value : Value)
  : World -> option World :=
  match Fix64ValueVisitor v with
  | None => fun w => Some w
  | Some f => f interpreter value
  end.

Definition VisitUFix64Value (v : EmptyVisitor) (interpreter : Interpreter) (value : Value)
  : World -> option World :=
  match UFix64ValueVisitor v with
  | None => fun w => Some w
  | Some f => f interpreter value
  end.

Definition VisitCompositeValue (v : EmptyVisitor) (interpreter : Interpreter) (value : Value)
  : World -> option (bool * World) :=
  match CompositeValueVisitor v with
  | None => fun w => Some (true, w)
  | Some f => f interpreter value
  end.

Definition VisitDictionaryValue (v : EmptyVisitor) (interpreter : Interpreter) (value : Value)
  : World -> option (bool * World) :=
  match DictionaryValueVisitor v with
  | None => fun w => Some (true, w)
  | Some f => f interpreter value
  end.

Definition VisitNilValue (v : EmptyVisitor) (interpreter : Interpreter) (value : Value)
  : World -> option World :=
  match NilValueVisitor v with
  | None => fun w => Some w
  | Some f => f interpreter value
  end.

Definition VisitSomeValue (v : EmptyVisitor) (interpreter : Interpreter) (value : Value)
  : World -> option (bool * World) :=
  match SomeValueVisitor v with
  | None => fun w => Some (true, w)
  | Some f => f interpreter value
  end.

Definition VisitStorageReferenceValue (v : EmptyVisitor) (interpreter : Interpreter) (value : Value)
  : World -> option World :=
  match StorageReferenceValueVisitor v with
  | None => fun w => Some w
  | Some f => f interpreter value
  end.

Definition VisitEphemeralReferenceValue (v : EmptyVisitor) (interpreter : Interpreter) (value : Value)
  : World -> option World :=
  match EphemeralReferenceValueVisitor v with
  | None => fun w => Some w
  | Some f => f interpreter value
  end.

Definition VisitAddressValue (v : EmptyVisitor) (interpreter : Interpreter) (value : Value)
  : World -> option World :=
  match AddressValueVisitor v with
  | None => fun w => Some w
  | Some f => f interpreter value
  end.

Definition VisitAuthAccountValue (v : EmptyVisitor) (interpreter : Interpreter) (value : Value)
  : World -> option World :=
  match AuthAccountValueVisitor v with
  | None => fun w => Some w
  | Some f => f interpreter value
  end.

Definition VisitPublicAccountValue (v : EmptyVisitor) (interpreter : Interpreter) (value : Value)
  : World -> option World :=
  match PublicAccountValueVisitor v with
  | None => fun w => Some w
  | Some f => f interpreter value
  end.

Definition VisitPathValue (v : EmptyVisitor) (interpreter : Interpreter) (value : Value)
  : World -> option World :=
  match PathValueVisitor v with
  | None => fun w => Some w
  | Some f => f interpreter value
  end.

Definition VisitCapabilityValue (v : EmptyVisitor) (interpreter : Interpreter) (value : Value)
  : World -> option World :=
  match CapabilityValueVisitor v with
  | None => fun w => Some w
  | Some f => f interpreter value
  end.

Definition VisitLinkValue (v : EmptyVisitor) (interpreter : Interpreter) (value : Value)
  : World -> option World :=
  match LinkValueVisitor v with
  | None => fun w => Some w
  | Some f => f interpreter value
  end.

Definition VisitInterpretedFunctionValue (v : EmptyVisitor) (interpreter : Interpreter) (value : Value)
  : World -> option World :=
  match InterpretedFunctionValueVisitor v with
  | None => fun w => Some w
  | Some f => f interpreter value
  end.

Definition VisitHostFunctionValue (v : EmptyVisitor) (interpreter : Interpreter) (value : Value)
  : World -> option World :=
  match HostFunctionValueVisitor v with
  | None => fun w => Some w
  | Some f => f interpreter value
  end.

Definition VisitBoundFunctionValue (v : EmptyVisitor) (interpreter : Interpreter) (value : Value)
  : World -> option World :=
  match BoundFunctionValueVisitor v with
  | None => fun w => Some w
  | Some f => f interpreter value
  end.

Definition VisitAuthAccountContractsValue (v : EmptyVisitor) (interpreter : Interpreter) (value : Value)
  : World -> option World :=
  match AuthAccountContractsValueVisitor v with
  | None => fun w => Some w
  | Some f => f interpreter value
  end.

Definition VisitDeployedContractValue (v : EmptyVisitor) (interpreter : Interpreter) (value : Value)
  : World -> option World :=
  match DeployedContractValueVisitor v with
  | None => fun w => Some w
  | Some f => f interpreter value
  end.

(** [EmptyVisitor] implements [Visitor]. *)
Definition EmptyVisitor_Visitor (v : EmptyVisitor) : Visitor := {|
  iVisitValue := VisitValue v;
  iVisitTypeValue := VisitTypeValue v;
  iVisitVoidValue := VisitVoidValue v;
  iVisitBoolValue := VisitBoolValue v;
  iVisitStringValue := VisitStringValue v;
  iVisitArrayValue := VisitArrayValue v;
  iVisitIntValue := VisitIntValue v;
  iVisitInt8Value := VisitInt8Value v;
  iVisitInt16Value := VisitInt16Value v;
  iVisitInt32Value := VisitInt32Value v;
  iVisitInt64Value := VisitInt64Value v;
  iVisitInt128Value := VisitInt128Value v;
  iVisitInt256Value := VisitInt256Value v;
  iVisitUIntValue := VisitUIntValue v;
  iVisitUInt8Value := VisitUInt8Value v;
  iVisitUInt16Value := VisitUInt16Value v;
  iVisitUInt32Value := VisitUInt32Value v;
  iVisitUInt64Value := VisitUInt64Value v;
  iVisitUInt128Value := VisitUInt128Value v;
  iVisitUInt256Value := VisitUInt256Value v;
  iVisitWord8Value := VisitWord8Value v;
  iVisitWord16Value := VisitWord16Value v;
  iVisitWord32Value := VisitWord32Value v;
  iVisitWord64Value := VisitWord64Value v;
  iVisitFix64Value := VisitFix64Value v;
  iVisitUFix64Value := VisitUFix64Value v;
  iVisitCompositeValue := VisitCompositeValue v;
  iVisitDictionaryValue := VisitDictionaryValue v;
  iVisitNilValue := VisitNilValue v;
  iVisitSomeValue := VisitSomeValue v;
  iVisitStorageReferenceValue := VisitStorageReferenceValue v;
  iVisitEphemeralReferenceValue := VisitEphemeralReferenceValue v;
  iVisitAddressValue := VisitAddressValue v;
  iVisitAuthAccountValue := VisitAuthAccountValue v;
  iVisitPublicAccountValue := VisitPublicAccountValue v;
  iVisitPathValue := VisitPathValue v;
  iVisitCapabilityValue := VisitCapabilityValue v;
  iVisitLinkValue := VisitLinkValue v;
  iVisitInterpretedFunctionValue := VisitInterpretedFunctionValue v;
  iVisitHostFunctionValue := VisitHostFunctionValue v;
  iVisitBoundFunctionValue := VisitBoundFunctionValue v;
  iVisitAuthAccountContractsValue := VisitAuthAccountContractsValue v;
  iVisitDeployedContractValue := VisitDeployedContractValue v
|}.

(** Slot and method selected by a tag. *)
Definition leafSlot (v : EmptyVisitor) (s : LeafSlot) : option LeafCallback :=
  match s with
  | SValue => ValueVisitor v
  | STypeValue => TypeValueVisitor v
  | SVoidValue => VoidValueVisitor v
  | SBoolValue => BoolValueVisitor v
  | SStringValue => StringValueVisitor v
  | SIntValue => IntValueVisitor v
  | SInt8Value => Int8ValueVisitor v
  | SInt16Value => Int16ValueVisitor v
  | SInt32Value => Int32ValueVisitor v
  | SInt64Value => Int64ValueVisitor v
  | SInt128Value => Int128ValueVisitor v
  | SInt256Value => Int256ValueVisitor v
  | SUIntValue => UIntValueVisitor v
  | SUInt8Value => UInt8ValueVisitor v
  | SUInt16Value => UInt16ValueVisitor v
  | SUInt32Value => UInt32ValueVisitor v
  | SUInt64Value => UInt64ValueVisitor v
  | SUInt128Value => UInt128ValueVisitor v
  | SUInt256Value => UInt256ValueVisitor v
  | SWord8Value => Word8ValueVisitor v
  | SWord16Value => Word16ValueVisitor v
  | SWord32Value => Word32ValueVisitor v
  | SWord64Value => Word64ValueVisitor v
  | SFix64Value => Fix64ValueVisitor v
  | SUFix64Value => UFix64ValueVisitor v
  | SNilValue => NilValueVisitor v
  | SStorageReferenceValue => StorageReferenceValueVisitor v
  | SEphemeralReferenceValue => EphemeralReferenceValueVisitor v
  | SAddressValue => AddressValueVisitor v
  | SAuthAccountValue => AuthAccountValueVisitor v
  | SPublicAccountValue => PublicAccountValueVisitor v
  | SPathValue => PathValueVisitor v
  | SCapabilityValue => CapabilityValueVisitor v
  | SLinkValue => LinkValueVisitor v
  | SInterpretedFunctionValue => InterpretedFunctionValueVisitor v
  | SHostFunctionValue => HostFunctionValueVisitor v
  | SBoundFunctionValue => BoundFunctionValueVisitor v
  | SAuthAccountContractsValue => AuthAccountContractsValueVisitor v
  | SDeployedContractValue => DeployedContractValueVisitor v
  end.

Definition containerSlot (v : EmptyVisitor) (s : ContainerSlot) : option ContainerCallback :=
  match s with
  | SArrayValue => ArrayValueVisitor v
  | SCompositeValue => CompositeValueVisitor v
  | SDictionaryValue => DictionaryValueVisitor v
  | SSomeValue => SomeValueVisitor v
  end.

Definition visitLeaf (V : Visitor) (s : LeafSlot) : Interpreter -> Value -> World -> option World :=
  match s with
  | SValue => iVisitValue V
  | STypeValue => iVisitTypeValue V
  | SVoidValue => iVisitVoidValue V
  | SBoolValue => iVisitBoolValue V
  | SStringValue => iVisitStringValue V
  | SIntValue => iVisitIntValue V
  | SInt8Value => iVisitInt8Value V
  | SInt16Value => iVisitInt16Value V
  | SInt32Value => iVisitInt32Value V
  | SInt64Value => iVisitInt64Value V
  | SInt128Value => iVisitInt128Value V
  | SInt256Value => iVisitInt256Value V
  | SUIntValue => iVisitUIntValue V
  | SUInt8Value => iVisitUInt8Value V
  | SUInt16Value => iVisitUInt16Value V
  | SUInt32Value => iVisitUInt32Value V
  | SUInt64Value => iVisitUInt64Value V
  | SUInt128Value => iVisitUInt128Value V
  | SUInt256Value => iVisitUInt256Value V
  | SWord8Value => iVisitWord8Value V
  | SWord16Value => iVisitWord16Value V
  | SWord32Value => iVisitWord32Value V
  | SWord64Value => iVisitWord64Value V
  | SFix64Value => iVisitFix64Value V
  | SUFix64Value => iVisitUFix64Value V
  | SNilValue => iVisitNilValue V
  | SStorageReferenceValue => iVisitStorageReferenceValue V
  | SEphemeralReferenceValue => iVisitEphemeralReferenceValue V
  | SAddressValue => iVisitAddressValue V
  | SAuthAccountValue => iVisitAuthAccountValue V
  | SPublicAccountValue => iVisitPublicAccountValue V
  | SPathValue => iVisitPathValue V
  | SCapabilityValue => iVisitCapabilityValue V
  | SLinkValue => iVisitLinkValue V
  | SInterpretedFunctionValue => iVisitInterpretedFunctionValue V
  | SHostFunctionValue => iVisitHostFunctionValue V
  | SBoundFunctionValue => iVisitBoundFunctionValue V
  | SAuthAccountContractsValue => iVisitAuthAccountContractsValue V
  | SDeployedContractValue => iVisitDeployedContractValue V
  end.

Definition visitContainer (V : Visitor) (s : ContainerSlot)
  : Interpreter -> Value -> World -> option (bool * World) :=
  match s with
  | SArrayValue => iVisitArrayValue V
  | SCompositeValue => iVisitCompositeValue V
  | SDictionaryValue => iVisitDictionaryValue V
  | SSomeValue => iVisitSomeValue V
  end.

Definition emptyVisitor : EmptyVisitor := {|
  ValueVisitor := None;
  TypeValueVisitor := None;
  VoidValueVisitor := None;
  BoolValueVisitor := None;
  StringValueVisitor := None;
  ArrayValueVisitor := None;
  IntValueVisitor := None;
  Int8ValueVisitor := None;
  Int16ValueVisitor := None;
  Int32ValueVisitor := None;
  Int64ValueVisitor := None;
  Int128ValueVisitor := None;
  Int256ValueVisitor := None;
  UIntValueVisitor := None;
  UInt8ValueVisitor := None;
  UInt16ValueVisitor := None;
  UInt32ValueVisitor := None;
  UInt64ValueVisitor := None;
  UInt128ValueVisitor := None;
  UInt256ValueVisitor := None;
  Word8ValueVisitor := None;
  Word16ValueVisitor := None;
  Word32ValueVisitor := None;
  Word64ValueVisitor := None;
  Fix64ValueVisitor := None;
  UFix64ValueVisitor := None;
  CompositeValueVisitor := None;
  DictionaryValueVisitor := None;
  NilValueVisitor := None;
  SomeValueVisitor := None;
  StorageReferenceValueVisitor := None;
  EphemeralReferenceValueVisitor := None;
  AddressValueVisitor := None;
  AuthAccountValueVisitor := None;
  PublicAccountValueVisitor := None;
  PathValueVisitor := None;
  CapabilityValueVisitor := None;
  LinkValueVisitor := None;
  InterpretedFunctionValueVisitor := None;
  HostFunctionValueVisitor := None;
  BoundFunctionValueVisitor := None;
  AuthAccountContractsValueVisitor := None;
  DeployedContractValueVisitor := None
|}.

(** A loop over a list that stops at the first fault. *)
Definition forEach {A S : Type} (f : A -> S -> option S) : list A -> S -> option S :=
  fix go (l : list A) (s : S) : option S :=
    match l with
    | [] => Some s
    | x :: r => match f x s with None => None | Some s' => go r s' end
    end.

(** The trace records, in call order, the value each visitor method was
    invoked on. *)
Definition Trace : Type := list Value.

(** Modelled from the spec: the [Accept] methods of the value variants are not
    part of visitor.go.  A leaf variant dispatches to the visitor method of
    exactly its own variant and has no recursion step. *)
Definition acceptLeaf (visitor : Visitor) (interpreter : Interpreter) (s : LeafSlot)
    (v : Value) (st : Trace * World) : option (Trace * World) :=
  match visitLeaf visitor s interpreter v st.2 with
  | None => None
  | Some w => Some (st.1 ++ [v], w)
  end.

(** Modelled from the spec: a container variant dispatches to its own
    visitor method, which answers whether to go on; on [true] the children are
    visited, on [false] the subtree is pruned. *)
Definition acceptContainer (visitor : Visitor) (interpreter : Interpreter) (s : ContainerSlot)
    (v : Value) (children : Trace * World -> option (Trace * World))
    (st : Trace * World) : option (Trace * World) :=
  match visitContainer visitor s interpreter v st.2 with
  | None => None
  | Some (descend, w) =>
      if descend then children (st.1 ++ [v], w) else Some (st.1 ++ [v], w)
  end.

(** Modelled from the spec: [Accept], for every variant.  The children of an
    array are its elements in index order, those of a dictionary its entries
    in entry order, those of a composite its fields in declaration order, and
    an optional has its one wrapped value. *)
Fixpoint Accept (visitor : Visitor) (interpreter : Interpreter) (v : Value)
    (st : Trace * World) {struct v} : option (Trace * World) :=
  match v with
  | LeafValue s _ => acceptLeaf visitor interpreter s v st
  | ArrayValue values =>
      acceptContainer visitor interpreter SArrayValue v
        (forEach (Accept visitor interpreter) values) st
  | CompositeValue fields =>
      acceptContainer visitor interpreter SCompositeValue v
        (forEach (fun kv => Accept visitor interpreter kv.2) fields) st
  | DictionaryValue entries =>
      acceptContainer visitor interpreter SDictionaryValue v
        (forEach (fun kv => Accept visitor interpreter kv.2) entries) st
  | SomeValue inner =>
      acceptContainer visitor interpreter SSomeValue v
        (Accept visitor interpreter inner) st
  end.

End Visitors.

Arguments Visitor : clear implicits.
Arguments EmptyVisitor : clear implicits.
Arguments LeafCallback : clear implicits.
Arguments ContainerCallback : clear implicits.

(** ** The traversal order, stated independently of [Accept] *)

Definition children (v : Value) : list Value :=
  match v with
  | LeafValue _ _ => []
  | ArrayValue values => values
  | CompositeValue fields => fields.*2
  | DictionaryValue entries => entries.*2
  | SomeValue inner => [inner]
  end.

(** A node of a value is addressed by the child indices leading to it. *)
Definition Path : Type := list nat.

Fixpoint nodeAt (v : Value) (p : Path) {struct p} : option Value :=
  match p with
  | [] => Some v
  | i :: q => match children v !! i with None => None | Some c => nodeAt c q end
  end.

Definition numbered {A B : Type} (f : nat -> A -> list B) : nat -> list A -> list B :=
  fix go (i : nat) (l : list A) : list B :=
    match l with
    | [] => []
    | x :: r => f i x ++ go (S i) r
    end.

Fixpoint preorder (v : Value) : list Value :=
  v :: match v with
       | LeafValue _ _ => []
       | ArrayValue values => numbered (fun _ c => preorder c) 0 values
       | CompositeValue fields => numbered (fun _ kv => preorder kv.2) 0 fields
       | DictionaryValue entries => numbered (fun _ kv => preorder kv.2) 0 entries
       | SomeValue inner => preorder inner
       end.

Fixpoint paths (v : Value) : list Path :=
  [] :: match v with
        | LeafValue _ _ => []
        | ArrayValue values => numbered (fun i c => cons i <$> paths c) 0 values
        | CompositeValue fields => numbered (fun i kv => cons i <$> paths kv.2) 0 fields
        | DictionaryValue entries => numbered (fun i kv => cons i <$> paths kv.2) 0 entries
        | SomeValue inner => cons 0 <$> paths inner
        end.

(** Preorder on addresses: a node comes before its descendants, and an earlier
    sibling's subtree before a later sibling's. *)
Fixpoint path_lt (p q : Path) : Prop :=
  match p, q with
  | [], [] => False
  | [], _ :: _ => True
  | _ :: _, [] => False
  | i :: p', j :: q' => i < j \/ (i = j /\ path_lt p' q')
  end.

End Interpreter.

(** ** Concrete inputs *)

Module InterpreterExamples.

Import Interpreter.

(** A partial visitor over a counter: it counts the arrays and prunes them,
    counts the strings, and leaves every other slot unset. *)
Definition arrayCounter : EmptyVisitor unit nat := {|
  ValueVisitor := None;
  TypeValueVisitor := None;
  VoidValueVisitor := None;
  BoolValueVisitor := None;
  StringValueVisitor := Some (fun _ _ n => Some (S n));
  ArrayValueVisitor := Some (fun _ _ n => Some (false, S n));
  IntValueVisitor := None;
  Int8ValueVisitor := None;
  Int16ValueVisitor := None;
  Int32ValueVisitor := None;
  Int64ValueVisitor := None;
  Int128ValueVisitor := None;
  Int256ValueVisitor := None;
  UIntValueVisitor := None;
  UInt8ValueVisitor := None;
  UInt16ValueVisitor := None;
  UInt32ValueVisitor := None;
  UInt64ValueVisitor := None;
  UInt128ValueVisitor := None;
  UInt256ValueVisitor := None;
  Word8ValueVisitor := None;
  Word16ValueVisitor := None;
  Word32ValueVisitor := None;
  Word64ValueVisitor := None;
  Fix64ValueVisitor := None;
  UFix64ValueVisitor := None;
  CompositeValueVisitor := None;
  DictionaryValueVisitor := None;
  NilValueVisitor := None;
  SomeValueVisitor := None;
  StorageReferenceValueVisitor := None;
  EphemeralReferenceValueVisitor := None;
  AddressValueVisitor := None;
  AuthAccountValueVisitor := None;
  PublicAccountValueVisitor := None;
  PathValueVisitor := None;
  CapabilityValueVisitor := None;
  LinkValueVisitor := None;
  InterpretedFunctionValueVisitor := None;
  HostFunctionValueVisitor := None;
  BoundFunctionValueVisitor := None;
  AuthAccountContractsValueVisitor := None;
  DeployedContractValueVisitor := None
|}.

(** [[ "a", true ]] wrapped in an optional. *)
Definition someArray : Value :=
  SomeValue (ArrayValue [LeafValue SStringValue 97; LeafValue SBoolValue 1]).

End InterpreterExamples.

(** * Part II: checking interface declarations ([package sema]) *)

Module Sema.

(** ** Syntax: what the checker reads from [package ast] and [package common] *)

Record Position : Type := { Offset : Z; Line : Z; Column : Z }.

(** [ast.Identifier] *)
Record Identifier : Type := { id_Identifier : string; id_Pos : Position }.

(** Modelled from the spec: [common.CompositeKind] is declared outside the
    checked files; the spec lists resource, struct, contract, event, enum. *)
Inductive CompositeKind : Type :=
  | CompositeKindUnknown
  | CompositeKindStructure
  | CompositeKindResource
  | CompositeKindContract
  | CompositeKindEvent
  | CompositeKindEnum.

(** [common.DeclarationKind], as far as these files name its values. *)
Inductive DeclarationKind : Type :=
  | DeclarationKindUnknown
  | DeclarationKindFunction
  | DeclarationKindStructureInterface
  | DeclarationKindResourceInterface
  | DeclarationKindContractInterface
  | DeclarationKindStructure
  | DeclarationKindResource
  | DeclarationKindContract
  | DeclarationKindEvent
  | DeclarationKindSelf.

Inductive Access : Type :=
  | AccessNotSpecified
  | AccessPrivate
  | AccessPublic
  | AccessPublicSettable
  | AccessAuthorized.

Inductive ContainerKind : Type :=
  | ContainerKindUnknown
  | ContainerKindInterface
  | ContainerKindComposite.

#[global] Instance CompositeKind_eq_dec : EqDecision CompositeKind.
Proof. solve_decision. Defined.
#[global] Instance DeclarationKind_eq_dec : EqDecision DeclarationKind.
Proof. solve_decision. Defined.

(** The types of other packages that the checker only passes along. *)
Class Foreign : Type := {
  Location : Type;
  FieldDeclaration : Type;
  SpecialFunctionDeclaration : Type;
  CompositeDeclaration : Type;
  FunctionSignature : Type;
  StatementBody : Type;
  Condition : Type;
  Member : Type;
  Origins : Type;
  TypeAnnotation : Type;
  InitializationInfo : Type;
  CompositeTypeRest : Type;
  ForeignError : Type;
  CheckerRest : Type
}.

(** A [*InterfaceType] or [*CompositeType] is an address in the matching
    store, [None] is the nil pointer.  A [Type] interface value holding such a
    pointer is a [Ty]. *)
Definition Ptr : Type := option positive.

Inductive Ty : Type :=
  | InterfaceTy (p : Ptr)
  | CompositeTy (p : Ptr).

#[global] Instance Ty_eq_dec : EqDecision Ty.
Proof. solve_decision. Defined.

#[global] Instance Ty_countable : Countable Ty.
Proof.
  refine (inj_countable'
    (fun t => match t with InterfaceTy p => inl p | CompositeTy p => inr p end)
    (fun s => match s with inl p => InterfaceTy p | inr p => CompositeTy p end) _).
  by intros [].
Defined.

Section Model.

Context `{Foreign}.

(** [ast.Statement] is an interface; the checker calls [StartPosition()]. *)
Record Statement : Type := { StartPosition : Position; stmt_body : StatementBody }.

Record FunctionBlock : Type := {
  Statements : list Statement;
  PreConditions : list Condition;
  PostConditions : list Condition;
  fb_StartPos : Position
}.

Record FunctionDeclaration : Type := {
  FunctionBlock_ : option FunctionBlock;
  fn_signature : FunctionSignature
}.

Record Members_ : Type := {
  Fields : list FieldDeclaration;
  Functions : list FunctionDeclaration;
  SpecialFunctions : list SpecialFunctionDeclaration
}.

(** [*ast.InterfaceDeclaration]: [decl_addr] is the identity of the pointer
    (declarations are map keys), [decl_DeclarationKind] is what the method
    [DeclarationKind()] answers. *)
Inductive InterfaceDeclaration : Type := Build_InterfaceDeclaration {
  decl_addr : positive;
  decl_Access : Access;
  decl_CompositeKind : CompositeKind;
  decl_Identifier : Identifier;
  decl_Members : Members_;
  decl_CompositeDeclarations : list CompositeDeclaration;
  decl_InterfaceDeclarations : list InterfaceDeclaration;
  decl_StartPos : Position;
  decl_DeclarationKind : DeclarationKind
}.

(** [ast.Declaration], the interface a recorded nested declaration is seen
    through: the answers of its three methods. *)
Record Declaration : Type := {
  DeclarationIdentifier : option Identifier;
  DeclarationKind_ : DeclarationKind;
  DeclarationAccess : Access
}.

Record functionDeclarationOptions : Type := {
  mustExit : bool;
  declareFunction : bool;
  checkResourceLoss : bool;
  allowAuthAccessModifier : bool
}.

(** ** Types and checker state *)

Record InterfaceType : Type := {
  it_Location : Location;
  it_Identifier : string;
  it_CompositeKind : CompositeKind;
  it_NestedTypes : gmap string Ty;
  it_Members : gmap string Member;
  it_InitializerParameterTypeAnnotations : list TypeAnnotation;
  it_ContainerType : option Ty
}.

(** [CompositeType] is declared outside the checked files; these files read
    its [Identifier] and write its [ContainerType]. *)
Record CompositeType : Type := {
  ct_Identifier : string;
  ct_ContainerType : option Ty;
  ct_rest : CompositeTypeRest
}.

(** Modelled from the spec: [sema.Variable] and the scope stack are declared
    outside the checked files ([Variable] is a reserved word here).  A registered identifier remembers the type,
    kind, access and position it was declared with. *)
Record Variable_ : Type := {
  var_Identifier : string;
  var_Type : Ty;
  var_DeclarationKind : DeclarationKind;
  var_Access : Access;
  var_Pos : Position
}.

Inductive error : Type :=
  | InvalidImplementationError (Pos : Position) (ContainerKind_ ImplementedKind : DeclarationKind)
  | RedeclarationError (Kind : DeclarationKind) (Name : string) (Pos : Position) (access : Access)
  | UnreachableError
  | OtherError (e : ForeignError).

(** What a Go panic carries. *)
Inductive PanicValue : Type :=
  | PanicError (e : error)
  | NilDereference
  | OtherPanic (e : ForeignError).

Record Checker : Type := {
  chk_Location : Location;
  errors : list error;
  containerTypes : gmap Ty bool;
  typeActivations : list (gmap string Variable_);
  valueActivations : list (gmap string Variable_);
  InterfaceDeclarationTypes : gmap positive positive;
  InterfaceNestedDeclarations : gmap positive (gmap string Declaration);
  memberOrigins : gmap Ty Origins;
  interfaceTypes : gmap positive InterfaceType;
  compositeTypes : gmap positive CompositeType;
  chk_rest : CheckerRest
}.

(** Field updates of the checker state and of the type records. *)
Definition set_errors (f : list error -> list error) (c : Checker) : Checker :=
  {| chk_Location := chk_Location c;
     errors := f (errors c);
     containerTypes := containerTypes c;
     typeActivations := typeActivations c;
     valueActivations := valueActivations c;
     InterfaceDeclarationTypes := InterfaceDeclarationTypes c;
     InterfaceNestedDeclarations := InterfaceNestedDeclarations c;
     memberOrigins := memberOrigins c;
     interfaceTypes := interfaceTypes c;
     compositeTypes := compositeTypes c;
     chk_rest := chk_rest c |}.

Definition set_containerTypes (f : gmap Ty bool -> gmap Ty bool) (c : Checker) : Checker :=
  {| chk_Location := chk_Location c;
     errors := errors c;
     containerTypes := f (containerTypes c);
     typeActivations := typeActivations c;
     valueActivations := valueActivations c;
     InterfaceDeclarationTypes := InterfaceDeclarationTypes c;
     InterfaceNestedDeclarations := InterfaceNestedDeclarations c;
     memberOrigins := memberOrigins c;
     interfaceTypes := interfaceTypes c;
     compositeTypes := compositeTypes c;
     chk_rest := chk_rest c |}.

Definition set_typeActivations (f : list (gmap string Variable_) -> list (gmap string Variable_)) (c : Checker) : Checker :=
  {| chk_Location := chk_Location c;
     errors := errors c;
     containerTypes := containerTypes c;
     typeActivations := f (typeActivations c);
     valueActivations := valueActivations c;
     InterfaceDeclarationTypes := InterfaceDeclarationTypes c;
     InterfaceNestedDeclarations := InterfaceNestedDeclarations c;
     memberOrigins := memberOrigins c;
     interfaceTypes := interfaceTypes c;
     compositeTypes := compositeTypes c;
     chk_rest := chk_rest c |}.

Definition set_valueActivations (f : list (gmap string Variable_) -> list (gmap string Variable_)) (c : Checker) : Checker :=
  {| chk_Location := chk_Location c;
     errors := errors c;
     containerTypes := containerTypes c;
     typeActivations := typeActivations c;
     valueActivations := f (valueActivations c);
     InterfaceDeclarationTypes := InterfaceDeclarationTypes c;
     InterfaceNestedDeclarations := InterfaceNestedDeclarations c;
     memberOrigins := memberOrigins c;
     interfaceTypes := interfaceTypes c;
     compositeTypes := compositeTypes c;
     chk_rest := chk_rest c |}.

Definition set_InterfaceDeclarationTypes (f : gmap positive positive -> gmap positive positive) (c : Checker) : Checker :=
  {| chk_Location := chk_Location c;
     errors := errors c;
     containerTypes := containerTypes c;
     typeActivations := typeActivations c;
     valueActivations := valueActivations c;
     InterfaceDeclarationTypes := f (InterfaceDeclarationTypes c);
     InterfaceNestedDeclarations := InterfaceNestedDeclarations c;
     memberOrigins := memberOrigins c;
     interfaceTypes := interfaceTypes c;
     compositeTypes := compositeTypes c;
     chk_rest := chk_rest c |}.

Definition set_InterfaceNestedDeclarations (f : gmap positive (gmap string Declaration) -> gmap positive (gmap string Declaration)) (c : Checker) : Checker :=
  {| chk_Location := chk_Location c;
     errors := errors c;
     containerTypes := containerTypes c;
     typeActivations := typeActivations c;
     valueActivations := valueActivations c;
     InterfaceDeclarationTypes := InterfaceDeclarationTypes c;
     InterfaceNestedDeclarations := f (InterfaceNestedDeclarations c);
     memberOrigins := memberOrigins c;
     interfaceTypes := interfaceTypes c;
     compositeTypes := compositeTypes c;
     chk_rest := chk_rest c |}.

Definition set_memberOrigins (f : gmap Ty Origins -> gmap Ty Origins) (c : Checker) : Checker :=
  {| chk_Location := chk_Location c;
     errors := errors c;
     containerTypes := containerTypes c;
     typeActivations := typeActivations c;
     valueActivations := valueActivations c;
     InterfaceDeclarationTypes := InterfaceDeclarationTypes c;
     InterfaceNestedDeclarations := InterfaceNestedDeclarations c;
     memberOrigins := f (memberOrigins c);
     interfaceTypes := interfaceTypes c;
     compositeTypes := compositeTypes c;
     chk_rest := chk_rest c |}.

Definition set_interfaceTypes (f : gmap positive InterfaceType -> gmap positive InterfaceType) (c : Checker) : Checker :=
  {| chk_Location := chk_Location c;
     errors := errors c;
     containerTypes := containerTypes c;
     typeActivations := typeActivations c;
     valueActivations := valueActivations c;
     InterfaceDeclarationTypes := InterfaceDeclarationTypes c;
     InterfaceNestedDeclarations := InterfaceNestedDeclarations c;
     memberOrigins := memberOrigins c;
     interfaceTypes := f (interfaceTypes c);
     compositeTypes := compositeTypes c;
     chk_rest := chk_rest c |}.

Definition set_compositeTypes (f : gmap positive CompositeType -> gmap positive CompositeType) (c : Checker) : Checker :=
  {| chk_Location := chk_Location c;
     errors := errors c;
     containerTypes := containerTypes c;
     typeActivations := typeActivations c;
     valueActivations := valueActivations c;
     InterfaceDeclarationTypes := InterfaceDeclarationTypes c;
     InterfaceNestedDeclarations := InterfaceNestedDeclarations c;
     memberOrigins := memberOrigins c;
     interfaceTypes := interfaceTypes c;
     compositeTypes := f (compositeTypes c);
     chk_rest := chk_rest c |}.

Definition set_it_NestedTypes (x : gmap string Ty) (t : InterfaceType) : InterfaceType :=
  {| it_Location := it_Location t;
     it_Identifier := it_Identifier t;
     it_CompositeKind := it_CompositeKind t;
     it_NestedTypes := x;
     it_Members := it_Members t;
     it_InitializerParameterTypeAnnotations := it_InitializerParameterTypeAnnotations t;
     it_ContainerType := it_ContainerType t |}.

Definition set_it_Members (x : gmap string Member) (t : InterfaceType) : InterfaceType :=
  {| it_Location := it_Location t;
     it_Identifier := it_Identifier t;
     it_CompositeKind := it_CompositeKind t;
     it_NestedTypes := it_NestedTypes t;
     it_Members := x;
     it_InitializerParameterTypeAnnotations := it_InitializerParameterTypeAnnotations t;
     it_ContainerType := it_ContainerType t |}.

Definition set_it_InitializerParameterTypeAnnotations (x : list TypeAnnotation) (t : InterfaceType) : InterfaceType :=
  {| it_Location := it_Location t;
     it_Identifier := it_Identifier t;
     it_CompositeKind := it_CompositeKind t;
     it_NestedTypes := it_NestedTypes t;
     it_Members := it_Members t;
     it_InitializerParameterTypeAnnotations := x;
     it_ContainerType := it_ContainerType t |}.

Definition set_it_ContainerType (x : option Ty) (t : InterfaceType) : InterfaceType :=
  {| it_Location := it_Location t;
     it_Identifier := it_Identifier t;
     it_CompositeKind := it_CompositeKind t;
     it_NestedTypes := it_NestedTypes t;
     it_Members := it_Members t;
     it_InitializerParameterTypeAnnotations := it_InitializerParameterTypeAnnotations t;
     it_ContainerType := x |}.

Definition set_ct_ContainerType (x : option Ty) (t : CompositeType) : CompositeType :=
  {| ct_Identifier := ct_Identifier t; ct_ContainerType := x; ct_rest := ct_rest t |}.

(** ** Control: state, panics and [defer] *)

(** The functions the checked files call but do not define are reached
    through [Helpers]; every such call is noted in a call log. *)
Inductive Call : Type :=
  | CallCheckDeclarationAccessModifier
  | CallCheckFieldsAccessModifier
  | CallCheckNestedIdentifiers
  | CallMembersAndOrigins (interfaceType : Ptr)
  | CallInitializerParameterTypeAnnotations
  | CallCheckInitializers (interfaceType : Ptr)
  | CallCheckDestructors (interfaceType : Ptr) (containerDeclarationKind : DeclarationKind)
  | CallCheckUnknownSpecialFunctions
  | CallEnterValueScope
  | CallLeaveValueScope
  | CallDeclareSelfValue (interfaceType : Ptr)
  | CallVisitFunctionDeclaration (function : FunctionDeclaration)
  | CallCheckResourceFieldNesting
  | CallCheckCompositeDeclarationSupport
  | CallRecordVariableDeclarationOccurrence
  | CallVisitNestedDeclarations.

(** A call either returns a value or panics; the state it leaves behind is
    kept in both cases, since a panic does not undo writes. *)
Inductive Result (S A : Type) : Type :=
  | Ok (a : A) (s : S)
  | Panic (p : PanicValue) (s : S).
Arguments Ok {S A} a s.
Arguments Panic {S A} p s.

Definition stateOf {S A : Type} (r : Result S A) : S :=
  match r with Ok _ s => s | Panic _ s => s end.

Record St : Type := { chk : Checker; calls : list Call }.

Definition M (A : Type) : Type := St -> Result St A.

#[global] Instance M_ret : MRet M := fun A a st => Ok a st.
#[global] Instance M_bind : MBind M := fun A B f m st =>
  match m st with
  | Ok a st' => f a st'
  | Panic p st' => Panic p st'
  end.

Definition panic {A : Type} (p : PanicValue) : M A := fun st => Panic p st.

Definition gets {A : Type} (f : Checker -> A) : M A := fun st => Ok (f (chk st)) st.

Definition modify (f : Checker -> Checker) : M unit :=
  fun st => Ok tt {| chk := f (chk st); calls := calls st |}.

(** [defer d] followed by [body]: [d] runs when the rest of the function
    returns and also when it panics; a panic of [d] itself takes over. *)
Definition withDefer {A : Type} (d : M unit) (body : M A) : M A := fun st =>
  match body st with
  | Ok a st' =>
      match d st' with
      | Ok _ st'' => Ok a st''
      | Panic p st'' => Panic p st''
      end
  | Panic p st' =>
      match d st' with
      | Ok _ st'' => Panic p st''
      | Panic p' st'' => Panic p' st''
      end
  end.

Fixpoint forEachM {A : Type} (f : A -> M unit) (l : list A) : M unit :=
  match l with
  | [] => mret tt
  | x :: r => f x;; forEachM f r
  end.

(** A call of a function defined elsewhere. *)
Definition call {A : Type} (c : Call) (h : Checker -> Result Checker A) : M A := fun st =>
  match h (chk st) with
  | Ok a c' => Ok a {| chk := c'; calls := calls st ++ [c] |}
  | Panic p c' => Panic p {| chk := c'; calls := calls st ++ [c] |}
  end.

(** Reads and writes through a pointer; nil (or an address that holds
    nothing) panics. *)
Definition loadInterfaceType (p : Ptr) : M InterfaceType := fun st =>
  match p ≫= (fun a => interfaceTypes (chk st) !! a) with
  | Some t => Ok t st
  | None => Panic NilDereference st
  end.

Definition storeInterfaceType (p : Ptr) (f : InterfaceType -> InterfaceType) : M unit := fun st =>
  match p with
  | Some a =>
      match interfaceTypes (chk st) !! a with
      | Some t => modify (set_interfaceTypes <[a := f t]>) st
      | None => Panic NilDereference st
      end
  | None => Panic NilDereference st
  end.

Definition loadCompositeType (p : Ptr) : M CompositeType := fun st =>
  match p ≫= (fun a => compositeTypes (chk st) !! a) with
  | Some t => Ok t st
  | None => Panic NilDereference st
  end.

Definition storeCompositeType (p : Ptr) (f : CompositeType -> CompositeType) : M unit := fun st =>
  match p with
  | Some a =>
      match compositeTypes (chk st) !! a with
      | Some t => modify (set_compositeTypes <[a := f t]>) st
      | None => Panic NilDereference st
      end
  | None => Panic NilDereference st
  end.

(** [new(InterfaceType)]: an address nothing else holds. *)
Definition newInterfaceType (t : InterfaceType) : M positive := fun st =>
  let a := fresh (dom (interfaceTypes (chk st))) in
  Ok a {| chk := set_interfaceTypes <[a := t]> (chk st); calls := calls st |}.

(** ** Functions defined outside the checked files *)

Record Helpers : Type := {
  checkDeclarationAccessModifier :
    Access -> DeclarationKind -> Position -> bool -> bool -> Checker -> Result Checker unit;
  checkFieldsAccessModifier : list FieldDeclaration -> Checker -> Result Checker unit;
  checkNestedIdentifiers :
    list FieldDeclaration -> list FunctionDeclaration ->
    list InterfaceDeclaration -> list CompositeDeclaration -> Checker -> Result Checker unit;
  membersAndOrigins :
    Ptr -> list FieldDeclaration -> list FunctionDeclaration -> bool ->
    Checker -> Result Checker (gmap string Member * Origins);
  initializerParameterTypeAnnotations :
    list SpecialFunctionDeclaration -> Checker -> Result Checker (list TypeAnnotation);
  checkInitializers :
    list SpecialFunctionDeclaration -> list FieldDeclaration -> Ptr -> DeclarationKind ->
    string -> list TypeAnnotation -> ContainerKind -> option InitializationInfo ->
    Checker -> Result Checker unit;
  checkDestructors :
    list SpecialFunctionDeclaration -> gmap string FieldDeclaration -> gmap string Member ->
    Ptr -> DeclarationKind -> string -> ContainerKind -> Checker -> Result Checker unit;
  checkUnknownSpecialFunctions : list SpecialFunctionDeclaration -> Checker -> Result Checker unit;
  enterValueScope : Checker -> Result Checker unit;
  leaveValueScope : bool -> Checker -> Result Checker unit;
  declareSelfValue : Ptr -> Checker -> Result Checker unit;
  visitFunctionDeclaration :
    FunctionDeclaration -> functionDeclarationOptions -> Checker -> Result Checker unit;
  checkResourceFieldNesting :
    gmap string FieldDeclaration -> gmap string Member -> CompositeKind ->
    Checker -> Result Checker unit;
  checkCompositeDeclarationSupport :
    CompositeKind -> DeclarationKind -> Identifier -> Checker -> Result Checker unit;
  recordVariableDeclarationOccurrence : string -> Variable_ -> Checker -> Result Checker unit;
  visitNestedDeclarations :
    CompositeKind -> DeclarationKind -> list CompositeDeclaration -> list InterfaceDeclaration ->
    Checker -> Result Checker (gmap string Declaration * list Ptr * list Ptr);
  (* methods of [ast.Members] *)
  Initializers : Members_ -> list SpecialFunctionDeclaration;
  Destructors : Members_ -> list SpecialFunctionDeclaration;
  FieldsByIdentifier : Members_ -> gmap string FieldDeclaration
}.

(** Modelled from the spec: [checker.report] is defined outside the checked
    files; a diagnostic goes to an accumulating sink and checking continues.
    A nil error is not recorded. *)
Definition report (err : option error) : M unit :=
  match err with
  | None => mret tt
  | Some e => modify (set_errors (fun es => es ++ [e]))
  end.

(** Modelled from the spec: the scope stack ([typeActivations],
    [valueActivations]) is defined outside the checked files.  It is a stack of
    layers; [Enter] pushes a fresh layer and [Leave] pops it. *)
Definition Enter (a : list (gmap string Variable_)) : list (gmap string Variable_) := ∅ :: a.

Definition Leave (a : list (gmap string Variable_)) : list (gmap string Variable_) := tail a.

Definition currentLayer (a : list (gmap string Variable_)) : gmap string Variable_ :=
  default ∅ (head a).

(** Modelled from the spec: [DeclareType] registers the identifier in the
    current layer of the type namespace and answers a collision diagnostic,
    made from the declaration's kind and access, when the layer already holds
    that identifier.  The diagnostic is returned, not raised. *)
Definition DeclareType (identifier : Identifier) (ty : Ty) (declarationKind : DeclarationKind)
    (access : Access) : M (Variable_ * option error) := fun st =>
  let a := typeActivations (chk st) in
  let name := id_Identifier identifier in
  let variable :=
    {| var_Identifier := name; var_Type := ty; var_DeclarationKind := declarationKind;
       var_Access := access; var_Pos := id_Pos identifier |} in
  let err :=
    match currentLayer a !! name with
    | Some _ => Some (RedeclarationError declarationKind name (id_Pos identifier) access)
    | None => None
    end in
  Ok (variable, err)
     {| chk := set_typeActivations (fun _ => <[name := variable]> (currentLayer a) :: tail a) (chk st);
        calls := calls st |}.

(** ** The checked functions *)

Section Checking.

Variable helpers : Helpers.

(** The order in which [range] walks a Go map is not fixed; [rangeOrder]
    stands for the order of one run. *)
Variable rangeOrder : gmap string Ty -> list (string * Ty).

Definition checkInterfaceSpecialFunctionBlock (block : FunctionBlock)
    (containerKind implementedKind : DeclarationKind) : M unit :=
  match Statements block with
  | first :: _ =>
      report (Some (InvalidImplementationError (StartPosition first) containerKind implementedKind))
  | [] =>
      if bool_decide (length (PreConditions block) = 0) &&
         bool_decide (length (PostConditions block) = 0)
      then report (Some (InvalidImplementationError (fb_StartPos block) containerKind implementedKind))
      else mret tt
  end.

(** The body of the loop of [checkInterfaceFunctions]: the closure called for
    one function. *)
Definition checkInterfaceFunction (interfaceType : Ptr) (declarationKind : DeclarationKind)
    (inResource : bool) (function : FunctionDeclaration) : M unit :=
  call CallEnterValueScope (enterValueScope helpers);;
  withDefer (call CallLeaveValueScope (leaveValueScope helpers false))
    (call (CallDeclareSelfValue interfaceType) (declareSelfValue helpers interfaceType);;
     call (CallVisitFunctionDeclaration function)
       (visitFunctionDeclaration helpers function
          {| mustExit := false; declareFunction := false; checkResourceLoss := false;
             allowAuthAccessModifier := inResource |});;
     match FunctionBlock_ function with
     | Some block =>
         checkInterfaceSpecialFunctionBlock block declarationKind DeclarationKindFunction
     | None => mret tt
     end).

Definition checkInterfaceFunctions (functions : list FunctionDeclaration) (interfaceType : Ptr)
    (declarationKind : DeclarationKind) : M unit :=
  it ← loadInterfaceType interfaceType;
  let inResource := bool_decide (it_CompositeKind it = CompositeKindResource) in
  forEachM (checkInterfaceFunction interfaceType declarationKind inResource) functions.

(** The body of the loop "Declare nested types" of
    [VisitInterfaceDeclaration], for one entry of [interfaceType.NestedTypes]. *)
Definition declareNestedType (declaration : InterfaceDeclaration) (entry : string * Ty) : M unit :=
  nestedDeclaration ← gets (fun c =>
    InterfaceNestedDeclarations c !! decl_addr declaration ≫= (fun m => m !! entry.1));
  match nestedDeclaration with
  | None => panic NilDereference
  | Some nestedDeclaration =>
      match DeclarationIdentifier nestedDeclaration with
      | None => panic (PanicError UnreachableError)
      | Some identifier =>
          r ← DeclareType identifier entry.2
                (DeclarationKind_ nestedDeclaration) (DeclarationAccess nestedDeclaration);
          report r.2
      end
  end.

Definition VisitInterfaceDeclaration (declaration : InterfaceDeclaration) : M unit :=
  interfaceType ← gets (fun c => InterfaceDeclarationTypes c !! decl_addr declaration);
  modify (set_containerTypes <[InterfaceTy interfaceType := true]>);;
  withDefer (modify (set_containerTypes <[InterfaceTy interfaceType := false]>))
   (call CallCheckDeclarationAccessModifier
      (checkDeclarationAccessModifier helpers (decl_Access declaration)
         (decl_DeclarationKind declaration) (decl_StartPos declaration) true false);;
    call CallCheckFieldsAccessModifier
      (checkFieldsAccessModifier helpers (Fields (decl_Members declaration)));;
    call CallCheckNestedIdentifiers
      (checkNestedIdentifiers helpers (Fields (decl_Members declaration))
         (Functions (decl_Members declaration)) (decl_InterfaceDeclarations declaration)
         (decl_CompositeDeclarations declaration));;
    modify (set_typeActivations Enter);;
    withDefer (modify (set_typeActivations Leave))
     (it ← loadInterfaceType interfaceType;
      forEachM (declareNestedType declaration) (rangeOrder (it_NestedTypes it));;
      mo ← call (CallMembersAndOrigins interfaceType)
             (membersAndOrigins helpers interfaceType (Fields (decl_Members declaration))
                (Functions (decl_Members declaration)) false);
      storeInterfaceType interfaceType (set_it_Members mo.1);;
      annotations ← call CallInitializerParameterTypeAnnotations
             (initializerParameterTypeAnnotations helpers
                (Initializers helpers (decl_Members declaration)));
      storeInterfaceType interfaceType (set_it_InitializerParameterTypeAnnotations annotations);;
      modify (set_memberOrigins <[InterfaceTy interfaceType := mo.2]>);;
      it ← loadInterfaceType interfaceType;
      call (CallCheckInitializers interfaceType)
        (checkInitializers helpers (Initializers helpers (decl_Members declaration))
           (Fields (decl_Members declaration)) interfaceType
           (decl_DeclarationKind declaration) (id_Identifier (decl_Identifier declaration))
           (it_InitializerParameterTypeAnnotations it) ContainerKindInterface None);;
      it ← loadInterfaceType interfaceType;
      call (CallCheckDestructors interfaceType (decl_DeclarationKind declaration))
        (checkDestructors helpers (Destructors helpers (decl_Members declaration))
           (FieldsByIdentifier helpers (decl_Members declaration)) (it_Members it) interfaceType
           (decl_DeclarationKind declaration) (id_Identifier (decl_Identifier declaration))
           ContainerKindInterface);;
      call CallCheckUnknownSpecialFunctions
        (checkUnknownSpecialFunctions helpers (SpecialFunctions (decl_Members declaration)));;
      checkInterfaceFunctions (Functions (decl_Members declaration)) interfaceType
        (decl_DeclarationKind declaration);;
      it ← loadInterfaceType interfaceType;
      call CallCheckResourceFieldNesting
        (checkResourceFieldNesting helpers (FieldsByIdentifier helpers (decl_Members declaration))
           (it_Members it) (it_CompositeKind it));;
      call CallCheckCompositeDeclarationSupport
        (checkCompositeDeclarationSupport helpers (decl_CompositeKind declaration)
           (decl_DeclarationKind declaration) (decl_Identifier declaration)))).

(** The two loops at the end of the closure of [declareInterfaceDeclaration]. *)
Definition attachNestedInterfaceType (interfaceType nestedInterfaceType : Ptr) : M unit :=
  nested ← loadInterfaceType nestedInterfaceType;
  it ← loadInterfaceType interfaceType;
  storeInterfaceType interfaceType
    (set_it_NestedTypes (<[it_Identifier nested := InterfaceTy nestedInterfaceType]> (it_NestedTypes it)));;
  storeInterfaceType nestedInterfaceType (set_it_ContainerType (Some (InterfaceTy interfaceType))).

Definition attachNestedCompositeType (interfaceType nestedCompositeType : Ptr) : M unit :=
  nested ← loadCompositeType nestedCompositeType;
  it ← loadInterfaceType interfaceType;
  storeInterfaceType interfaceType
    (set_it_NestedTypes (<[ct_Identifier nested := CompositeTy nestedCompositeType]> (it_NestedTypes it)));;
  storeCompositeType nestedCompositeType (set_ct_ContainerType (Some (InterfaceTy interfaceType))).

Definition declareInterfaceDeclaration (declaration : InterfaceDeclaration) : M Ptr :=
  let identifier := decl_Identifier declaration in
  location ← gets chk_Location;
  a ← newInterfaceType
    {| it_Location := location;
       it_Identifier := id_Identifier identifier;
       it_CompositeKind := decl_CompositeKind declaration;
       it_NestedTypes := ∅;
       it_Members := ∅;
       it_InitializerParameterTypeAnnotations := [];
       it_ContainerType := None |};
  let interfaceType : Ptr := Some a in
  r ← DeclareType identifier (InterfaceTy interfaceType)
        (decl_DeclarationKind declaration) (decl_Access declaration);
  report r.2;;
  call CallRecordVariableDeclarationOccurrence
    (recordVariableDeclarationOccurrence helpers (id_Identifier identifier) r.1);;
  (modify (set_typeActivations Enter);;
   withDefer (modify (set_typeActivations Leave))
    (modify (set_valueActivations Enter);;
     withDefer (modify (set_valueActivations Leave))
      (nested ← call CallVisitNestedDeclarations
                  (visitNestedDeclarations helpers (decl_CompositeKind declaration)
                     (decl_DeclarationKind declaration) (decl_CompositeDeclarations declaration)
                     (decl_InterfaceDeclarations declaration));
       modify (set_InterfaceNestedDeclarations <[decl_addr declaration := nested.1.1]>);;
       forEachM (attachNestedInterfaceType interfaceType) nested.1.2;;
       forEachM (attachNestedCompositeType interfaceType) nested.2)));;
  modify (set_InterfaceDeclarationTypes <[decl_addr declaration := a]>);;
  mret interfaceType.

End Checking.

(** ** The helpers as the spec describes them *)

(** The two scope stacks a check resolves names against. *)
Definition Scopes : Type := (list (gmap string Variable_) * list (gmap string Variable_))%type.

Definition scopesOf (c : Checker) : Scopes := (typeActivations c, valueActivations c).

(** Modelled from the spec: the checks that [VisitInterfaceDeclaration] calls
    are defined outside the checked files.  The spec describes each of them
    as a validation: it looks at its arguments, resolves names against the
    scope stacks (and, once the members are set, reads the types), reports
    every violation to the sink and goes on.  What a rule objects to is left
    open: [Rules] holds one function per check, and the three methods of
    [ast.Members]. *)
Record Rules : Type := {
  accessRule : Access -> DeclarationKind -> Position -> bool -> bool -> list error;
  fieldAccessRule : list FieldDeclaration -> list error;
  nestedIdentifierRule :
    list FieldDeclaration -> list FunctionDeclaration ->
    list InterfaceDeclaration -> list CompositeDeclaration -> list error;
  memberRule :
    Ptr -> list FieldDeclaration -> list FunctionDeclaration -> bool -> Scopes ->
    (gmap string Member * Origins) * list error;
  initializerAnnotationRule :
    list SpecialFunctionDeclaration -> Scopes -> list TypeAnnotation * list error;
  initializerRule :
    list SpecialFunctionDeclaration -> list FieldDeclaration -> Ptr -> DeclarationKind ->
    string -> list TypeAnnotation -> ContainerKind -> option InitializationInfo ->
    Scopes -> gmap positive InterfaceType -> list error;
  destructorRule :
    list SpecialFunctionDeclaration -> gmap string FieldDeclaration -> gmap string Member ->
    Ptr -> DeclarationKind -> string -> ContainerKind ->
    Scopes -> gmap positive InterfaceType -> list error;
  unknownSpecialFunctionRule : list SpecialFunctionDeclaration -> list error;
  functionRule :
    FunctionDeclaration -> functionDeclarationOptions ->
    Scopes -> gmap positive InterfaceType -> list error;
  resourceFieldNestingRule :
    gmap string FieldDeclaration -> gmap string Member -> CompositeKind -> list error;
  compositeSupportRule : CompositeKind -> DeclarationKind -> Identifier -> list error;
  initializersOf : Members_ -> list SpecialFunctionDeclaration;
  destructorsOf : Members_ -> list SpecialFunctionDeclaration;
  fieldsByIdentifierOf : Members_ -> gmap string FieldDeclaration
}.

(** Reporting a list of violations, in order. *)
Definition reportAll {A : Type} (a : A) (violations : list error) (c : Checker)
    : Result Checker A :=
  Ok a (set_errors (fun es => es ++ violations) c).

(** Modelled from the spec: the receiver bound in the value scope of an
    interface function, bound to the interface type. *)
Definition selfVariable (interfaceType : Ptr) : Variable_ :=
  {| var_Identifier := "self";
     var_Type := InterfaceTy interfaceType;
     var_DeclarationKind := DeclarationKindSelf;
     var_Access := AccessPublic;
     var_Pos := {| Offset := 0; Line := 0; Column := 0 |} |}.

(** Modelled from the spec: each check of phase 2 reports what its rule
    objects to and changes nothing else; opening a value scope pushes a layer,
    declaring the receiver binds [self] in it, leaving the scope pops it.  The
    two helpers of phase 1 are not validations; they are taken from [phase1]
    as they are. *)
Definition validatingHelpers (rules : Rules) (phase1 : Helpers) : Helpers := {|
  checkDeclarationAccessModifier := fun access kind pos isTypeDeclaration isInterfaceMember =>
    reportAll tt (accessRule rules access kind pos isTypeDeclaration isInterfaceMember);
  checkFieldsAccessModifier := fun fields => reportAll tt (fieldAccessRule rules fields);
  checkNestedIdentifiers := fun fields functions interfaces composites =>
    reportAll tt (nestedIdentifierRule rules fields functions interfaces composites);
  membersAndOrigins := fun interfaceType fields functions requireVariableKind c =>
    let r := memberRule rules interfaceType fields functions requireVariableKind (scopesOf c) in
    reportAll r.1 r.2 c;
  initializerParameterTypeAnnotations := fun initializers c =>
    let r := initializerAnnotationRule rules initializers (scopesOf c) in
    reportAll r.1 r.2 c;
  checkInitializers := fun initializers fields interfaceType kind identifier annotations
                           containerKind info c =>
    reportAll tt
      (initializerRule rules initializers fields interfaceType kind identifier annotations
         containerKind info (scopesOf c) (interfaceTypes c)) c;
  checkDestructors := fun destructors fields members interfaceType kind identifier
                          containerKind c =>
    reportAll tt
      (destructorRule rules destructors fields members interfaceType kind identifier
         containerKind (scopesOf c) (interfaceTypes c)) c;
  checkUnknownSpecialFunctions := fun functions =>
    reportAll tt (unknownSpecialFunctionRule rules functions);
  enterValueScope := fun c => Ok tt (set_valueActivations Enter c);
  leaveValueScope := fun _ c => Ok tt (set_valueActivations Leave c);
  declareSelfValue := fun interfaceType c =>
    Ok tt (set_valueActivations
             (fun a => <["self" := selfVariable interfaceType]> (currentLayer a) :: tail a) c);
  visitFunctionDeclaration := fun function options c =>
    reportAll tt (functionRule rules function options (scopesOf c) (interfaceTypes c)) c;
  checkResourceFieldNesting := fun fields members kind =>
    reportAll tt (resourceFieldNestingRule rules fields members kind);
  checkCompositeDeclarationSupport := fun kind declarationKind identifier =>
    reportAll tt (compositeSupportRule rules kind declarationKind identifier);
  recordVariableDeclarationOccurrence := recordVariableDeclarationOccurrence phase1;
  visitNestedDeclarations := visitNestedDeclarations phase1;
  Initializers := initializersOf rules;
  Destructors := destructorsOf rules;
  FieldsByIdentifier := fieldsByIdentifierOf rules
|}.

End Model.

Arguments Ok {_ S A} a s.
Arguments Panic {_ S A} p s.

End Sema.

(** ** Observations and conditions used to state the properties *)

Module SemaProperties.

Import Sema.

Section Properties.

Context `{Foreign}.

(** [obs] reads a list off the state (the call log, or some of the
    diagnostics).  [adds obs m l]: every run of [m] that returns has appended
    [l]; [keeps obs m]: no run of [m], returning or panicking, changes the
    list. *)
Definition adds {X A : Type} (obs : St -> list X) (m : M A) (l : list X) : Prop :=
  ∀ st a st', m st = Ok a st' → obs st' = obs st ++ l.

Definition keeps {X A : Type} (obs : St -> list X) (m : M A) : Prop :=
  ∀ st, obs (stateOf (m st)) = obs st.

Definition isInvalidImplementation (e : error) : bool :=
  match e with InvalidImplementationError _ _ _ => true | _ => false end.

Definition invalidImplementations (c : Checker) : list error :=
  filter isInvalidImplementation (errors c).

(** The interface-function-body rule in the words of the spec: statements
    are an implementation and are reported at the first statement; a body with
    neither statements nor conditions is reported at the start of the block;
    conditions alone are the legal shape.  A function without a block is not
    subject to the rule. *)
Definition blockShapeRule (containerKind implementedKind : DeclarationKind)
    (block : FunctionBlock) : list error :=
  match Statements block, PreConditions block, PostConditions block with
  | first :: _, _, _ =>
      [InvalidImplementationError (StartPosition first) containerKind implementedKind]
  | [], [], [] =>
      [InvalidImplementationError (fb_StartPos block) containerKind implementedKind]
  | [], _, _ => []
  end.

Definition functionBodyRule (containerKind : DeclarationKind) (function : FunctionDeclaration)
    : list error :=
  match FunctionBlock_ function with
  | None => []
  | Some block => blockShapeRule containerKind DeclarationKindFunction block
  end.

(** A helper that neither adds nor removes invalid-implementation
    diagnostics, whether it returns or panics. *)
Definition leavesInvalidImplementations {A : Type} (h : Checker -> Result Checker A) : Prop :=
  ∀ c, invalidImplementations (stateOf (h c)) = invalidImplementations c.

Definition functionHelpersLeaveInvalidImplementations (helpers : Helpers) : Prop :=
  leavesInvalidImplementations (enterValueScope helpers) ∧
  (∀ b, leavesInvalidImplementations (leaveValueScope helpers b)) ∧
  (∀ t, leavesInvalidImplementations (declareSelfValue helpers t)) ∧
  (∀ f o, leavesInvalidImplementations (visitFunctionDeclaration helpers f o)).

Definition isUnreachable (e : error) : bool :=
  match e with UnreachableError => true | _ => false end.

(** The unreachable-errors that went through the diagnostics sink. *)
Definition unreachableDiagnostics (c : Checker) : list error :=
  filter isUnreachable (errors c).

(** A check that returns, and leaves alone the type store, the recorded
    nested declarations and the unreachable-errors in the sink. *)
Definition returnsLeavingDeclarations (h : Checker -> Result Checker unit) : Prop :=
  ∀ c, ∃ c', h c = Ok tt c' ∧
             interfaceTypes c' = interfaceTypes c ∧
             InterfaceNestedDeclarations c' = InterfaceNestedDeclarations c ∧
             unreachableDiagnostics c' = unreachableDiagnostics c.

Definition earlyChecksReturn (helpers : Helpers) : Prop :=
  (∀ access kind pos b1 b2,
     returnsLeavingDeclarations (checkDeclarationAccessModifier helpers access kind pos b1 b2)) ∧
  (∀ fields, returnsLeavingDeclarations (checkFieldsAccessModifier helpers fields)) ∧
  (∀ fields functions interfaces composites,
     returnsLeavingDeclarations
       (checkNestedIdentifiers helpers fields functions interfaces composites)).

(** Reading a type through a [Type] value. *)
Definition interfaceAt (c : Checker) (p : Ptr) : option InterfaceType :=
  p ≫= (fun a => interfaceTypes c !! a).

Definition compositeAt (c : Checker) (p : Ptr) : option CompositeType :=
  p ≫= (fun a => compositeTypes c !! a).

Definition typeIdentifier (c : Checker) (ty : Ty) : option string :=
  match ty with
  | InterfaceTy p => it_Identifier <$> interfaceAt c p
  | CompositeTy p => ct_Identifier <$> compositeAt c p
  end.

Definition typeContainer (c : Checker) (ty : Ty) : option (option Ty) :=
  match ty with
  | InterfaceTy p => it_ContainerType <$> interfaceAt c p
  | CompositeTy p => ct_ContainerType <$> compositeAt c p
  end.

(** The two attaching loops as one, over the nested types in the order in
    which they are attached: interfaces first, then composites. *)
Definition attachNestedType (interfaceType : Ptr) (ty : Ty) : M unit :=
  match ty with
  | InterfaceTy p => attachNestedInterfaceType interfaceType p
  | CompositeTy p => attachNestedCompositeType interfaceType p
  end.

Definition nestedTypesOf (c : Checker) (a : positive) : option (gmap string Ty) :=
  it_NestedTypes <$> interfaceTypes c !! a.

(** What one attachment changes and what it leaves alone. *)
Record attached (a : positive) (ty : Ty) (c c' : Checker) : Prop := {
  attached_identifiers : ∀ ty', typeIdentifier c' ty' = typeIdentifier c ty';
  attached_container : typeContainer c' ty = Some (Some (InterfaceTy (Some a)));
  attached_containers_kept :
    ∀ ty', typeContainer c ty' = Some (Some (InterfaceTy (Some a))) →
           typeContainer c' ty' = Some (Some (InterfaceTy (Some a)));
  attached_nested :
    ∃ k m, typeIdentifier c ty = Some k ∧ nestedTypesOf c a = Some m ∧
           nestedTypesOf c' a = Some (<[k := ty]> m);
  attached_recorded : InterfaceNestedDeclarations c' = InterfaceNestedDeclarations c
}.



(** Every nested type has a recorded declaration, and that declaration is
    recorded under its own identifier: what phase 1 leaves behind. *)
Definition recordedUnderOwnIdentifier (nd : gmap string Declaration) (nested : gmap string Ty)
    : Prop :=
  ∀ name ty, nested !! name = Some ty →
    ∃ decl identifier, nd !! name = Some decl ∧
                       DeclarationIdentifier decl = Some identifier ∧
                       id_Identifier identifier = name.

(** The variable [DeclareType] registers for a nested type. *)
Definition nestedVariable (nd : gmap string Declaration) (name : string) (ty : Ty)
    : option Variable_ :=
  decl ← nd !! name;
  identifier ← DeclarationIdentifier decl;
  Some {| var_Identifier := id_Identifier identifier;
          var_Type := ty;
          var_DeclarationKind := DeclarationKind_ decl;
          var_Access := DeclarationAccess decl;
          var_Pos := id_Pos identifier |}.

(** The scope layer that holds the nested types. *)
Definition nestedLayer (nd : gmap string Declaration) (nested : gmap string Ty)
    : gmap string Variable_ :=
  map_imap (nestedVariable nd) nested.

(** What the spec-modelled helpers make of one function, and of a whole
    declaration: the diagnostics of phase 2, the finalized type and the state
    phase 2 leaves behind, as functions of the state it starts from. *)
Definition functionDiagnostics (rules : Rules) (interfaceType : Ptr) (kind : DeclarationKind)
    (inResource : bool) (scopes : Scopes) (store : gmap positive InterfaceType)
    (function : FunctionDeclaration) : list error :=
  functionRule rules function
    {| mustExit := false; declareFunction := false; checkResourceLoss := false;
       allowAuthAccessModifier := inResource |}
    (scopes.1, <["self" := selfVariable interfaceType]> ∅ :: scopes.2) store ++
  functionBodyRule kind function.

Definition innerScopes (nd : gmap string Declaration) (it : InterfaceType) (scopes : Scopes)
    : Scopes :=
  (nestedLayer nd (it_NestedTypes it) :: scopes.1, scopes.2).

Definition membersFound (rules : Rules) (declaration : InterfaceDeclaration) (a : positive)
    (it : InterfaceType) (nd : gmap string Declaration) (scopes : Scopes)
    : (gmap string Member * Origins) * list error :=
  memberRule rules (Some a) (Fields (decl_Members declaration))
    (Functions (decl_Members declaration)) false (innerScopes nd it scopes).

Definition annotationsFound (rules : Rules) (declaration : InterfaceDeclaration)
    (it : InterfaceType) (nd : gmap string Declaration) (scopes : Scopes)
    : list TypeAnnotation * list error :=
  initializerAnnotationRule rules (initializersOf rules (decl_Members declaration))
    (innerScopes nd it scopes).

Definition finalizedType (rules : Rules) (declaration : InterfaceDeclaration) (a : positive)
    (it : InterfaceType) (nd : gmap string Declaration) (scopes : Scopes) : InterfaceType :=
  set_it_InitializerParameterTypeAnnotations (annotationsFound rules declaration it nd scopes).1
    (set_it_Members (membersFound rules declaration a it nd scopes).1.1 it).

Definition phase2Diagnostics (rules : Rules) (declaration : InterfaceDeclaration) (a : positive)
    (it : InterfaceType) (nd : gmap string Declaration) (scopes : Scopes)
    (store : gmap positive InterfaceType) : list error :=
  let members := decl_Members declaration in
  let kind := decl_DeclarationKind declaration in
  let name := id_Identifier (decl_Identifier declaration) in
  let inner := innerScopes nd it scopes in
  let mo := membersFound rules declaration a it nd scopes in
  let an := annotationsFound rules declaration it nd scopes in
  let store' := <[a := finalizedType rules declaration a it nd scopes]> store in
  accessRule rules (decl_Access declaration) kind (decl_StartPos declaration) true false ++
  fieldAccessRule rules (Fields members) ++
  nestedIdentifierRule rules (Fields members) (Functions members)
    (decl_InterfaceDeclarations declaration) (decl_CompositeDeclarations declaration) ++
  mo.2 ++
  an.2 ++
  initializerRule rules (initializersOf rules members) (Fields members) (Some a) kind name
    an.1 ContainerKindInterface None inner store' ++
  destructorRule rules (destructorsOf rules members) (fieldsByIdentifierOf rules members)
    mo.1.1 (Some a) kind name ContainerKindInterface inner store' ++
  unknownSpecialFunctionRule rules (SpecialFunctions members) ++
  concat (functionDiagnostics rules (Some a) kind
            (bool_decide (it_CompositeKind it = CompositeKindResource)) inner store'
            <$> Functions members) ++
  resourceFieldNestingRule rules (fieldsByIdentifierOf rules members) mo.1.1
    (it_CompositeKind it) ++
  compositeSupportRule rules (decl_CompositeKind declaration) kind (decl_Identifier declaration).

Definition phase2State (rules : Rules) (declaration : InterfaceDeclaration) (a : positive)
    (it : InterfaceType) (nd : gmap string Declaration) (c : Checker) : Checker :=
  {| chk_Location := chk_Location c;
     errors := errors c ++
               phase2Diagnostics rules declaration a it nd (scopesOf c) (interfaceTypes c);
     containerTypes :=
       <[InterfaceTy (Some a) := false]> (<[InterfaceTy (Some a) := true]> (containerTypes c));
     typeActivations := typeActivations c;
     valueActivations := valueActivations c;
     InterfaceDeclarationTypes := InterfaceDeclarationTypes c;
     InterfaceNestedDeclarations := InterfaceNestedDeclarations c;
     memberOrigins :=
       <[InterfaceTy (Some a) := (membersFound rules declaration a it nd (scopesOf c)).1.2]>
         (memberOrigins c);
     interfaceTypes :=
       <[a := finalizedType rules declaration a it nd (scopesOf c)]> (interfaceTypes c);
     compositeTypes := compositeTypes c;
     chk_rest := chk_rest c |}.

Definition functionCalls (interfaceType : Ptr) (function : FunctionDeclaration) : list Call :=
  [CallEnterValueScope; CallDeclareSelfValue interfaceType;
   CallVisitFunctionDeclaration function; CallLeaveValueScope].

End Properties.

End SemaProperties.

(** ** Concrete inputs *)

Module SemaExamples.

Import Sema.

(** Every type the checker only passes along is the unit type here. *)
Definition unitForeign : Foreign := {|
  Location := unit;
  FieldDeclaration := unit;
  SpecialFunctionDeclaration := unit;
  CompositeDeclaration := unit;
  FunctionSignature := unit;
  StatementBody := unit;
  Condition := unit;
  Member := unit;
  Origins := unit;
  TypeAnnotation := unit;
  InitializationInfo := unit;
  CompositeTypeRest := unit;
  ForeignError := unit;
  CheckerRest := unit
|}.

#[local] Existing Instance unitForeign.

Definition returns {A : Type} (a : A) : Checker -> Result Checker A := fun c => Ok a c.

(** Helpers that accept everything: each check returns without a diagnostic,
    there are no members and no nested declarations. *)
Definition acceptingHelpers : Helpers := {|
  checkDeclarationAccessModifier := fun _ _ _ _ _ => returns tt;
  checkFieldsAccessModifier := fun _ => returns tt;
  checkNestedIdentifiers := fun _ _ _ _ => returns tt;
  membersAndOrigins := fun _ _ _ _ => returns (∅, tt);
  initializerParameterTypeAnnotations := fun _ => returns [];
  checkInitializers := fun _ _ _ _ _ _ _ _ => returns tt;
  checkDestructors := fun _ _ _ _ _ _ _ => returns tt;
  checkUnknownSpecialFunctions := fun _ => returns tt;
  enterValueScope := returns tt;
  leaveValueScope := fun _ => returns tt;
  declareSelfValue := fun _ => returns tt;
  visitFunctionDeclaration := fun _ _ => returns tt;
  checkResourceFieldNesting := fun _ _ _ => returns tt;
  checkCompositeDeclarationSupport := fun _ _ _ => returns tt;
  recordVariableDeclarationOccurrence := fun _ _ => returns tt;
  visitNestedDeclarations := fun _ _ _ _ => returns (∅, [], []);
  Initializers := fun _ => [];
  Destructors := fun _ => [];
  FieldsByIdentifier := fun _ => ∅
|}.

(** A checker that has not seen anything yet, with one scope layer. *)
Definition freshChecker : Checker := {|
  chk_Location := tt;
  errors := [];
  containerTypes := ∅;
  typeActivations := [∅];
  valueActivations := [∅];
  InterfaceDeclarationTypes := ∅;
  InterfaceNestedDeclarations := ∅;
  memberOrigins := ∅;
  interfaceTypes := ∅;
  compositeTypes := ∅;
  chk_rest := tt
|}.

Definition freshState : St := {| chk := freshChecker; calls := [] |}.

Definition at_ (line column : Z) : Position := {| Offset := 0; Line := line; Column := column |}.

Definition noMembers : Members_ := {| Fields := []; Functions := []; SpecialFunctions := [] |}.

Definition interfaceNamed (addr : positive) (kind : CompositeKind) (declKind : DeclarationKind)
    (name : string) (line : Z) (members : Members_) (nested : list InterfaceDeclaration)
    : InterfaceDeclaration :=
  {| decl_addr := addr;
     decl_Access := AccessPublic;
     decl_CompositeKind := kind;
     decl_Identifier := {| id_Identifier := name; id_Pos := at_ line 10 |};
     decl_Members := members;
     decl_CompositeDeclarations := [];
     decl_InterfaceDeclarations := nested;
     decl_StartPos := at_ line 0;
     decl_DeclarationKind := declKind |}.

(** Function blocks of the three shapes. *)
Definition blockWithStatement : FunctionBlock :=
  {| Statements := [ {| StartPosition := at_ 3 4; stmt_body := tt |};
                     {| StartPosition := at_ 4 4; stmt_body := tt |} ];
     PreConditions := [tt]; PostConditions := []; fb_StartPos := at_ 2 20 |}.

Definition blockEmpty : FunctionBlock :=
  {| Statements := []; PreConditions := []; PostConditions := []; fb_StartPos := at_ 2 20 |}.

Definition blockConditionsOnly : FunctionBlock :=
  {| Statements := []; PreConditions := []; PostConditions := [tt]; fb_StartPos := at_ 2 20 |}.

Definition functionWith (block : option FunctionBlock) : FunctionDeclaration :=
  {| FunctionBlock_ := block; fn_signature := tt |}.

(** [struct interface S {}] *)
Definition structInterface : InterfaceDeclaration :=
  interfaceNamed 1 CompositeKindStructure DeclarationKindStructureInterface "S" 1 noMembers [].

(** The state after phase 1 of [structInterface]. *)
Definition structInterfaceDeclared : St :=
  stateOf (declareInterfaceDeclaration acceptingHelpers structInterface freshState).

(** A second [struct interface S {}], a sibling of the first. *)
Definition structInterfaceAgain : InterfaceDeclaration :=
  interfaceNamed 2 CompositeKindStructure DeclarationKindStructureInterface "S" 5 noMembers [].

(** Three functions: one without a block, one with conditions only, one with
    statements. *)
Definition threeFunctions : list FunctionDeclaration :=
  [functionWith None; functionWith (Some blockConditionsOnly); functionWith (Some blockWithStatement)].

(** A nested interface declaration seen through [ast.Declaration]. *)
Definition asDeclaration (d : InterfaceDeclaration) : Declaration :=
  {| DeclarationIdentifier := Some (decl_Identifier d);
     DeclarationKind_ := decl_DeclarationKind d;
     DeclarationAccess := decl_Access d |}.

(** Modelled from the spec: [visitNestedDeclarations] is defined outside the
    checked files.  For nested interface declarations that have no nested
    declarations of their own, phase 1 runs for each in turn, the produced
    types are returned in that order, and each declaration is recorded under
    its identifier (the first one when identifiers repeat). *)
Fixpoint declareNestedInterfaces (ds : list InterfaceDeclaration)
    : M (gmap string Declaration * list Ptr) :=
  match ds with
  | [] => mret (∅, [])
  | d :: r =>
      t ← declareInterfaceDeclaration acceptingHelpers d;
      rest ← declareNestedInterfaces r;
      mret (<[id_Identifier (decl_Identifier d) := asDeclaration d]> rest.1, t :: rest.2)
  end.

(** A computation run as a helper: its calls are not logged. *)
Definition withoutLog {A : Type} (m : M A) (c : Checker) : Result Checker A :=
  match m {| chk := c; calls := [] |} with
  | Ok a s => Ok a (chk s)
  | Panic p s => Panic p (chk s)
  end.

(** The accepting helpers, with [visitNestedDeclarations] declaring the nested
    interfaces as above. *)
Definition nestingHelpers : Helpers := {|
  checkDeclarationAccessModifier := checkDeclarationAccessModifier acceptingHelpers;
  checkFieldsAccessModifier := checkFieldsAccessModifier acceptingHelpers;
  checkNestedIdentifiers := checkNestedIdentifiers acceptingHelpers;
  membersAndOrigins := membersAndOrigins acceptingHelpers;
  initializerParameterTypeAnnotations := initializerParameterTypeAnnotations acceptingHelpers;
  checkInitializers := checkInitializers acceptingHelpers;
  checkDestructors := checkDestructors acceptingHelpers;
  checkUnknownSpecialFunctions := checkUnknownSpecialFunctions acceptingHelpers;
  enterValueScope := enterValueScope acceptingHelpers;
  leaveValueScope := leaveValueScope acceptingHelpers;
  declareSelfValue := declareSelfValue acceptingHelpers;
  visitFunctionDeclaration := visitFunctionDeclaration acceptingHelpers;
  checkResourceFieldNesting := checkResourceFieldNesting acceptingHelpers;
  checkCompositeDeclarationSupport := checkCompositeDeclarationSupport acceptingHelpers;
  recordVariableDeclarationOccurrence := recordVariableDeclarationOccurrence acceptingHelpers;
  visitNestedDeclarations := fun _ _ _ interfaces =>
    withoutLog (nested ← declareNestedInterfaces interfaces; mret (nested.1, nested.2, []));
  Initializers := Initializers acceptingHelpers;
  Destructors := Destructors acceptingHelpers;
  FieldsByIdentifier := FieldsByIdentifier acceptingHelpers
|}.

Definition nestedInterface (addr : positive) (name : string) (line : Z) : InterfaceDeclaration :=
  interfaceNamed addr CompositeKindResource DeclarationKindResourceInterface name line noMembers [].

(** [contract interface C { resource interface A {}  resource interface B {} }] *)
Definition contractWithTwoNested : InterfaceDeclaration :=
  interfaceNamed 10 CompositeKindContract DeclarationKindContractInterface "C" 1 noMembers
    [nestedInterface 11 "A" 2; nestedInterface 12 "B" 3].

(** [contract interface C { resource interface N {}  resource interface N {} }] *)
Definition contractWithDuplicateNested : InterfaceDeclaration :=
  interfaceNamed 10 CompositeKindContract DeclarationKindContractInterface "C" 1 noMembers
    [nestedInterface 11 "N" 2; nestedInterface 12 "N" 3].

(** A checker in which the declaration at address 1 has the interface type at
    address 1, that type has a nested type [N], and the declaration recorded
    for [N] has no identifier. *)
Definition unidentifiedNested : Declaration :=
  {| DeclarationIdentifier := None;
     DeclarationKind_ := DeclarationKindResourceInterface;
     DeclarationAccess := AccessPublic |}.

Definition typeWithNested : InterfaceType :=
  {| it_Location := tt;
     it_Identifier := "S";
     it_CompositeKind := CompositeKindStructure;
     it_NestedTypes := {["N" := InterfaceTy (Some 2%positive)]};
     it_Members := ∅;
     it_InitializerParameterTypeAnnotations := [];
     it_ContainerType := None |}.

Definition faultyState : St :=
  {| chk :=
       {| chk_Location := tt;
          errors := [];
          containerTypes := ∅;
          typeActivations := [∅];
          valueActivations := [∅];
          InterfaceDeclarationTypes := {[1%positive := 1%positive]};
          InterfaceNestedDeclarations := {[1%positive := {["N" := unidentifiedNested]}]};
          memberOrigins := ∅;
          interfaceTypes := {[1%positive := typeWithNested]};
          compositeTypes := ∅;
          chk_rest := tt |};
     calls := [] |}.

(** Rules for the spec-modelled helpers: every declaration has one member
    [f]; a signature is objected to when the type scope has no layer; nothing
    else is objected to. *)
Definition sampleRules : Rules := {|
  accessRule := fun _ _ _ _ _ => [];
  fieldAccessRule := fun _ => [];
  nestedIdentifierRule := fun _ _ _ _ => [];
  memberRule := fun _ _ _ _ _ => (({["f" := tt]}, tt), []);
  initializerAnnotationRule := fun _ _ => ([tt], []);
  initializerRule := fun _ _ _ _ _ _ _ _ _ _ => [];
  destructorRule := fun _ _ _ _ _ _ _ _ _ => [];
  unknownSpecialFunctionRule := fun _ => [];
  functionRule := fun _ _ scopes _ =>
    match scopes.1 with
    | [] => [OtherError tt]
    | _ :: _ => []
    end;
  resourceFieldNestingRule := fun _ _ _ => [];
  compositeSupportRule := fun _ _ _ => [];
  initializersOf := fun _ => [];
  destructorsOf := fun _ => [];
  fieldsByIdentifierOf := fun _ => ∅
|}.

(** [contract interface C { fun ...; fun ...; fun ...
      resource interface A {}  resource interface B {} }],
    and the state after its phase 1. *)
Definition contractWithFunctions : InterfaceDeclaration :=
  interfaceNamed 10 CompositeKindContract DeclarationKindContractInterface "C" 1
    {| Fields := []; Functions := threeFunctions; SpecialFunctions := [] |}
    [nestedInterface 11 "A" 2; nestedInterface 12 "B" 3].

Definition contractDeclared : St :=
  stateOf (declareInterfaceDeclaration nestingHelpers contractWithFunctions freshState).

(** The nested types, walked back to front. *)
Definition backwards (m : gmap string Ty) : list (string * Ty) := reverse (map_to_list m).

(** What phase 1 has left for [contractWithFunctions]: its interface type (at
    address 1) and its recorded nested declarations. *)
Definition contractType : InterfaceType :=
  {| it_Location := tt;
     it_Identifier := "C";
     it_CompositeKind := CompositeKindContract;
     it_NestedTypes :=
       <["A" := InterfaceTy (Some 2%positive)]> {["B" := InterfaceTy (Some 3%positive)]};
     it_Members := ∅;
     it_InitializerParameterTypeAnnotations := [];
     it_ContainerType := None |}.

Definition contractNested : gmap string Declaration :=
  <["A" := asDeclaration (nestedInterface 11 "A" 2)]>
    {["B" := asDeclaration (nestedInterface 12 "B" 3)]}.

End SemaExamples.

(** ** Order of calls, faults and writes of the two phases *)

Module SemaSequence.

Import Sema SemaProperties.

Section Sequence.

Context `{Foreign}.

(** A helper that returns, whatever state it is called in. *)
Definition returnsNormally {A : Type} (h : Checker -> Result Checker A) : Prop :=
  ∀ c, ∃ a c', h c = Ok a c'.

(** The three checks that open phase 2, in the order of the source. *)
Definition earlyCalls : list Call :=
  [CallCheckDeclarationAccessModifier; CallCheckFieldsAccessModifier; CallCheckNestedIdentifiers].

Definition earlyChecksComplete (helpers : Helpers) : Prop :=
  (∀ access kind pos b1 b2,
     returnsNormally (checkDeclarationAccessModifier helpers access kind pos b1 b2)) ∧
  (∀ fields, returnsNormally (checkFieldsAccessModifier helpers fields)) ∧
  (∀ fields functions interfaces composites,
     returnsNormally (checkNestedIdentifiers helpers fields functions interfaces composites)).

(** The calls of phase 2 between the nested types and the functions, and the
    two that close it. *)
Definition memberCalls (interfaceType : Ptr) (kind : DeclarationKind) : list Call :=
  [CallMembersAndOrigins interfaceType; CallInitializerParameterTypeAnnotations;
   CallCheckInitializers interfaceType; CallCheckDestructors interfaceType kind;
   CallCheckUnknownSpecialFunctions].

Definition closingCalls : list Call :=
  [CallCheckResourceFieldNesting; CallCheckCompositeDeclarationSupport].

Definition phase2Calls (interfaceType : Ptr) (declaration : InterfaceDeclaration) : list Call :=
  earlyCalls ++
  memberCalls interfaceType (decl_DeclarationKind declaration) ++
  concat (functionCalls interfaceType <$> Functions (decl_Members declaration)) ++
  closingCalls.

(** The calls that enter or leave a value scope; calls made inside a scope
    are none of these; [scoped body] is one scope, entered and left again. *)
Definition isValueScopeCall (c : Call) : bool :=
  match c with
  | CallEnterValueScope | CallLeaveValueScope => true
  | _ => false
  end.

Definition insideScope (body : list Call) : Prop :=
  Forall (fun c => isValueScopeCall c = false) body.

Definition scoped (body : list Call) : list Call :=
  CallEnterValueScope :: body ++ [CallLeaveValueScope].

(** [logs P m]: in every run of [m], returning or panicking, the calls that
    were made satisfy [P]. *)
Definition logs {A : Type} (P : list Call → Prop) (m : M A) : Prop :=
  ∀ st, ∃ l, calls (stateOf (m st)) = calls st ++ l ∧ P l.

(** The nested declaration recorded for a declaration under a name: a missing
    entry of either map reads as nil. *)
Definition recordedDeclaration (c : Checker) (declaration : InterfaceDeclaration) (name : string)
    : option Declaration :=
  InterfaceNestedDeclarations c !! decl_addr declaration ≫= (fun m => m !! name).

(** A check that returns and leaves the type store and the recorded nested
    declarations alone. *)
Definition returnsKeepingDeclarations (h : Checker -> Result Checker unit) : Prop :=
  ∀ c, ∃ c', h c = Ok tt c' ∧
             interfaceTypes c' = interfaceTypes c ∧
             InterfaceNestedDeclarations c' = InterfaceNestedDeclarations c.

Definition earlyChecksKeepDeclarations (helpers : Helpers) : Prop :=
  (∀ access kind pos b1 b2,
     returnsKeepingDeclarations (checkDeclarationAccessModifier helpers access kind pos b1 b2)) ∧
  (∀ fields, returnsKeepingDeclarations (checkFieldsAccessModifier helpers fields)) ∧
  (∀ fields functions interfaces composites,
     returnsKeepingDeclarations
       (checkNestedIdentifiers helpers fields functions interfaces composites)).

(** What phase 1 never writes: everything of an interface type but its
    nested types and its container. *)
Definition sameCore (t t' : InterfaceType) : Prop :=
  it_Location t' = it_Location t ∧
  it_Identifier t' = it_Identifier t ∧
  it_CompositeKind t' = it_CompositeKind t ∧
  it_Members t' = it_Members t ∧
  it_InitializerParameterTypeAnnotations t' = it_InitializerParameterTypeAnnotations t.

(** From one checker state to a later one: every interface type of the store
    is still there, with the same core. *)
Definition coreKept (c c' : Checker) : Prop :=
  ∀ b t, interfaceTypes c !! b = Some t →
         ∃ t', interfaceTypes c' !! b = Some t' ∧ sameCore t t'.

(** A helper, and a computation, that keep the cores whenever they return. *)
Definition keepsCores {A : Type} (h : Checker -> Result Checker A) : Prop :=
  ∀ c a c', h c = Ok a c' → coreKept c c'.

Definition runKeepsCores {A : Type} (m : M A) : Prop :=
  ∀ st a st', m st = Ok a st' → coreKept (chk st) (chk st').

Definition declarationHelpersKeepCores (helpers : Helpers) : Prop :=
  (∀ name variable, keepsCores (recordVariableDeclarationOccurrence helpers name variable)) ∧
  (∀ kind declarationKind composites interfaces,
     keepsCores (visitNestedDeclarations helpers kind declarationKind composites interfaces)).

(** A helper that leaves alone the type associated with a declaration,
    whether it returns or panics. *)
Definition keepsAssociation (declaration : InterfaceDeclaration) {A : Type}
    (h : Checker -> Result Checker A) : Prop :=
  ∀ c, InterfaceDeclarationTypes (stateOf (h c)) !! decl_addr declaration =
       InterfaceDeclarationTypes c !! decl_addr declaration.

Definition declarationHelpersKeepAssociation (helpers : Helpers)
    (declaration : InterfaceDeclaration) : Prop :=
  (∀ name variable,
     keepsAssociation declaration (recordVariableDeclarationOccurrence helpers name variable)) ∧
  (∀ kind declarationKind composites interfaces,
     keepsAssociation declaration
       (visitNestedDeclarations helpers kind declarationKind composites interfaces)).

(** A helper that leaves alone what the store holds at an address, whether
    it returns or panics. *)
Definition keepsTypeAt (a : positive) {A : Type} (h : Checker -> Result Checker A) : Prop :=
  ∀ c, interfaceTypes (stateOf (h c)) !! a = interfaceTypes c !! a.

Definition phase2HelpersKeepType (helpers : Helpers) (a : positive) : Prop :=
  (∀ access kind pos b1 b2,
     keepsTypeAt a (checkDeclarationAccessModifier helpers access kind pos b1 b2)) ∧
  (∀ fields, keepsTypeAt a (checkFieldsAccessModifier helpers fields)) ∧
  (∀ fields functions interfaces composites,
     keepsTypeAt a (checkNestedIdentifiers helpers fields functions interfaces composites)) ∧
  (∀ t fields functions b, keepsTypeAt a (membersAndOrigins helpers t fields functions b)) ∧
  (∀ initializers, keepsTypeAt a (initializerParameterTypeAnnotations helpers initializers)) ∧
  (∀ initializers fields t kind name annotations containerKind info,
     keepsTypeAt a
       (checkInitializers helpers initializers fields t kind name annotations containerKind
          info)) ∧
  (∀ destructors fields members t kind name containerKind,
     keepsTypeAt a
       (checkDestructors helpers destructors fields members t kind name containerKind)) ∧
  (∀ functions, keepsTypeAt a (checkUnknownSpecialFunctions helpers functions)) ∧
  keepsTypeAt a (enterValueScope helpers) ∧
  (∀ b, keepsTypeAt a (leaveValueScope helpers b)) ∧
  (∀ t, keepsTypeAt a (declareSelfValue helpers t)) ∧
  (∀ function options, keepsTypeAt a (visitFunctionDeclaration helpers function options)) ∧
  (∀ fields members kind, keepsTypeAt a (checkResourceFieldNesting helpers fields members kind)) ∧
  (∀ kind declarationKind identifier,
     keepsTypeAt a (checkCompositeDeclarationSupport helpers kind declarationKind identifier)).

End Sequence.

End SemaSequence.

Module SemaSequenceExamples.

Import Sema SemaExamples.

#[local] Existing Instance unitForeign.

(** A checker in which the declaration at address 1 has the interface type at
    address 1; that type has two nested types, [M] and [N]; a declaration is
    recorded for [M] and none for [N]. *)
Definition typeWithTwoNested : InterfaceType :=
  {| it_Location := tt;
     it_Identifier := "S";
     it_CompositeKind := CompositeKindStructure;
     it_NestedTypes :=
       <["M" := InterfaceTy (Some 2%positive)]> {["N" := InterfaceTy (Some 3%positive)]};
     it_Members := ∅;
     it_InitializerParameterTypeAnnotations := [];
     it_ContainerType := None |}.

Definition unrecordedState : St :=
  {| chk :=
       {| chk_Location := tt;
          errors := [];
          containerTypes := ∅;
          typeActivations := [∅];
          valueActivations := [∅];
          InterfaceDeclarationTypes := {[1%positive := 1%positive]};
          InterfaceNestedDeclarations :=
            {[1%positive := {["M" := asDeclaration (nestedInterface 11 "M" 2)]}]};
          memberOrigins := ∅;
          interfaceTypes := {[1%positive := typeWithTwoNested]};
          compositeTypes := ∅;
          chk_rest := tt |};
     calls := [] |}.

(** The accepting helpers, with a [visitNestedDeclarations] that answers a
    nil pointer as the one nested interface type. *)
Definition nilNestingHelpers : Helpers := {|
  checkDeclarationAccessModifier := checkDeclarationAccessModifier acceptingHelpers;
  checkFieldsAccessModifier := checkFieldsAccessModifier acceptingHelpers;
  checkNestedIdentifiers := checkNestedIdentifiers acceptingHelpers;
  membersAndOrigins := membersAndOrigins acceptingHelpers;
  initializerParameterTypeAnnotations := initializerParameterTypeAnnotations acceptingHelpers;
  checkInitializers := checkInitializers acceptingHelpers;
  checkDestructors := checkDestructors acceptingHelpers;
  checkUnknownSpecialFunctions := checkUnknownSpecialFunctions acceptingHelpers;
  enterValueScope := enterValueScope acceptingHelpers;
  leaveValueScope := leaveValueScope acceptingHelpers;
  declareSelfValue := declareSelfValue acceptingHelpers;
  visitFunctionDeclaration := visitFunctionDeclaration acceptingHelpers;
  checkResourceFieldNesting := checkResourceFieldNesting acceptingHelpers;
  checkCompositeDeclarationSupport := checkCompositeDeclarationSupport acceptingHelpers;
  recordVariableDeclarationOccurrence := recordVariableDeclarationOccurrence acceptingHelpers;
  visitNestedDeclarations := fun _ _ _ _ => returns (∅, [None], []);
  Initializers := Initializers acceptingHelpers;
  Destructors := Destructors acceptingHelpers;
  FieldsByIdentifier := FieldsByIdentifier acceptingHelpers
|}.

(** Helpers that find one member [f] and one initializer parameter type, and
    accept everything. *)
Definition findingHelpers : Helpers := {|
  checkDeclarationAccessModifier := checkDeclarationAccessModifier acceptingHelpers;
  checkFieldsAccessModifier := checkFieldsAccessModifier acceptingHelpers;
  checkNestedIdentifiers := checkNestedIdentifiers acceptingHelpers;
  membersAndOrigins := fun _ _ _ _ => returns ({["f" := tt]}, tt);
  initializerParameterTypeAnnotations := fun _ => returns [tt];
  checkInitializers := checkInitializers acceptingHelpers;
  checkDestructors := checkDestructors acceptingHelpers;
  checkUnknownSpecialFunctions := checkUnknownSpecialFunctions acceptingHelpers;
  enterValueScope := enterValueScope acceptingHelpers;
  leaveValueScope := leaveValueScope acceptingHelpers;
  declareSelfValue := declareSelfValue acceptingHelpers;
  visitFunctionDeclaration := visitFunctionDeclaration acceptingHelpers;
  checkResourceFieldNesting := checkResourceFieldNesting acceptingHelpers;
  checkCompositeDeclarationSupport := checkCompositeDeclarationSupport acceptingHelpers;
  recordVariableDeclarationOccurrence := recordVariableDeclarationOccurrence acceptingHelpers;
  visitNestedDeclarations := visitNestedDeclarations acceptingHelpers;
  Initializers := Initializers acceptingHelpers;
  Destructors := Destructors acceptingHelpers;
  FieldsByIdentifier := FieldsByIdentifier acceptingHelpers
|}.

(** [struct interface S { fun ...; fun ...; fun ... }] *)
Definition structWithFunctions : InterfaceDeclaration :=
  interfaceNamed 1 CompositeKindStructure DeclarationKindStructureInterface "S" 1
    {| Fields := []; Functions := threeFunctions; SpecialFunctions := [] |} [].

End SemaSequenceExamples.

(** ** The flag, the destructor check and sibling declarations *)

Module SemaPhases.

Import Sema SemaProperties SemaSequence.

Section Phases.

Context `{Foreign}.

(** Two computations that do the same in every state that satisfies [P];
    [agree] says in addition that [P] still holds in the state they leave
    behind, whether they return or panic. *)
Definition sameOn {A : Type} (P : St -> Prop) (m1 m2 : M A) : Prop :=
  ∀ st, P st → m1 st = m2 st.

Definition agree {A : Type} (P : St -> Prop) (m1 m2 : M A) : Prop :=
  ∀ st, P st → m1 st = m2 st ∧ P (stateOf (m1 st)).

(** The container-checking flag of a type is set. *)
Definition flagged (ty : Ty) (c : Checker) : Prop := containerTypes c !! ty = Some true.

(** A property of every helper that phase 2 calls, whatever its arguments. *)
Definition eachPhase2Helper
    (P : ∀ A : Type, (Helpers -> Checker -> Result Checker A) -> Prop) : Prop :=
  (∀ access kind pos b1 b2,
     P unit (fun hs => checkDeclarationAccessModifier hs access kind pos b1 b2)) ∧
  (∀ fields, P unit (fun hs => checkFieldsAccessModifier hs fields)) ∧
  (∀ fields functions interfaces composites,
     P unit (fun hs => checkNestedIdentifiers hs fields functions interfaces composites)) ∧
  (∀ t fields functions b, P _ (fun hs => membersAndOrigins hs t fields functions b)) ∧
  (∀ initializers, P _ (fun hs => initializerParameterTypeAnnotations hs initializers)) ∧
  (∀ initializers fields t kind name annotations containerKind info,
     P unit (fun hs => checkInitializers hs initializers fields t kind name annotations
                         containerKind info)) ∧
  (∀ destructors fields members t kind name containerKind,
     P unit (fun hs => checkDestructors hs destructors fields members t kind name
                         containerKind)) ∧
  (∀ functions, P unit (fun hs => checkUnknownSpecialFunctions hs functions)) ∧
  P unit (fun hs => enterValueScope hs) ∧
  (∀ b, P unit (fun hs => leaveValueScope hs b)) ∧
  (∀ t, P unit (fun hs => declareSelfValue hs t)) ∧
  (∀ function options, P unit (fun hs => visitFunctionDeclaration hs function options)) ∧
  (∀ fields members kind, P unit (fun hs => checkResourceFieldNesting hs fields members kind)) ∧
  (∀ kind declarationKind identifier,
     P unit (fun hs => checkCompositeDeclarationSupport hs kind declarationKind identifier)).

(** No helper clears the flag of [ty], whether it returns or panics. *)
Definition helpersKeepFlag (ty : Ty) (helpers : Helpers) : Prop :=
  eachPhase2Helper (fun A h => ∀ c, flagged ty c → flagged ty (stateOf (h helpers c))).

(** Two sets of helpers that do the same whenever the flag of [ty] is set;
    in states in which it is not set they may differ in any way. *)
Definition helpersAgreeWhenFlagged (ty : Ty) (helpers helpers' : Helpers) : Prop :=
  eachPhase2Helper (fun A h => ∀ c, flagged ty c → h helpers' c = h helpers c) ∧
  (∀ members, Initializers helpers' members = Initializers helpers members) ∧
  (∀ members, Destructors helpers' members = Destructors helpers members) ∧
  (∀ members, FieldsByIdentifier helpers' members = FieldsByIdentifier helpers members).

(** *** The destructor check *)

(** The type of [checkDestructors]. *)
Definition DestructorCheck : Type :=
  list SpecialFunctionDeclaration -> gmap string FieldDeclaration -> gmap string Member ->
  Ptr -> DeclarationKind -> string -> ContainerKind -> Checker -> Result Checker unit.

(** Modelled from the spec: [checkDestructors] is defined outside the checked
    files.  Phase 2, step 8: "If the kind is a resource kind, run
    destructor-consistency checking against the field set the same way."
    The kind is read off the interface type handed to the check, as
    [checkInterfaceFunctions] reads it; [consistency] stands for the
    consistency checking itself, which is left open. *)
Definition resourceOnly (consistency : DestructorCheck) : DestructorCheck :=
  fun destructors fields members interfaceType kind name containerKind c =>
    match interfaceAt c interfaceType with
    | None => Panic NilDereference c
    | Some it =>
        if bool_decide (it_CompositeKind it = CompositeKindResource)
        then consistency destructors fields members interfaceType kind name containerKind c
        else Ok tt c
    end.

(** No destructor checking at all. *)
Definition noDestructorCheck : DestructorCheck := fun _ _ _ _ _ _ _ c => Ok tt c.

(** The helpers with another [checkDestructors]. *)
Definition withCheckDestructors (helpers : Helpers) (check : DestructorCheck) : Helpers := {|
  checkDeclarationAccessModifier := checkDeclarationAccessModifier helpers;
  checkFieldsAccessModifier := checkFieldsAccessModifier helpers;
  checkNestedIdentifiers := checkNestedIdentifiers helpers;
  membersAndOrigins := membersAndOrigins helpers;
  initializerParameterTypeAnnotations := initializerParameterTypeAnnotations helpers;
  checkInitializers := checkInitializers helpers;
  checkDestructors := check;
  checkUnknownSpecialFunctions := checkUnknownSpecialFunctions helpers;
  enterValueScope := enterValueScope helpers;
  leaveValueScope := leaveValueScope helpers;
  declareSelfValue := declareSelfValue helpers;
  visitFunctionDeclaration := visitFunctionDeclaration helpers;
  checkResourceFieldNesting := checkResourceFieldNesting helpers;
  checkCompositeDeclarationSupport := checkCompositeDeclarationSupport helpers;
  recordVariableDeclarationOccurrence := recordVariableDeclarationOccurrence helpers;
  visitNestedDeclarations := visitNestedDeclarations helpers;
  Initializers := Initializers helpers;
  Destructors := Destructors helpers;
  FieldsByIdentifier := FieldsByIdentifier helpers
|}.

(** The store holds at [a] an interface type of composite kind [kind]. *)
Definition kindAt (a : positive) (kind : CompositeKind) (c : Checker) : Prop :=
  ∃ it, interfaceTypes c !! a = Some it ∧ it_CompositeKind it = kind.

(** A helper that leaves the type at [a] its composite kind, whether it
    returns or panics; and the helpers that phase 2 calls before
    [checkDestructors]. *)
Definition keepsKindAt (a : positive) {A : Type} (h : Checker -> Result Checker A) : Prop :=
  ∀ c kind, kindAt a kind c → kindAt a kind (stateOf (h c)).

Definition checksBeforeDestructorsKeepKind (helpers : Helpers) (a : positive) : Prop :=
  (∀ access kind pos b1 b2,
     keepsKindAt a (checkDeclarationAccessModifier helpers access kind pos b1 b2)) ∧
  (∀ fields, keepsKindAt a (checkFieldsAccessModifier helpers fields)) ∧
  (∀ fields functions interfaces composites,
     keepsKindAt a (checkNestedIdentifiers helpers fields functions interfaces composites)) ∧
  (∀ t fields functions b, keepsKindAt a (membersAndOrigins helpers t fields functions b)) ∧
  (∀ initializers, keepsKindAt a (initializerParameterTypeAnnotations helpers initializers)) ∧
  (∀ initializers fields t kind name annotations containerKind info,
     keepsKindAt a
       (checkInitializers helpers initializers fields t kind name annotations containerKind
          info)).

(** *** Sibling declarations *)




End Phases.

End SemaPhases.

Module SemaPhaseExamples.

Import Sema SemaProperties SemaPhases SemaExamples.

#[local] Existing Instance unitForeign.

(** A check that panics unless the container-checking flag of [ty] is set. *)
Definition probing (ty : Ty) : Checker -> Result Checker unit := fun c =>
  if decide (containerTypes c !! ty = Some true) then Ok tt c else Panic NilDereference c.

(** The accepting helpers, with the first and the last check of phase 2
    probing the flag. *)
Definition probingHelpers (ty : Ty) : Helpers := {|
  checkDeclarationAccessModifier := fun _ _ _ _ _ => probing ty;
  checkFieldsAccessModifier := checkFieldsAccessModifier acceptingHelpers;
  checkNestedIdentifiers := checkNestedIdentifiers acceptingHelpers;
  membersAndOrigins := membersAndOrigins acceptingHelpers;
  initializerParameterTypeAnnotations := initializerParameterTypeAnnotations acceptingHelpers;
  checkInitializers := checkInitializers acceptingHelpers;
  checkDestructors := checkDestructors acceptingHelpers;
  checkUnknownSpecialFunctions := checkUnknownSpecialFunctions acceptingHelpers;
  enterValueScope := enterValueScope acceptingHelpers;
  leaveValueScope := leaveValueScope acceptingHelpers;
  declareSelfValue := declareSelfValue acceptingHelpers;
  visitFunctionDeclaration := visitFunctionDeclaration acceptingHelpers;
  checkResourceFieldNesting := checkResourceFieldNesting acceptingHelpers;
  checkCompositeDeclarationSupport := fun _ _ _ => probing ty;
  recordVariableDeclarationOccurrence := recordVariableDeclarationOccurrence acceptingHelpers;
  visitNestedDeclarations := visitNestedDeclarations acceptingHelpers;
  Initializers := Initializers acceptingHelpers;
  Destructors := Destructors acceptingHelpers;
  FieldsByIdentifier := FieldsByIdentifier acceptingHelpers
|}.

(** The accepting helpers, with a first check that panics. *)
Definition refusingHelpers : Helpers := {|
  checkDeclarationAccessModifier := fun _ _ _ _ _ c => Panic (OtherPanic tt) c;
  checkFieldsAccessModifier := checkFieldsAccessModifier acceptingHelpers;
  checkNestedIdentifiers := checkNestedIdentifiers acceptingHelpers;
  membersAndOrigins := membersAndOrigins acceptingHelpers;
  initializerParameterTypeAnnotations := initializerParameterTypeAnnotations acceptingHelpers;
  checkInitializers := checkInitializers acceptingHelpers;
  checkDestructors := checkDestructors acceptingHelpers;
  checkUnknownSpecialFunctions := checkUnknownSpecialFunctions acceptingHelpers;
  enterValueScope := enterValueScope acceptingHelpers;
  leaveValueScope := leaveValueScope acceptingHelpers;
  declareSelfValue := declareSelfValue acceptingHelpers;
  visitFunctionDeclaration := visitFunctionDeclaration acceptingHelpers;
  checkResourceFieldNesting := checkResourceFieldNesting acceptingHelpers;
  checkCompositeDeclarationSupport := checkCompositeDeclarationSupport acceptingHelpers;
  recordVariableDeclarationOccurrence := recordVariableDeclarationOccurrence acceptingHelpers;
  visitNestedDeclarations := visitNestedDeclarations acceptingHelpers;
  Initializers := Initializers acceptingHelpers;
  Destructors := Destructors acceptingHelpers;
  FieldsByIdentifier := FieldsByIdentifier acceptingHelpers
|}.

(** A consistency check that objects to every declaration. *)
Definition objectingCheck : DestructorCheck := fun _ _ _ _ _ _ _ c =>
  Ok tt (set_errors (fun es => es ++ [OtherError tt]) c).

(** A consistency check that refuses every declaration by a panic. *)
Definition refusingCheck : DestructorCheck := fun _ _ _ _ _ _ _ c => Panic (OtherPanic tt) c.

(** [resource interface R {}], and the state after its phase 1. *)
Definition resourceInterface : InterfaceDeclaration :=
  interfaceNamed 1 CompositeKindResource DeclarationKindResourceInterface "R" 1 noMembers [].

Definition resourceInterfaceDeclared : St :=
  stateOf (declareInterfaceDeclaration acceptingHelpers resourceInterface freshState).


End SemaPhaseExamples.


(** * Part II, continued: the algorithm enumerations ([package sema]) *)

Module Algorithms.

(** [type SignatureAlgorithm int] and [type HashAlgorithm int]: a value is
    any Go [int], not only one of the declared constants.  The integers are
    not bounded here, so what holds for every value holds for every [int]. *)
Definition SignatureAlgorithm : Type := Z.

Definition HashAlgorithm : Type := Z.

(** The constants, numbered by [iota] from zero. *)
Definition SignatureAlgorithmECDSA_P256 : SignatureAlgorithm := 0%Z.
Definition SignatureAlgorithmECDSA_Secp256k1 : SignatureAlgorithm := 1%Z.
Definition SignatureAlgorithmBLSBLS12381 : SignatureAlgorithm := 2%Z.

Definition HashAlgorithmSHA2_256 : HashAlgorithm := 0%Z.
Definition HashAlgorithmSHA2_384 : HashAlgorithm := 1%Z.
Definition HashAlgorithmSHA3_256 : HashAlgorithm := 2%Z.
Definition HashAlgorithmSHA3_384 : HashAlgorithm := 3%Z.
Definition HashAlgorithmKMAC128 : HashAlgorithm := 4%Z.

Definition SignatureAlgorithmTypeName : string := "SignatureAlgorithm".

Definition HashAlgorithmTypeName : string := "HashAlgorithm".

(** The documentation strings are raw string literals that open and close
    with a line break (the character of code 10). *)
Definition lineBreak : string :=
  String (Ascii.Ascii false true false true false false false false) EmptyString.

Definition rawLine (text : string) : string := lineBreak +:+ text +:+ lineBreak.

Definition SignatureAlgorithmDocStringECDSA_P256 : string :=
  rawLine "SignatureAlgorithmECDSA_P256 is Elliptic Curve Digital Signature Algorithm (ECDSA) on the NIST P-256 curve".

Definition SignatureAlgorithmDocStringECDSA_Secp256k1 : string :=
  rawLine "SignatureAlgorithmECDSA_Secp256k1 is Elliptic Curve Digital Signature Algorithm (ECDSA) on the secp256k1 curve".

Definition SignatureAlgorithmDocStringBLSBLS12381 : string :=
  rawLine "SignatureAlgorithmDocStringBLSBLS12381 is BLS Signature algorithm on BLS 12-381 curve".

Definition HashAlgorithmDocStringSHA2_256 : string :=
  rawLine "HashAlgorithmSHA2_256 is Secure Hashing Algorithm 2 (SHA-2) with a 256-bit digest".

Definition HashAlgorithmDocStringSHA2_384 : string :=
  rawLine "HashAlgorithmSHA2_384 is Secure Hashing Algorithm 2 (SHA-2) with a 384-bit digest".

Definition HashAlgorithmDocStringSHA3_256 : string :=
  rawLine "HashAlgorithmSHA3_256 is Secure Hashing Algorithm 3 (SHA-3) with a 256-bit digest".

Definition HashAlgorithmDocStringSHA3_384 : string :=
  rawLine "HashAlgorithmSHA3_384 is Secure Hashing Algorithm 3 (SHA-3) with a 384-bit digest".

Definition HashAlgorithmDocStringKMAC128 : string :=
  rawLine "HashAlgorithmKMAC128 is KECCAK Message Authentication Code with a 128-bit digest".

(** [errors.NewUnreachableError()], the value the methods panic with. *)
Inductive UnreachableError : Type := NewUnreachableError.

(** A method either returns or panics. *)
Inductive Outcome (A : Type) : Type :=
  | Returns (a : A)
  | Panics (e : UnreachableError).
Arguments Returns {A} a.
Arguments Panics {A} e.

(** A [switch] over the constants: the first case equal to the value is
    taken; with no such case, control falls through to the [panic]. *)
Definition SignatureAlgorithm_Name (algo : SignatureAlgorithm) : Outcome string :=
  if decide (algo = SignatureAlgorithmECDSA_P256) then Returns "ECDSA_P256"
  else if decide (algo = SignatureAlgorithmECDSA_Secp256k1) then Returns "ECDSA_Secp256k1"
  else if decide (algo = SignatureAlgorithmBLSBLS12381) then Returns "BLSBLS12381"
  else Panics NewUnreachableError.

Definition SignatureAlgorithm_RawValue (algo : SignatureAlgorithm) : Z := algo.

Definition SignatureAlgorithm_DocString (algo : SignatureAlgorithm) : Outcome string :=
  if decide (algo = SignatureAlgorithmECDSA_P256)
  then Returns SignatureAlgorithmDocStringECDSA_P256
  else if decide (algo = SignatureAlgorithmECDSA_Secp256k1)
  then Returns SignatureAlgorithmDocStringECDSA_Secp256k1
  else if decide (algo = SignatureAlgorithmBLSBLS12381)
  then Returns SignatureAlgorithmDocStringBLSBLS12381
  else Panics NewUnreachableError.

Definition HashAlgorithm_Name (algo : HashAlgorithm) : Outcome string :=
  if decide (algo = HashAlgorithmSHA2_256) then Returns "SHA2_256"
  else if decide (algo = HashAlgorithmSHA2_384) then Returns "SHA2_384"
  else if decide (algo = HashAlgorithmSHA3_256) then Returns "SHA3_256"
  else if decide (algo = HashAlgorithmSHA3_384) then Returns "SHA3_384"
  else if decide (algo = HashAlgorithmKMAC128) then Returns "KMAC128"
  else Panics NewUnreachableError.

Definition HashAlgorithm_RawValue (algo : HashAlgorithm) : Z := algo.

Definition HashAlgorithm_DocString (algo : HashAlgorithm) : Outcome string :=
  if decide (algo = HashAlgorithmSHA2_256) then Returns HashAlgorithmDocStringSHA2_256
  else if decide (algo = HashAlgorithmSHA2_384) then Returns HashAlgorithmDocStringSHA2_384
  else if decide (algo = HashAlgorithmSHA3_256) then Returns HashAlgorithmDocStringSHA3_256
  else if decide (algo = HashAlgorithmSHA3_384) then Returns HashAlgorithmDocStringSHA3_384
  else if decide (algo = HashAlgorithmKMAC128) then Returns HashAlgorithmDocStringKMAC128
  else Panics NewUnreachableError.

(** A [BuiltinEnumCase] interface value holds a value of one of the two
    types; a method call goes to the method of that type. *)
Inductive BuiltinEnumCase : Type :=
  | SignatureAlgorithmCase (algo : SignatureAlgorithm)
  | HashAlgorithmCase (algo : HashAlgorithm).

#[global] Instance BuiltinEnumCase_eq_dec : EqDecision BuiltinEnumCase.
Proof. unfold SignatureAlgorithm, HashAlgorithm. solve_decision. Defined.

Definition Name (c : BuiltinEnumCase) : Outcome string :=
  match c with
  | SignatureAlgorithmCase algo => SignatureAlgorithm_Name algo
  | HashAlgorithmCase algo => HashAlgorithm_Name algo
  end.

Definition RawValue (c : BuiltinEnumCase) : Z :=
  match c with
  | SignatureAlgorithmCase algo => SignatureAlgorithm_RawValue algo
  | HashAlgorithmCase algo => HashAlgorithm_RawValue algo
  end.

Definition DocString (c : BuiltinEnumCase) : Outcome string :=
  match c with
  | SignatureAlgorithmCase algo => SignatureAlgorithm_DocString algo
  | HashAlgorithmCase algo => HashAlgorithm_DocString algo
  end.

Definition SignatureAlgorithms : list BuiltinEnumCase := [
  SignatureAlgorithmCase SignatureAlgorithmECDSA_P256;
  SignatureAlgorithmCase SignatureAlgorithmECDSA_Secp256k1;
  SignatureAlgorithmCase SignatureAlgorithmBLSBLS12381
].

Definition HashAlgorithms : list BuiltinEnumCase := [
  HashAlgorithmCase HashAlgorithmSHA2_256;
  HashAlgorithmCase HashAlgorithmSHA2_384;
  HashAlgorithmCase HashAlgorithmSHA3_256;
  HashAlgorithmCase HashAlgorithmSHA3_384;
  HashAlgorithmCase HashAlgorithmKMAC128
].

End Algorithms.

(** * Part III: properties of the visitor *)

Module InterpreterFacts.

Import Interpreter.

Create HintDb visit discriminated.
#[global] Hint Unfold
  VisitValue VisitTypeValue VisitVoidValue VisitBoolValue VisitStringValue
  VisitArrayValue VisitIntValue VisitInt8Value VisitInt16Value VisitInt32Value
  VisitInt64Value VisitInt128Value VisitInt256Value VisitUIntValue VisitUInt8Value
  VisitUInt16Value VisitUInt32Value VisitUInt64Value VisitUInt128Value VisitUInt256Value
  VisitWord8Value VisitWord16Value VisitWord32Value VisitWord64Value VisitFix64Value
  VisitUFix64Value VisitCompositeValue VisitDictionaryValue VisitNilValue VisitSomeValue
  VisitStorageReferenceValue VisitEphemeralReferenceValue VisitAddressValue
  VisitAuthAccountValue VisitPublicAccountValue VisitPathValue VisitCapabilityValue
  VisitLinkValue VisitInterpretedFunctionValue VisitHostFunctionValue
  VisitBoundFunctionValue VisitAuthAccountContractsValue VisitDeployedContractValue : visit.

Lemma forEach_fmap {A B S : Type} (g : A -> B) (f : B -> S -> option S) (l : list A) (s : S) :
  forEach f (g <$> l) s = forEach (fun x => f (g x)) l s.
Proof.
  revert s. induction l as [|x r IH]; intros s; simpl; [done|].
  destruct (f (g x) s); [apply IH | done].
Qed.

Lemma numbered_fmap {A B C : Type} (g : A -> B) (f : nat -> B -> list C) (i : nat) (l : list A) :
  numbered f i (g <$> l) = numbered (fun j x => f j (g x)) i l.
Proof. revert i. induction l as [|x r IH]; intros i; simpl; [done|]. by rewrite IH. Qed.

Lemma elem_of_numbered {A B : Type} (f : nat -> A -> list B) (i : nat) (l : list A) (y : B) :
  y ∈ numbered f i l ↔ ∃ k x, l !! k = Some x ∧ y ∈ f (i + k) x.
Proof.
  revert i. induction l as [|x r IH]; intros i; simpl.
  - split; [by intros ?%elem_of_nil | by intros (k & z & ? & _)].
  - rewrite elem_of_app, IH. split.
    + intros [Hy | (k & z & Hk & Hy)].
      * exists 0, x. by rewrite Nat.add_0_r.
      * exists (S k), z. split; [done|]. by replace (i + S k) with (S i + k) by lia.
    + intros ([|k] & z & Hk & Hy); simpl in Hk.
      * left. injection Hk as ->. by rewrite Nat.add_0_r in Hy.
      * right. exists k, z. split; [done|]. by replace (S i + k) with (i + S k) by lia.
Qed.

Lemma Value_children_ind (P : Value -> Prop) :
  (∀ v, Forall P (children v) → P v) → ∀ v, P v.
Proof.
  intros step. fix rec 1. intros v. apply step. destruct v as [s z|vs|fs|es|x]; simpl.
  - constructor.
  - induction vs as [|c r IH]; constructor; [apply rec | exact IH].
  - induction fs as [|[k c] r IH]; constructor; [apply rec | exact IH].
  - induction es as [|[k c] r IH]; constructor; [apply rec | exact IH].
  - constructor; [apply rec | constructor].
Qed.

Lemma preorder_children (v : Value) :
  preorder v = v :: numbered (fun _ c => preorder c) 0 (children v).
Proof.
  destruct v; simpl; try done.
  - by rewrite numbered_fmap.
  - by rewrite numbered_fmap.
  - by rewrite app_nil_r.
Qed.

Lemma paths_children (v : Value) :
  paths v = [] :: numbered (fun i c => cons i <$> paths c) 0 (children v).
Proof.
  destruct v; simpl; try done.
  - by rewrite numbered_fmap.
  - by rewrite numbered_fmap.
  - by rewrite app_nil_r.
Qed.

Section EmptyVisitorFacts.

Context {Interpreter World : Type}.

Lemma visitLeaf_emptyVisitor (s : LeafSlot) (interpreter : Interpreter) (v : Value) (w : World) :
  visitLeaf (EmptyVisitor_Visitor emptyVisitor) s interpreter v w = Some w.
Proof. by destruct s. Qed.

Lemma visitContainer_emptyVisitor (s : ContainerSlot) (interpreter : Interpreter) (v : Value)
    (w : World) :
  visitContainer (EmptyVisitor_Visitor emptyVisitor) s interpreter v w = Some (true, w).
Proof. by destruct s. Qed.

Lemma Accept_emptyVisitor_children (interpreter : Interpreter) (v : Value) (tr : Trace) (w : World) :
  Accept (EmptyVisitor_Visitor emptyVisitor) interpreter v (tr, w) =
  forEach (Accept (EmptyVisitor_Visitor emptyVisitor) interpreter) (children v) (tr ++ [v], w).
Proof.
  destruct v; simpl; unfold acceptLeaf, acceptContainer; simpl;
    rewrite ?visitLeaf_emptyVisitor, ?visitContainer_emptyVisitor; simpl; try done.
  - by rewrite forEach_fmap.
  - by rewrite forEach_fmap.
  - by destruct (Accept _ _ _ _).
Qed.

Lemma Accept_emptyVisitor (interpreter : Interpreter) (v : Value) :
  ∀ (tr : Trace) (w : World),
    Accept (EmptyVisitor_Visitor emptyVisitor) interpreter v (tr, w) = Some (tr ++ preorder v, w).
Proof.
  induction v as [v IH] using Value_children_ind. intros tr w.
  rewrite Accept_emptyVisitor_children, preorder_children.
  replace (tr ++ v :: numbered (fun _ c => preorder c) 0 (children v))
    with ((tr ++ [v]) ++ numbered (fun _ c => preorder c) 0 (children v))
    by (by rewrite <- app_assoc).
  generalize (tr ++ [v]) as tr0. generalize 0 as i.
  induction IH as [|c r Hc _ IHr]; intros i tr0; simpl.
  - by rewrite app_nil_r.
  - rewrite Hc, (IHr (S i)). by rewrite app_assoc.
Qed.

End EmptyVisitorFacts.

Lemma nodeAt_numbered (v : Value) (l : list Value) (i : nat) :
  (∀ k c, l !! k = Some c → children v !! (i + k) = Some c) →
  Forall (fun c => Some <$> preorder c = nodeAt c <$> paths c) l →
  nodeAt v <$> numbered (fun j c => cons j <$> paths c) i l =
  Some <$> numbered (fun _ c => preorder c) i l.
Proof.
  intros Hl Hall. revert i Hl.
  induction Hall as [|c r Hc _ IH]; intros i Hl; simpl; [done|].
  rewrite !fmap_app, Hc. f_equal.
  - rewrite <- list_fmap_compose. apply list_fmap_ext. intros _ q _. simpl.
    specialize (Hl 0 c eq_refl). rewrite Nat.add_0_r in Hl. by rewrite Hl.
  - apply IH. intros k x Hk. specialize (Hl (S k) x Hk).
    by replace (S i + k) with (i + S k) by lia.
Qed.

Lemma preorder_nodeAt (v : Value) : Some <$> preorder v = nodeAt v <$> paths v.
Proof.
  induction v as [v IH] using Value_children_ind.
  rewrite preorder_children, paths_children. simpl. f_equal.
  symmetry. by apply nodeAt_numbered.
Qed.

Lemma elem_of_paths (v : Value) (p : Path) : p ∈ paths v ↔ is_Some (nodeAt v p).
Proof.
  revert p. induction v as [v IH] using Value_children_ind. intros p.
  rewrite paths_children, elem_of_cons, elem_of_numbered.
  rewrite Forall_lookup in IH. destruct p as [|k q]; simpl.
  - split; [by eauto | by left].
  - split.
    + intros [? | (j & c & Hj & Hq)]; [done|].
      apply list_elem_of_fmap in Hq as (q' & [= -> ->] & Hq').
      rewrite Hj. by apply (IH _ _ Hj).
    + intros Hsome. right. destruct (children v !! k) as [c|] eqn:Hk; [|by destruct Hsome].
      exists k, c. split; [done|]. apply list_elem_of_fmap. exists q. split; [done|].
      by apply (IH _ _ Hk).
Qed.

Lemma path_lt_irrefl (p : Path) : ¬ path_lt p p.
Proof. induction p as [|i p IH]; simpl; [tauto|]. intros [? | [_ ?]]; [lia | by apply IH]. Qed.

Lemma paths_sorted (v : Value) : StronglySorted path_lt (paths v).
Proof.
  induction v as [v IH] using Value_children_ind.
  rewrite paths_children. apply StronglySorted_cons. split.
  - apply Forall_forall. intros q (k & c & _ & Hq)%elem_of_numbered.
    by apply list_elem_of_fmap in Hq as (q' & -> & _).
  - generalize 0 as i. induction IH as [|c r Hc _ IHr]; intros i; simpl; [constructor|].
    apply StronglySorted_app_2.
    + intros p1 p2 (q1 & -> & _)%list_elem_of_fmap (k & x & _ & Hp2)%elem_of_numbered.
      apply list_elem_of_fmap in Hp2 as (q2 & -> & _). simpl. left. lia.
    + eapply (StronglySorted_fmap _ path_lt); [|exact Hc]. intros p1 p2 Hlt. simpl. by right.
    + apply IHr.
Qed.

Lemma StronglySorted_NoDup {A : Type} (R : relation A) (l : list A) :
  (∀ x, ¬ R x x) → StronglySorted R l → NoDup l.
Proof.
  intros Hirr. induction 1 as [|x l _ IH Hall]; constructor; [|done].
  intros Hx. rewrite Forall_forall in Hall. exact (Hirr x (Hall x Hx)).
Qed.

(** C2.  Running the dispatcher over any value with the all-default
    [EmptyVisitor] never faults and leaves the callbacks' world untouched; the
    visitor methods are invoked on exactly the nodes of the value, each node
    once, parent before children and children in element, entry or field
    order: the trace is the preorder listing, the i-th call receives the node
    at the i-th address of [paths v], these addresses are exactly the
    addresses of nodes of [v], without repetition, in preorder. *)
Theorem empty_visitor_preorder_traversal {Interpreter World : Type}
    (interpreter : Interpreter) (w : World) (v : Value) :
  Accept (EmptyVisitor_Visitor emptyVisitor) interpreter v ([], w) = Some (preorder v, w) ∧
  Some <$> preorder v = nodeAt v <$> paths v ∧
  (∀ p : Path, p ∈ paths v ↔ is_Some (nodeAt v p)) ∧
  NoDup (paths v) ∧
  StronglySorted path_lt (paths v).
Proof.
  split; [by rewrite Accept_emptyVisitor | split; [apply preorder_nodeAt | split]].
  - intros p. apply elem_of_paths.
  - split; [|apply paths_sorted].
    eapply StronglySorted_NoDup; [apply path_lt_irrefl | apply paths_sorted].
Qed.

(** C3.  An unset slot of a container variant makes its [Visit] method answer
    [true] without touching anything; an unset slot of a leaf variant makes
    its method a no-op; a set slot is called with the interpreter and the
    value, and what it yields is passed on unchanged. *)
Theorem EmptyVisitor_slots {Interpreter World : Type} (v : EmptyVisitor Interpreter World)
    (interpreter : Interpreter) (value : Value) (w : World) :
  (∀ s, containerSlot v s = None →
     visitContainer (EmptyVisitor_Visitor v) s interpreter value w = Some (true, w)) ∧
  (∀ s, leafSlot v s = None →
     visitLeaf (EmptyVisitor_Visitor v) s interpreter value w = Some w) ∧
  (∀ s f, containerSlot v s = Some f →
     visitContainer (EmptyVisitor_Visitor v) s interpreter value w = f interpreter value w) ∧
  (∀ s f, leafSlot v s = Some f →
     visitLeaf (EmptyVisitor_Visitor v) s interpreter value w = f interpreter value w).
Proof.
  repeat split; intros s; destruct s; simpl; autounfold with visit;
    intros; by simplify_option_eq.
Qed.

Lemma EmptyVisitor_slots_witness :
  visitContainer (EmptyVisitor_Visitor InterpreterExamples.arrayCounter) SSomeValue tt
    InterpreterExamples.someArray 5 = Some (true, 5) ∧
  visitLeaf (EmptyVisitor_Visitor InterpreterExamples.arrayCounter) SBoolValue tt
    (LeafValue SBoolValue 1) 5 = Some 5 ∧
  visitContainer (EmptyVisitor_Visitor InterpreterExamples.arrayCounter) SArrayValue tt
    (ArrayValue []) 5 = Some (false, 6) ∧
  visitLeaf (EmptyVisitor_Visitor InterpreterExamples.arrayCounter) SStringValue tt
    (LeafValue SStringValue 97) 5 = Some 6.
Proof.
  split; [|split; [|split]].
  - apply (EmptyVisitor_slots InterpreterExamples.arrayCounter tt
             InterpreterExamples.someArray 5). reflexivity.
  - apply (EmptyVisitor_slots InterpreterExamples.arrayCounter tt (LeafValue SBoolValue 1) 5).
    reflexivity.
  - apply (proj1 (proj2 (proj2 (EmptyVisitor_slots InterpreterExamples.arrayCounter tt
                                  (ArrayValue []) 5))) SArrayValue _ eq_refl).
  - apply (proj2 (proj2 (proj2 (EmptyVisitor_slots InterpreterExamples.arrayCounter tt
                                  (LeafValue SStringValue 97) 5))) SStringValue _ eq_refl).
Defined.

End InterpreterFacts.

(** * Part IV: properties of the interface checker *)

Module SemaFacts.

Import Sema SemaProperties.

Section Monad.

Context `{Foreign}.

Lemma bind_Ok {A B : Type} (m : M A) (f : A -> M B) (st st' : St) (b : B) :
  (m ≫= f) st = Ok b st' ↔ ∃ a st1, m st = Ok a st1 ∧ f a st1 = Ok b st'.
Proof.
  unfold mbind, M_bind. destruct (m st) as [a st1|p st1]; split.
  - eauto.
  - by intros (a' & st1' & [= -> ->] & ?).
  - done.
  - by intros (a' & st1' & ? & _).
Qed.

Lemma bind_run {A B : Type} (m : M A) (f : A -> M B) (st st1 : St) (a : A) :
  m st = Ok a st1 → (m ≫= f) st = f a st1.
Proof. unfold mbind, M_bind. by intros ->. Qed.

Lemma bind_panic {A B : Type} (m : M A) (f : A -> M B) (st st1 : St) (p : PanicValue) :
  m st = Panic p st1 → (m ≫= f) st = Panic p st1.
Proof. unfold mbind, M_bind. by intros ->. Qed.

Lemma withDefer_Ok {A : Type} (d : M unit) (body : M A) (st st' : St) (a : A) :
  withDefer d body st = Ok a st' ↔ ∃ st1, body st = Ok a st1 ∧ d st1 = Ok tt st'.
Proof.
  unfold withDefer. destruct (body st) as [a1 st1|p st1]; split.
  - destruct (d st1) as [[] st2|] eqn:Hd; [|done]. intros [= -> ->]. eauto.
  - intros (st1' & [= -> ->] & ->). done.
  - by destruct (d st1).
  - by intros (st1' & ? & _).
Qed.

(** Whatever the body does, a deferred write is the last thing that happens. *)
Lemma withDefer_modify_state {A : Type} (f : Checker -> Checker) (body : M A) (st : St) :
  chk (stateOf (withDefer (modify f) body st)) = f (chk (stateOf (body st))).
Proof. unfold withDefer, modify. by destruct (body st). Qed.

Lemma withDefer_modify_panic {A : Type} (f : Checker -> Checker) (body : M A) (st st1 : St)
    (p : PanicValue) :
  body st = Panic p st1 →
  withDefer (modify f) body st = Panic p {| chk := f (chk st1); calls := calls st1 |}.
Proof. unfold withDefer, modify. by intros ->. Qed.

End Monad.

(** ** What a run adds to an observed list *)
Section Observed.

Context `{Foreign} {X : Type} (obs : St -> list X).

Lemma keeps_adds {A : Type} (m : M A) : keeps obs m → adds obs m [].
Proof. intros Hm st a st' Hrun. specialize (Hm st). rewrite Hrun in Hm. by rewrite app_nil_r. Qed.

Lemma adds_bind {A B : Type} (m : M A) (f : A -> M B) (l1 l2 : list X) :
  adds obs m l1 → (∀ a, adds obs (f a) l2) → adds obs (m ≫= f) (l1 ++ l2).
Proof.
  intros Hm Hf st b st' (a & st1 & Hrun1 & Hrun2)%bind_Ok.
  by rewrite (Hf _ _ _ _ Hrun2), (Hm _ _ _ Hrun1), app_assoc.
Qed.

Lemma keeps_bind {A B : Type} (m : M A) (f : A -> M B) :
  keeps obs m → (∀ a, keeps obs (f a)) → keeps obs (m ≫= f).
Proof.
  intros Hm Hf st. specialize (Hm st). unfold mbind, M_bind.
  destruct (m st) as [a st1|p st1]; simpl in *; [|done]. by rewrite Hf.
Qed.

Lemma adds_withDefer {A : Type} (d : M unit) (body : M A) (l1 l2 : list X) :
  adds obs body l1 → adds obs d l2 → adds obs (withDefer d body) (l1 ++ l2).
Proof.
  intros Hb Hd st a st' (st1 & Hrun1 & Hrun2)%withDefer_Ok.
  by rewrite (Hd _ _ _ Hrun2), (Hb _ _ _ Hrun1), app_assoc.
Qed.

Lemma keeps_withDefer {A : Type} (d : M unit) (body : M A) :
  keeps obs body → keeps obs d → keeps obs (withDefer d body).
Proof.
  intros Hb Hd st. specialize (Hb st). unfold withDefer.
  destruct (body st) as [a st1|p st1]; simpl in *;
    specialize (Hd st1); by destruct (d st1); simpl in *; rewrite Hd.
Qed.

Lemma adds_forEachM {A : Type} (f : A -> M unit) (g : A -> list X) (l : list A) :
  (∀ x, adds obs (f x) (g x)) → adds obs (forEachM f l) (concat (g <$> l)).
Proof.
  intros Hf. induction l as [|x r IH]; simpl.
  - intros st [] st' [= <-]. by rewrite app_nil_r.
  - apply adds_bind; [apply Hf | intros _; apply IH].
Qed.

Lemma adds_forEachM_nil {A : Type} (f : A -> M unit) (l : list A) :
  (∀ x, adds obs (f x) []) → adds obs (forEachM f l) [].
Proof.
  intros Hf st a st' Hrun. rewrite (adds_forEachM f (fun _ => []) l Hf _ _ _ Hrun).
  f_equal. clear. induction l as [|x r IH]; [done|exact IH].
Qed.

Lemma keeps_ret {A : Type} (a : A) : keeps obs (mret a).
Proof. done. Qed.

Lemma keeps_panic {A : Type} (p : PanicValue) : keeps obs (panic (A := A) p).
Proof. done. Qed.

Lemma keeps_gets {A : Type} (f : Checker -> A) : keeps obs (gets f).
Proof. done. Qed.

Lemma keeps_modify (f : Checker -> Checker) :
  (∀ st, obs {| chk := f (chk st); calls := calls st |} = obs st) → keeps obs (modify f).
Proof. intros Hf st. apply Hf. Qed.

Lemma keeps_loadInterfaceType (p : Ptr) : keeps obs (loadInterfaceType p).
Proof. intros st. unfold loadInterfaceType. by destruct (p ≫= _). Qed.

Lemma keeps_storeInterfaceType (p : Ptr) (f : InterfaceType -> InterfaceType) :
  (∀ g st, obs {| chk := set_interfaceTypes g (chk st); calls := calls st |} = obs st) →
  keeps obs (storeInterfaceType p f).
Proof.
  intros Hobs st. unfold storeInterfaceType. destruct p as [a|]; [|done].
  destruct (interfaceTypes (chk st) !! a); [apply Hobs|done].
Qed.

End Observed.

(** An observation: the invalid-implementation diagnostics in the sink. *)
Section Observations.

Context `{Foreign}.

Lemma keeps_call_diagnostics {A : Type} (c : Call) (h : Checker -> Result Checker A) :
  leavesInvalidImplementations h → keeps (fun st => invalidImplementations (chk st)) (call c h).
Proof. intros Hh st. unfold call. specialize (Hh (chk st)). by destruct (h (chk st)). Qed.

End Observations.

Section CheckerLemmas.

Context `{Foreign}.

Lemma adds_eq {X A : Type} (obs : St -> list X) (m : M A) (l l' : list X) :
  adds obs m l → l = l' → adds obs m l'.
Proof. by intros ? <-. Qed.

(** The body-shape check always returns; it only appends to the sink. *)
Lemma checkInterfaceSpecialFunctionBlock_run (block : FunctionBlock)
    (containerKind implementedKind : DeclarationKind) (st : St) :
  ∃ st', checkInterfaceSpecialFunctionBlock block containerKind implementedKind st = Ok tt st' ∧
         calls st' = calls st ∧
         errors (chk st') = errors (chk st) ++ blockShapeRule containerKind implementedKind block.
Proof.
  unfold checkInterfaceSpecialFunctionBlock, blockShapeRule.
  destruct (Statements block) as [|first rest]; [|by eexists].
  destruct (PreConditions block) as [|c cs], (PostConditions block) as [|c' cs'];
    simpl; eexists; (split; [reflexivity|]); simpl; by rewrite ?app_nil_r.
Qed.

Lemma blockShapeRule_invalid (containerKind implementedKind : DeclarationKind)
    (block : FunctionBlock) :
  filter isInvalidImplementation (blockShapeRule containerKind implementedKind block) =
  blockShapeRule containerKind implementedKind block.
Proof.
  unfold blockShapeRule.
  by destruct (Statements block), (PreConditions block), (PostConditions block).
Qed.

Lemma adds_checkInterfaceSpecialFunctionBlock (block : FunctionBlock)
    (containerKind implementedKind : DeclarationKind) :
  adds (fun st => invalidImplementations (chk st))
    (checkInterfaceSpecialFunctionBlock block containerKind implementedKind)
    (blockShapeRule containerKind implementedKind block).
Proof.
  intros st a st' Hrun.
  destruct (checkInterfaceSpecialFunctionBlock_run block containerKind implementedKind st)
    as (st1 & Hrun1 & _ & Herr).
  rewrite Hrun1 in Hrun. injection Hrun as _ <-.
  unfold invalidImplementations. by rewrite Herr, filter_app, blockShapeRule_invalid.
Qed.

Lemma adds_checkInterfaceFunction (helpers : Helpers) (interfaceType : Ptr)
    (declarationKind : DeclarationKind) (inResource : bool) (function : FunctionDeclaration) :
  functionHelpersLeaveInvalidImplementations helpers →
  adds (fun st => invalidImplementations (chk st))
    (checkInterfaceFunction helpers interfaceType declarationKind inResource function)
    (functionBodyRule declarationKind function).
Proof.
  intros (Henter & Hleave & Hself & Hvisit). unfold checkInterfaceFunction.
  eapply adds_eq.
  - eapply adds_bind; [apply keeps_adds, keeps_call_diagnostics, Henter|intros _].
    eapply adds_withDefer; [|apply keeps_adds, keeps_call_diagnostics, Hleave].
    eapply adds_bind; [apply keeps_adds, keeps_call_diagnostics, Hself|intros _].
    eapply adds_bind; [apply keeps_adds, keeps_call_diagnostics, Hvisit|intros _].
    instantiate (1 := functionBodyRule declarationKind function). unfold functionBodyRule.
    destruct (FunctionBlock_ function) as [block|].
    + apply adds_checkInterfaceSpecialFunctionBlock.
    + apply keeps_adds, keeps_ret.
  - simpl. by rewrite app_nil_r.
Qed.

Lemma keeps_checkInterfaceFunction_nil_block (helpers : Helpers) (interfaceType : Ptr)
    (declarationKind : DeclarationKind) (inResource : bool) (function : FunctionDeclaration) :
  functionHelpersLeaveInvalidImplementations helpers →
  FunctionBlock_ function = None →
  keeps (fun st => invalidImplementations (chk st))
    (checkInterfaceFunction helpers interfaceType declarationKind inResource function).
Proof.
  intros (Henter & Hleave & Hself & Hvisit) Hnil. unfold checkInterfaceFunction. rewrite Hnil.
  apply keeps_bind; [apply keeps_call_diagnostics, Henter|intros _].
  apply keeps_withDefer; [|apply keeps_call_diagnostics, Hleave].
  apply keeps_bind; [apply keeps_call_diagnostics, Hself|intros _].
  apply keeps_bind; [apply keeps_call_diagnostics, Hvisit|intros _].
  apply keeps_ret.
Qed.

End CheckerLemmas.

Section NestedDeclarationFault.

Context `{Foreign}.

Lemma call_run {A : Type} (c : Call) (h : Checker -> Result Checker A) (st : St) (a : A)
    (c' : Checker) :
  h (chk st) = Ok a c' → call c h st = Ok a {| chk := c'; calls := calls st ++ [c] |}.
Proof. unfold call. by intros ->. Qed.

Lemma filter_unreachable_app (es : list error) (e : error) :
  isUnreachable e = false → filter isUnreachable (es ++ [e]) = filter isUnreachable es.
Proof.
  intros He. rewrite filter_app. unfold filter at 2. simpl. rewrite He. simpl.
  by rewrite app_nil_r.
Qed.

(** One iteration for an entry whose declaration has an identifier returns
    and adds at most a redeclaration diagnostic. *)
Lemma declareNestedType_identified (declaration : InterfaceDeclaration) (entry : string * Ty)
    (st : St) (nd : gmap string Declaration) (nested : Declaration) (identifier : Identifier) :
  InterfaceNestedDeclarations (chk st) !! decl_addr declaration = Some nd →
  nd !! entry.1 = Some nested →
  DeclarationIdentifier nested = Some identifier →
  ∃ st', declareNestedType declaration entry st = Ok tt st' ∧
         InterfaceNestedDeclarations (chk st') = InterfaceNestedDeclarations (chk st) ∧
         unreachableDiagnostics (chk st') = unreachableDiagnostics (chk st).
Proof.
  intros Hnd Hentry Hid. unfold declareNestedType.
  erewrite bind_run; [|unfold gets; rewrite Hnd; simpl; rewrite Hentry; reflexivity].
  cbv beta iota. rewrite Hid. unfold DeclareType, report, mbind, M_bind, modify. simpl.
  destruct (currentLayer (typeActivations (chk st)) !! id_Identifier identifier); simpl.
  - eexists. split; [reflexivity|]. split; [done|].
    unfold unreachableDiagnostics. simpl. by apply filter_unreachable_app.
  - eexists. split; [reflexivity|]. done.
Qed.

Lemma declareNestedType_unidentified (declaration : InterfaceDeclaration) (entry : string * Ty)
    (st : St) (nd : gmap string Declaration) (nested : Declaration) :
  InterfaceNestedDeclarations (chk st) !! decl_addr declaration = Some nd →
  nd !! entry.1 = Some nested →
  DeclarationIdentifier nested = None →
  declareNestedType declaration entry st = Panic (PanicError UnreachableError) st.
Proof.
  intros Hnd Hentry Hid. unfold declareNestedType.
  erewrite bind_run; [|unfold gets; rewrite Hnd; simpl; rewrite Hentry; reflexivity].
  cbv beta iota. by rewrite Hid.
Qed.

Lemma forEachM_declareNestedType_fault (declaration : InterfaceDeclaration)
    (nd : gmap string Declaration) (l : list (string * Ty)) :
  (∀ entry, entry ∈ l → is_Some (nd !! entry.1)) →
  (∃ entry nested, entry ∈ l ∧ nd !! entry.1 = Some nested ∧
                   DeclarationIdentifier nested = None) →
  ∀ st, InterfaceNestedDeclarations (chk st) !! decl_addr declaration = Some nd →
  ∃ st', forEachM (declareNestedType declaration) l st = Panic (PanicError UnreachableError) st' ∧
         unreachableDiagnostics (chk st') = unreachableDiagnostics (chk st).
Proof.
  induction l as [|entry r IH]; intros Hall (bad & nested & Hin & Hbad & Hnone) st Hnd.
  - by apply elem_of_nil in Hin.
  - destruct (Hall entry) as [n0 Hn0]; [by left|]. simpl.
    destruct (DeclarationIdentifier n0) as [identifier|] eqn:Hid.
    + destruct (declareNestedType_identified declaration entry st nd n0 identifier)
        as (st1 & Hrun & Hkeep & Hunr); [done..|].
      erewrite bind_run by exact Hrun.
      destruct (IH) with (st := st1) as (st' & Hrun' & Hunr').
      * intros e He. apply Hall. by right.
      * exists bad, nested. split; [|done].
        apply elem_of_cons in Hin as [->|Hin]; [|done]. congruence.
      * by rewrite Hkeep.
      * exists st'. split; [done|]. by rewrite Hunr'.
    + exists st. split; [|done]. erewrite bind_panic; [done|].
      by eapply declareNestedType_unidentified.
Qed.

End NestedDeclarationFault.

Section NestedTypes.

Context `{Foreign}.

Lemma forEachM_fmap {A B : Type} (g : A -> B) (f : B -> M unit) (l : list A) :
  forEachM f (g <$> l) = forEachM (fun x => f (g x)) l.
Proof. induction l as [|x r IH]; csimpl; [done|]. by rewrite IH. Qed.

Lemma forEachM_app_Ok {A : Type} (f : A -> M unit) (l1 l2 : list A) (st st' : St) :
  forEachM f (l1 ++ l2) st = Ok tt st' ↔
  ∃ st1, forEachM f l1 st = Ok tt st1 ∧ forEachM f l2 st1 = Ok tt st'.
Proof.
  revert st. induction l1 as [|x r IH]; intros st; simpl.
  - split; [by eauto|]. by intros (st1 & [= <-] & ?).
  - rewrite bind_Ok. split.
    + intros ([] & st1 & Hx & (st2 & Hr & Hl2)%IH). exists st2. split; [|done].
      apply bind_Ok. by exists tt, st1.
    + intros (st2 & ([] & st1 & Hx & Hr)%bind_Ok & Hl2). exists tt, st1. split; [done|].
      apply IH. by exists st2.
Qed.

Lemma attach_loops (interfaceType : Ptr) (nis ncs : list Ptr) (st st1 st' : St) :
  forEachM (attachNestedInterfaceType interfaceType) nis st = Ok tt st1 →
  forEachM (attachNestedCompositeType interfaceType) ncs st1 = Ok tt st' →
  forEachM (attachNestedType interfaceType) ((InterfaceTy <$> nis) ++ (CompositeTy <$> ncs)) st
    = Ok tt st'.
Proof.
  intros H1 H2. apply forEachM_app_Ok. exists st1. by rewrite !forEachM_fmap.
Qed.

Lemma attachNestedInterfaceType_attached (a : positive) (p : Ptr) (st st' : St) :
  attachNestedInterfaceType (Some a) p st = Ok tt st' →
  attached a (InterfaceTy p) (chk st) (chk st').
Proof.
  unfold attachNestedInterfaceType, loadInterfaceType, storeInterfaceType, mbind, M_bind, modify.
  destruct p as [b|]; simpl; [|done].
  destruct (interfaceTypes (chk st) !! b) as [n|] eqn:Hb; simpl; [|done].
  destruct (interfaceTypes (chk st) !! a) as [it|] eqn:Ha; simpl; [|done].
  rewrite Ha. simpl. rewrite lookup_insert. destruct (decide (a = b)) as [->|Hab].
  - assert (n = it) as -> by congruence. intros [= <-]. simpl.
    split; simpl.
    + intros [[q|]|[q|]]; simpl; try done.
      rewrite !lookup_insert. by destruct (decide (b = q)) as [<-|]; simpl; rewrite ?Hb.
    + by rewrite lookup_insert_eq.
    + intros [[q|]|[q|]]; simpl; try done.
      rewrite !lookup_insert. by destruct (decide (b = q)).
    + exists (it_Identifier it), (it_NestedTypes it). unfold nestedTypesOf. simpl.
      by rewrite Hb, lookup_insert_eq.
    + done.
  - rewrite Hb. intros [= <-]. simpl. split; simpl.
    + intros [[q|]|[q|]]; simpl; try done.
      rewrite !lookup_insert.
      destruct (decide (b = q)) as [<-|]; simpl; rewrite ?Hb; [done|].
      by destruct (decide (a = q)) as [<-|]; simpl; rewrite ?Ha.
    + by rewrite lookup_insert_eq.
    + intros [[q|]|[q|]]; simpl; try done.
      rewrite !lookup_insert.
      destruct (decide (b = q)) as [<-|]; simpl; [done|].
      by destruct (decide (a = q)) as [<-|]; simpl; rewrite ?Ha.
    + exists (it_Identifier n), (it_NestedTypes it). unfold nestedTypesOf. simpl.
      rewrite Hb, Ha. simpl. split; [done|]. split; [done|].
      by rewrite lookup_insert_ne, lookup_insert_eq by done.
    + done.
Qed.

Lemma attachNestedCompositeType_attached (a : positive) (p : Ptr) (st st' : St) :
  attachNestedCompositeType (Some a) p st = Ok tt st' →
  attached a (CompositeTy p) (chk st) (chk st').
Proof.
  unfold attachNestedCompositeType, loadCompositeType, loadInterfaceType, storeInterfaceType,
    storeCompositeType, mbind, M_bind, modify.
  destruct p as [b|]; simpl; [|done].
  destruct (compositeTypes (chk st) !! b) as [n|] eqn:Hb; simpl; [|done].
  destruct (interfaceTypes (chk st) !! a) as [it|] eqn:Ha; simpl; [|done].
  rewrite Ha. simpl. rewrite Hb. intros [= <-]. simpl. split; simpl.
  - intros [[q|]|[q|]]; simpl; try done.
    + rewrite lookup_insert. by destruct (decide (a = q)) as [<-|]; simpl; rewrite ?Ha.
    + rewrite lookup_insert. by destruct (decide (b = q)) as [<-|]; simpl; rewrite ?Hb.
  - by rewrite lookup_insert_eq.
  - intros [[q|]|[q|]]; simpl; try done.
    + rewrite lookup_insert. by destruct (decide (a = q)) as [<-|]; simpl; rewrite ?Ha.
    + rewrite lookup_insert. by destruct (decide (b = q)) as [<-|].
  - exists (ct_Identifier n), (it_NestedTypes it). unfold nestedTypesOf. simpl.
    by rewrite Hb, Ha, lookup_insert_eq.
  - done.
Qed.

Lemma attachNestedType_attached (a : positive) (ty : Ty) (st st' : St) :
  attachNestedType (Some a) ty st = Ok tt st' → attached a ty (chk st) (chk st').
Proof.
  destruct ty; [apply attachNestedInterfaceType_attached|apply attachNestedCompositeType_attached].
Qed.

(** What a run of attachments leaves alone. *)
Lemma attachments_keep (a : positive) (l : list Ty) (st st' : St) :
  forEachM (attachNestedType (Some a)) l st = Ok tt st' →
  (∀ ty, typeIdentifier (chk st') ty = typeIdentifier (chk st) ty) ∧
  (∀ ty, typeContainer (chk st) ty = Some (Some (InterfaceTy (Some a))) →
         typeContainer (chk st') ty = Some (Some (InterfaceTy (Some a)))) ∧
  InterfaceNestedDeclarations (chk st') = InterfaceNestedDeclarations (chk st) ∧
  (∀ k m v, nestedTypesOf (chk st) a = Some m → m !! k = Some v →
            (∀ ty, ty ∈ l → typeIdentifier (chk st) ty ≠ Some k) →
            ∃ m', nestedTypesOf (chk st') a = Some m' ∧ m' !! k = Some v).
Proof.
  revert st. induction l as [|ty r IH]; intros st; simpl.
  - intros [= <-]. repeat split; eauto.
  - intros ([] & st1 & [Hid Hcont Hkept (k0 & m0 & Hk0 & Hm0 & Hm1) Hrec]%attachNestedType_attached
            & (Hid' & Hkept' & Hrec' & Hnested')%IH)%bind_Ok.
    repeat split.
    + intros ty'. by rewrite Hid', Hid.
    + intros ty' Hty'. by apply Hkept', Hkept.
    + by rewrite Hrec', Hrec.
    + intros k m v Hm Hv Hfree. rewrite Hm0 in Hm. injection Hm as ->.
      apply (Hnested' k (<[k0 := ty]> m)); [done| |].
      * rewrite lookup_insert_ne; [done|]. intros ->. by apply (Hfree ty); [left|].
      * intros ty' Hin. rewrite Hid. apply Hfree. by right.
Qed.

(** Every attached type ends up contained in the interface type, and is the
    entry of [NestedTypes] under its identifier unless a type attached later
    has the same identifier. *)
Lemma attachments_result (a : positive) (l : list Ty) (st st' : St) (i : nat) (ty : Ty) :
  forEachM (attachNestedType (Some a)) l st = Ok tt st' →
  l !! i = Some ty →
  ∃ it k, interfaceTypes (chk st') !! a = Some it ∧
          typeIdentifier (chk st') ty = Some k ∧
          typeContainer (chk st') ty = Some (Some (InterfaceTy (Some a))) ∧
          ((∀ j ty', i < j → l !! j = Some ty' → typeIdentifier (chk st') ty' ≠ Some k) →
           it_NestedTypes it !! k = Some ty).
Proof.
  intros Hrun Hi.
  destruct (list_elem_of_split_length l i ty Hi) as (l1 & l2 & -> & Hlen).
  apply forEachM_app_Ok in Hrun as (st1 & Hrun1 & Hrun2). simpl in Hrun2.
  apply bind_Ok in Hrun2 as ([] & st2 & Hstep & Hrun2).
  apply attachNestedType_attached in Hstep
    as [Hid Hcont _ (k & m & Hk & Hm & Hm') _].
  apply attachments_keep in Hrun2 as (Hid2 & Hkept2 & _ & Hnested2).
  assert (typeIdentifier (chk st') ty = Some k) as Hk' by (by rewrite Hid2, Hid).
  destruct (interfaceTypes (chk st') !! a) as [it|] eqn:Hit.
  - exists it, k. repeat split; [done|by apply Hkept2|]. intros Hlater.
    destruct (Hnested2 k (<[k := ty]> m) ty Hm' (lookup_insert_eq _ _ _)) as (m' & Hm2 & Hlook).
    + intros ty' (j & Hj)%list_elem_of_lookup. rewrite <- Hid2.
      apply (Hlater (length l1 + S j)); [lia|].
      by rewrite lookup_app_r, Nat.add_comm, Nat.add_sub by lia.
    + unfold nestedTypesOf in Hm2. rewrite Hit in Hm2. by injection Hm2 as ->.
  - specialize (Hid2 (InterfaceTy (Some a))). simpl in Hid2.
    unfold nestedTypesOf in Hm'. rewrite Hit in Hid2.
    by destruct (interfaceTypes (chk st2) !! a).
Qed.

End NestedTypes.

Section Reports.

Context `{Foreign}.


End Reports.

Section Idempotence.

Context `{Foreign}.

Lemma set_typeActivations_id (c : Checker) (a : list (gmap string Variable_)) :
  typeActivations c = a → set_typeActivations (fun _ => a) c = c.
Proof. intros <-. by destruct c. Qed.

(** The loop that declares the nested types, when every entry has a recorded
    declaration under its own identifier and no entry is in the layer yet:
    it returns, reports nothing, and adds the entries to the current layer. *)
Lemma forEachM_declareNestedType_run (declaration : InterfaceDeclaration)
    (nd : gmap string Declaration) (l : list (string * Ty)) :
  NoDup l.*1 →
  (∀ entry, entry ∈ l →
     ∃ decl identifier, nd !! entry.1 = Some decl ∧
                        DeclarationIdentifier decl = Some identifier ∧
                        id_Identifier identifier = entry.1) →
  ∀ st top rest,
    InterfaceNestedDeclarations (chk st) !! decl_addr declaration = Some nd →
    typeActivations (chk st) = top :: rest →
    (∀ entry, entry ∈ l → top !! entry.1 = None) →
    ∃ st' layer,
      forEachM (declareNestedType declaration) l st = Ok tt st' ∧
      calls st' = calls st ∧
      chk st' = set_typeActivations (fun _ => layer :: rest) (chk st) ∧
      ∀ k, layer !! k =
           match (list_to_map l : gmap string Ty) !! k with
           | Some ty => nestedVariable nd k ty
           | None => top !! k
           end.
Proof.
  induction l as [|[name ty] r IH]; intros Hdup Hall st top rest Hnd Hta Hfree.
  - exists st, top. simpl. repeat split; try done. by rewrite set_typeActivations_id.
  - apply NoDup_cons in Hdup as [Hname Hdup].
    destruct (Hall (name, ty)) as (decl & identifier & Hdecl & Hid & Heq); [by left|].
    simpl in Hdecl, Heq.
    set (variable := {| var_Identifier := id_Identifier identifier; var_Type := ty;
                        var_DeclarationKind := DeclarationKind_ decl;
                        var_Access := DeclarationAccess decl;
                        var_Pos := id_Pos identifier |}).
    set (st1 := {| chk := set_typeActivations (fun _ => <[name := variable]> top :: rest) (chk st);
                   calls := calls st |}).
    assert (declareNestedType declaration (name, ty) st = Ok tt st1) as Hstep.
    { unfold declareNestedType.
      erewrite bind_run; [|unfold gets; rewrite Hnd; simpl; rewrite Hdecl; reflexivity].
      cbv beta iota. rewrite Hid. unfold DeclareType, mbind, M_bind. simpl.
      rewrite Hta. unfold currentLayer. simpl. rewrite Heq.
      pose proof (Hfree (name, ty)) as Hnone. simpl in Hnone. rewrite Hnone by (by left).
      simpl. unfold mret, M_ret. subst st1 variable. by rewrite Heq. }
    destruct (IH Hdup) with (st := st1) (top := <[name := variable]> top) (rest := rest)
      as (st' & layer & Hrun & Hcalls & Hchk & Hlayer); try done.
    { intros entry Hentry. apply Hall. by right. }
    { intros [name' ty'] Hentry. simpl. rewrite lookup_insert_ne.
      - apply (Hfree (name', ty')). by right.
      - intros ->. apply Hname. apply list_elem_of_fmap. by exists (name', ty'). }
    exists st', layer. repeat split.
    + simpl. by erewrite bind_run by exact Hstep.
    + done.
    + by rewrite Hchk.
    + intros k. rewrite Hlayer. simpl.
      destruct (decide (k = name)) as [->|Hk].
      * rewrite lookup_insert_eq. rewrite not_elem_of_list_to_map_1 by done.
        rewrite lookup_insert_eq. unfold nestedVariable. rewrite Hdecl. simpl. by rewrite Hid.
      * by rewrite !lookup_insert_ne.
Qed.

(** Walked in any order, the loop leaves the same layer. *)
Lemma declare_nested_types_run (declaration : InterfaceDeclaration)
    (nd : gmap string Declaration) (nested : gmap string Ty) (l : list (string * Ty))
    (st : St) (rest : list (gmap string Variable_)) :
  l ≡ₚ map_to_list nested →
  recordedUnderOwnIdentifier nd nested →
  InterfaceNestedDeclarations (chk st) !! decl_addr declaration = Some nd →
  typeActivations (chk st) = ∅ :: rest →
  ∃ st',
    forEachM (declareNestedType declaration) l st = Ok tt st' ∧
    calls st' = calls st ∧
    chk st' = set_typeActivations (fun _ => nestedLayer nd nested :: rest) (chk st).
Proof.
  intros Hperm Hrec Hnd Hta.
  assert (NoDup l.*1) as Hdup by (rewrite Hperm; apply NoDup_fst_map_to_list).
  destruct (forEachM_declareNestedType_run declaration nd l Hdup) with (st := st) (top := (∅ : gmap string Variable_)) (rest := rest)
    as (st' & layer & Hrun & Hcalls & Hchk & Hlayer); try done.
  { intros [name ty] Hentry. apply (Hrec name ty). apply elem_of_map_to_list.
    by rewrite <- Hperm. }
  assert (layer = nestedLayer nd nested) as ->; [|by exists st'].
  apply map_eq. intros k. rewrite Hlayer. unfold nestedLayer. rewrite map_lookup_imap.
  rewrite (list_to_map_proper l (map_to_list nested)), list_to_map_to_list by done.
  by destruct (nested !! k).
Qed.

Lemma checkInterfaceSpecialFunctionBlock_state (block : FunctionBlock)
    (containerKind implementedKind : DeclarationKind) (st : St) :
  checkInterfaceSpecialFunctionBlock block containerKind implementedKind st =
  Ok tt {| chk := set_errors
                    (fun es => es ++ blockShapeRule containerKind implementedKind block) (chk st);
           calls := calls st |}.
Proof.
  unfold checkInterfaceSpecialFunctionBlock, blockShapeRule.
  destruct (Statements block) as [|first rest]; [|done].
  destruct (PreConditions block) as [|c cs], (PostConditions block) as [|c' cs'];
    simpl; try done;
    destruct st as [[] log]; unfold mret, M_ret, set_errors; simpl; by rewrite app_nil_r.
Qed.

Lemma checkInterfaceFunction_run (rules : Rules) (phase1 : Helpers) (interfaceType : Ptr)
    (kind : DeclarationKind) (inResource : bool) (function : FunctionDeclaration) (st : St) :
  checkInterfaceFunction (validatingHelpers rules phase1) interfaceType kind inResource
    function st =
  Ok tt {| chk := set_errors
                    (fun es => es ++ functionDiagnostics rules interfaceType kind inResource
                                       (scopesOf (chk st)) (interfaceTypes (chk st)) function)
                    (chk st);
           calls := calls st ++ functionCalls interfaceType function |}.
Proof.
  unfold checkInterfaceFunction, functionDiagnostics, functionBodyRule, functionCalls.
  erewrite bind_run by (apply call_run; reflexivity).
  destruct (FunctionBlock_ function) as [block|].
  - erewrite (proj2 (withDefer_Ok _ _ _ _ _)).
    2:{ eexists. split; [|apply call_run; reflexivity].
        erewrite bind_run by (apply call_run; reflexivity).
        erewrite bind_run by (apply call_run; reflexivity).
        apply checkInterfaceSpecialFunctionBlock_state. }
    destruct st as [[] log].
    unfold reportAll, set_errors, set_valueActivations, scopesOf; simpl.
    by rewrite <- !app_assoc.
  - erewrite (proj2 (withDefer_Ok _ _ _ _ _)).
    2:{ eexists. split; [|apply call_run; reflexivity].
        erewrite bind_run by (apply call_run; reflexivity).
        erewrite bind_run by (apply call_run; reflexivity).
        reflexivity. }
    destruct st as [[] log].
    unfold reportAll, set_errors, set_valueActivations, scopesOf; simpl.
    by rewrite <- !app_assoc, app_nil_r.
Qed.

Lemma checkInterfaceFunctions_loop_run (rules : Rules) (phase1 : Helpers) (interfaceType : Ptr)
    (kind : DeclarationKind) (inResource : bool) (functions : list FunctionDeclaration) :
  ∀ st,
    forEachM (checkInterfaceFunction (validatingHelpers rules phase1) interfaceType kind
                inResource) functions st =
    Ok tt {| chk := set_errors
                      (fun es => es ++ concat (functionDiagnostics rules interfaceType kind
                                                 inResource (scopesOf (chk st))
                                                 (interfaceTypes (chk st)) <$> functions))
                      (chk st);
             calls := calls st ++ concat (functionCalls interfaceType <$> functions) |}.
Proof.
  induction functions as [|function r IH]; intros st.
  - destruct st as [[] log]. unfold set_errors. simpl. by rewrite !app_nil_r.
  - simpl. erewrite bind_run by apply checkInterfaceFunction_run. rewrite IH.
    destruct st as [[] log]. unfold set_errors, scopesOf. simpl.
    by rewrite <- !app_assoc.
Qed.

Lemma declare_nested_types_state (declaration : InterfaceDeclaration)
    (nd : gmap string Declaration) (nested : gmap string Ty) (l : list (string * Ty))
    (st : St) (rest : list (gmap string Variable_)) :
  l ≡ₚ map_to_list nested →
  recordedUnderOwnIdentifier nd nested →
  InterfaceNestedDeclarations (chk st) !! decl_addr declaration = Some nd →
  typeActivations (chk st) = ∅ :: rest →
  forEachM (declareNestedType declaration) l st =
  Ok tt {| chk := set_typeActivations (fun _ => nestedLayer nd nested :: rest) (chk st);
           calls := calls st |}.
Proof.
  intros Hperm Hrec Hnd Hta.
  destruct (declare_nested_types_run declaration nd nested l st rest)
    as ([c log] & -> & Hcalls & Hchk); try done.
  simpl in *. by subst.
Qed.

Ltac state_simpl :=
  cbv beta iota zeta delta
      [chk calls chk_Location errors containerTypes typeActivations valueActivations
       InterfaceDeclarationTypes InterfaceNestedDeclarations memberOrigins interfaceTypes
       compositeTypes chk_rest
       set_errors set_containerTypes set_typeActivations set_valueActivations
       set_InterfaceDeclarationTypes set_InterfaceNestedDeclarations set_memberOrigins
       set_interfaceTypes set_compositeTypes reportAll scopesOf
       it_Location it_Identifier it_CompositeKind it_NestedTypes it_Members
       it_InitializerParameterTypeAnnotations it_ContainerType
       set_it_NestedTypes set_it_Members set_it_InitializerParameterTypeAnnotations
       set_it_ContainerType
       validatingHelpers Initializers Destructors FieldsByIdentifier Enter Leave tail
       mbind option_bind].

Lemma VisitInterfaceDeclaration_validating_run (rules : Rules) (phase1 : Helpers)
    (rangeOrder : gmap string Ty -> list (string * Ty))
    (declaration : InterfaceDeclaration) (st : St)
    (a : positive) (it : InterfaceType) (nd : gmap string Declaration) :
  InterfaceDeclarationTypes (chk st) !! decl_addr declaration = Some a →
  interfaceTypes (chk st) !! a = Some it →
  InterfaceNestedDeclarations (chk st) !! decl_addr declaration = Some nd →
  rangeOrder (it_NestedTypes it) ≡ₚ map_to_list (it_NestedTypes it) →
  recordedUnderOwnIdentifier nd (it_NestedTypes it) →
  ∃ st',
    VisitInterfaceDeclaration (validatingHelpers rules phase1) rangeOrder declaration st
      = Ok tt st' ∧
    chk st' = phase2State rules declaration a it nd (chk st).
Proof.
  destruct st as [[] log], it. state_simpl. intros Hd Hit Hnd Hperm Hrec.
  unfold VisitInterfaceDeclaration.
  erewrite (bind_run _ _ _ _ (Some a)) by (unfold gets; state_simpl; rewrite Hd; reflexivity).
  erewrite bind_run by reflexivity.
  eexists. split.
  - apply withDefer_Ok. eexists. split; [|reflexivity].
    erewrite bind_run by (apply call_run; reflexivity).
    erewrite bind_run by (apply call_run; reflexivity).
    erewrite bind_run by (apply call_run; reflexivity).
    erewrite bind_run by reflexivity.
    apply withDefer_Ok. eexists. split; [|reflexivity].
    erewrite bind_run by (unfold loadInterfaceType; state_simpl; rewrite Hit; reflexivity).
    erewrite bind_run
      by (eapply (declare_nested_types_state declaration nd);
          [exact Hperm | exact Hrec | exact Hnd | reflexivity]).
    erewrite bind_run by (apply call_run; reflexivity).
    erewrite bind_run by (unfold storeInterfaceType; state_simpl; rewrite Hit; reflexivity).
    erewrite bind_run by (apply call_run; reflexivity).
    erewrite bind_run
      by (unfold storeInterfaceType, modify; state_simpl; rewrite lookup_insert_eq; reflexivity).
    erewrite bind_run by reflexivity.
    erewrite bind_run
      by (unfold loadInterfaceType, modify; state_simpl; rewrite lookup_insert_eq; reflexivity).
    erewrite bind_run by (apply call_run; reflexivity).
    erewrite bind_run
      by (unfold loadInterfaceType, modify; state_simpl; rewrite lookup_insert_eq; reflexivity).
    erewrite bind_run by (apply call_run; reflexivity).
    erewrite bind_run by (apply call_run; reflexivity).
    erewrite bind_run.
    2:{ unfold checkInterfaceFunctions.
        erewrite bind_run
          by (unfold loadInterfaceType, modify; state_simpl; rewrite lookup_insert_eq;
              reflexivity).
        cbv zeta. apply checkInterfaceFunctions_loop_run. }
    erewrite bind_run
      by (unfold loadInterfaceType, modify; state_simpl; rewrite lookup_insert_eq; reflexivity).
    erewrite bind_run by (apply call_run; reflexivity).
    apply call_run. reflexivity.
  - unfold modify, phase2State, phase2Diagnostics, finalizedType, membersFound,
      annotationsFound, innerScopes. state_simpl.
    rewrite !insert_insert_eq, <- !app_assoc. reflexivity.
Qed.

Lemma finalizedType_again (rules : Rules) (declaration : InterfaceDeclaration) (a : positive)
    (it : InterfaceType) (nd : gmap string Declaration) (scopes : Scopes) :
  finalizedType rules declaration a (finalizedType rules declaration a it nd scopes) nd scopes
  = finalizedType rules declaration a it nd scopes.
Proof. by destruct it. Qed.

Lemma phase2Diagnostics_again (rules : Rules) (declaration : InterfaceDeclaration) (a : positive)
    (it : InterfaceType) (nd : gmap string Declaration) (scopes : Scopes)
    (store : gmap positive InterfaceType) :
  phase2Diagnostics rules declaration a (finalizedType rules declaration a it nd scopes) nd
    scopes (<[a := finalizedType rules declaration a it nd scopes]> store)
  = phase2Diagnostics rules declaration a it nd scopes store.
Proof.
  unfold phase2Diagnostics. rewrite finalizedType_again, insert_insert_eq. by destruct it.
Qed.

End Idempotence.

Section Checker.

Context `{Foreign}.

(** C1.  The body-shape check of an interface function block: a block with
    at least one statement gets exactly one invalid-implementation diagnostic,
    at the start of its first statement; a block with neither statements nor
    conditions gets exactly one, at the start of the block; a block with only
    pre- or post-conditions gets none.  Nothing else changes. *)
Theorem checkInterfaceSpecialFunctionBlock_shapes (block : FunctionBlock)
    (containerKind implementedKind : DeclarationKind) (st : St) :
  (∀ first rest, Statements block = first :: rest →
     checkInterfaceSpecialFunctionBlock block containerKind implementedKind st =
     Ok tt {| chk := set_errors
                (fun es => es ++ [InvalidImplementationError (StartPosition first)
                                    containerKind implementedKind]) (chk st);
              calls := calls st |}) ∧
  (Statements block = [] → PreConditions block = [] → PostConditions block = [] →
     checkInterfaceSpecialFunctionBlock block containerKind implementedKind st =
     Ok tt {| chk := set_errors
                (fun es => es ++ [InvalidImplementationError (fb_StartPos block)
                                    containerKind implementedKind]) (chk st);
              calls := calls st |}) ∧
  (Statements block = [] → PreConditions block ≠ [] ∨ PostConditions block ≠ [] →
     checkInterfaceSpecialFunctionBlock block containerKind implementedKind st = Ok tt st).
Proof.
  unfold checkInterfaceSpecialFunctionBlock. repeat split.
  - by intros first rest ->.
  - by intros -> -> ->.
  - intros -> Hcond.
    destruct (PreConditions block) as [|c cs], (PostConditions block) as [|c' cs'];
      simpl; try done.
    by destruct Hcond.
Qed.

(** C10.  Provided the helpers called around a function (scope entry and
    exit, [declareSelfValue], [visitFunctionDeclaration]) leave the
    invalid-implementation diagnostics alone: a function whose block is nil
    gets no invalid-implementation diagnostic, whether its check returns or
    panics; and when [checkInterfaceFunctions] returns, the
    invalid-implementation diagnostics it has appended are exactly those of
    the body-shape rule applied, in order, to the functions that have a
    block. *)
Theorem checkInterfaceFunctions_nil_block_skipped (helpers : Helpers)
    (interfaceType : Ptr) (declarationKind : DeclarationKind)
    (Hquiet : functionHelpersLeaveInvalidImplementations helpers) :
  (∀ function inResource st,
     FunctionBlock_ function = None →
     invalidImplementations
       (chk (stateOf (checkInterfaceFunction helpers interfaceType declarationKind
                        inResource function st))) =
     invalidImplementations (chk st)) ∧
  (∀ functions st st',
     checkInterfaceFunctions helpers functions interfaceType declarationKind st = Ok tt st' →
     invalidImplementations (chk st') =
     invalidImplementations (chk st) ++
       concat (functionBodyRule declarationKind <$> functions)).
Proof.
  split.
  - intros function inResource st Hnil.
    by apply (keeps_checkInterfaceFunction_nil_block helpers).
  - intros functions st st'. unfold checkInterfaceFunctions.
    apply (adds_eq (fun st => invalidImplementations (chk st)) _
             ([] ++ concat (functionBodyRule declarationKind <$> functions))); [|done].
    eapply adds_bind; [apply keeps_adds, keeps_loadInterfaceType|intros it].
    apply adds_forEachM. intros function. by apply adds_checkInterfaceFunction.
Qed.

(** C8.  Take a declaration whose interface type has a nested type for which
    the recorded nested declaration has no identifier (every nested type
    having a recorded declaration, and the three checks that come first
    returning).  Then [VisitInterfaceDeclaration] does not return: it panics
    with the unreachable-error, in whatever order the nested types are walked,
    and no unreachable-error has been added to the diagnostics sink. *)
Theorem VisitInterfaceDeclaration_unidentified_nested_panics (helpers : Helpers)
    (rangeOrder : gmap string Ty -> list (string * Ty))
    (declaration : InterfaceDeclaration) (st : St)
    (a : positive) (it : InterfaceType) (nd : gmap string Declaration)
    (name : string) (ty : Ty) (nested : Declaration)
    (Hearly : earlyChecksReturn helpers)
    (Htype : InterfaceDeclarationTypes (chk st) !! decl_addr declaration = Some a)
    (Hstore : interfaceTypes (chk st) !! a = Some it)
    (Hrange : rangeOrder (it_NestedTypes it) ≡ₚ map_to_list (it_NestedTypes it))
    (Hrecorded : InterfaceNestedDeclarations (chk st) !! decl_addr declaration = Some nd)
    (Hall : ∀ n t, it_NestedTypes it !! n = Some t → is_Some (nd !! n))
    (Hname : it_NestedTypes it !! name = Some ty)
    (Hnested : nd !! name = Some nested)
    (Hnone : DeclarationIdentifier nested = None) :
  ∃ st', VisitInterfaceDeclaration helpers rangeOrder declaration st
           = Panic (PanicError UnreachableError) st' ∧
         unreachableDiagnostics (chk st') = unreachableDiagnostics (chk st).
Proof.
  destruct Hearly as (Haccess & Hfields & Hidents).
  unfold VisitInterfaceDeclaration.
  rewrite (bind_run _ _ st st (Some a)) by (unfold gets; by rewrite Htype).
  erewrite bind_run by reflexivity.
  set (st0 := {| chk := set_containerTypes <[InterfaceTy (Some a) := true]> (chk st);
                 calls := calls st |}).
  destruct (Haccess (decl_Access declaration) (decl_DeclarationKind declaration)
              (decl_StartPos declaration) true false (chk st0)) as (c1 & Hc1 & Ht1 & Hn1 & Hu1).
  destruct (Hfields (Fields (decl_Members declaration)) c1) as (c2 & Hc2 & Ht2 & Hn2 & Hu2).
  destruct (Hidents (Fields (decl_Members declaration)) (Functions (decl_Members declaration))
              (decl_InterfaceDeclarations declaration) (decl_CompositeDeclarations declaration) c2)
    as (c3 & Hc3 & Ht3 & Hn3 & Hu3).
  set (log3 := ((calls st0 ++ [CallCheckDeclarationAccessModifier]) ++
                 [CallCheckFieldsAccessModifier]) ++ [CallCheckNestedIdentifiers]).
  set (st4 := {| chk := set_typeActivations Enter c3; calls := log3 |}).
  destruct (forEachM_declareNestedType_fault declaration nd (rangeOrder (it_NestedTypes it)))
    with (st := st4) as (st5 & Hloop & Hu5).
  { intros [n t] Hin. apply (Hall n t). apply elem_of_map_to_list. by rewrite <- Hrange. }
  { exists (name, ty), nested. split; [|done]. rewrite Hrange. by apply elem_of_map_to_list. }
  { simpl. by rewrite Hn3, Hn2, Hn1. }
  eexists. split.
  - apply withDefer_modify_panic.
    erewrite bind_run by (apply call_run; exact Hc1).
    erewrite bind_run by (apply call_run; exact Hc2).
    erewrite bind_run by (apply call_run; exact Hc3).
    erewrite bind_run by reflexivity.
    apply withDefer_modify_panic.
    erewrite bind_run.
    + apply bind_panic. exact Hloop.
    + unfold loadInterfaceType. simpl. by rewrite Ht3, Ht2, Ht1; simpl; rewrite Hstore.
  - simpl. unfold unreachableDiagnostics in *. simpl. rewrite Hu5. simpl.
    by rewrite Hu3, Hu2, Hu1.
Qed.

(** C6 (as amended).  When phase 1 of an interface declaration returns, every
    nested type produced by [visitNestedDeclarations] (interfaces first, then
    composites, in the order in which they are attached) has the interface
    type as its [ContainerType]; and it is the entry of the interface type's
    [NestedTypes] under its identifier provided no nested type attached after
    it has the same identifier.  The nested declarations are recorded for the
    declaration, and the declaration is associated with the interface type. *)
Theorem declareInterfaceDeclaration_nested_types (helpers : Helpers)
    (declaration : InterfaceDeclaration) (st st' : St) (t : Ptr) :
  declareInterfaceDeclaration helpers declaration st = Ok t st' →
  ∃ (a : positive) (c1 c2 : Checker) (nd : gmap string Declaration) (nis ncs : list Ptr),
    t = Some a ∧
    visitNestedDeclarations helpers (decl_CompositeKind declaration)
      (decl_DeclarationKind declaration) (decl_CompositeDeclarations declaration)
      (decl_InterfaceDeclarations declaration) c1 = Ok (nd, nis, ncs) c2 ∧
    InterfaceNestedDeclarations (chk st') !! decl_addr declaration = Some nd ∧
    InterfaceDeclarationTypes (chk st') !! decl_addr declaration = Some a ∧
    ∀ (i : nat) (ty : Ty),
      ((InterfaceTy <$> nis) ++ (CompositeTy <$> ncs)) !! i = Some ty →
      ∃ (it : InterfaceType) (k : string),
        interfaceTypes (chk st') !! a = Some it ∧
        typeIdentifier (chk st') ty = Some k ∧
        typeContainer (chk st') ty = Some (Some (InterfaceTy t)) ∧
        ((∀ j ty', i < j → ((InterfaceTy <$> nis) ++ (CompositeTy <$> ncs)) !! j = Some ty' →
                   typeIdentifier (chk st') ty' ≠ Some k) →
         it_NestedTypes it !! k = Some ty).
Proof.
  unfold declareInterfaceDeclaration. intros Hrun.
  apply bind_Ok in Hrun as (location & s1 & _ & Hrun).
  apply bind_Ok in Hrun as (a & s2 & _ & Hrun). cbv zeta in Hrun.
  apply bind_Ok in Hrun as (r & s3 & _ & Hrun).
  apply bind_Ok in Hrun as ([] & s4 & _ & Hrun).
  apply bind_Ok in Hrun as ([] & s5 & _ & Hrun).
  apply bind_Ok in Hrun as ([] & s6 & Hscoped & Hrun).
  apply bind_Ok in Hrun as ([] & s7 & [= <-] & [= <- <-]).
  apply bind_Ok in Hscoped as ([] & s8 & _ & Hscoped).
  apply withDefer_Ok in Hscoped as (s9 & Hscoped & [= <-]).
  apply bind_Ok in Hscoped as ([] & s10 & _ & Hscoped).
  apply withDefer_Ok in Hscoped as (s11 & Hscoped & [= <-]).
  apply bind_Ok in Hscoped as ([[nd nis] ncs] & s12 & Hvisit & Hscoped).
  apply bind_Ok in Hscoped as ([] & s13 & [= <-] & Hloops).
  apply bind_Ok in Hloops as ([] & s14 & Hloop1 & Hloop2).
  pose proof (attach_loops _ _ _ _ _ _ Hloop1 Hloop2) as Hloop. simpl in Hloop.
  unfold call in Hvisit.
  destruct (visitNestedDeclarations _ _ _ _ _ _) as [[[nd' nis'] ncs'] c2|] eqn:Hhelper;
    [|done]. injection Hvisit as -> -> -> <-.
  eexists a, _, c2, nd, nis, ncs. split; [done|]. split; [exact Hhelper|].
  destruct (attachments_keep _ _ _ _ Hloop) as (_ & _ & Hrec & _). simpl in Hrec.
  split; [simpl; by rewrite Hrec, lookup_insert_eq|].
  split; [simpl; by rewrite lookup_insert_eq|].
  intros i ty Hi.
  destruct (attachments_result _ _ _ _ i ty Hloop Hi) as (it & k & Hit & Hk & Hc & Hlast).
  exists it, k. by repeat split.
Qed.

(** C9.  With the checks of phase 2 as the spec describes them (validations
    that read their arguments, the scope stacks and, once the members are
    set, the types, and only report to the sink): phase 2 of a declaration
    whose nested declarations were recorded by phase 1 returns, and run a
    second time on the finalized type, whatever the order in which either run
    walks the nested types, it returns again, leaves the interface type (its
    members and initializer parameter types included) exactly as the first
    run left it, and appends the same list of diagnostics as the first run. *)
Theorem VisitInterfaceDeclaration_idempotent (rules : Rules) (phase1 : Helpers)
    (firstOrder secondOrder : gmap string Ty -> list (string * Ty))
    (declaration : InterfaceDeclaration) (st : St)
    (a : positive) (it : InterfaceType) (nd : gmap string Declaration)
    (Htype : InterfaceDeclarationTypes (chk st) !! decl_addr declaration = Some a)
    (Hstore : interfaceTypes (chk st) !! a = Some it)
    (Hrecorded : InterfaceNestedDeclarations (chk st) !! decl_addr declaration = Some nd)
    (Hown : recordedUnderOwnIdentifier nd (it_NestedTypes it))
    (Hfirst : firstOrder (it_NestedTypes it) ≡ₚ map_to_list (it_NestedTypes it))
    (Hsecond : secondOrder (it_NestedTypes it) ≡ₚ map_to_list (it_NestedTypes it)) :
  ∃ (st1 st2 : St) (finalized : InterfaceType) (diagnostics : list error),
    VisitInterfaceDeclaration (validatingHelpers rules phase1) firstOrder declaration st
      = Ok tt st1 ∧
    VisitInterfaceDeclaration (validatingHelpers rules phase1) secondOrder declaration st1
      = Ok tt st2 ∧
    interfaceTypes (chk st1) !! a = Some finalized ∧
    interfaceTypes (chk st2) !! a = Some finalized ∧
    errors (chk st1) = errors (chk st) ++ diagnostics ∧
    errors (chk st2) = errors (chk st1) ++ diagnostics.
Proof.
  destruct (VisitInterfaceDeclaration_validating_run rules phase1 firstOrder declaration st
              a it nd Htype Hstore Hrecorded Hfirst Hown) as (st1 & Hrun1 & Hchk1).
  set (finalized := finalizedType rules declaration a it nd (scopesOf (chk st))).
  destruct (VisitInterfaceDeclaration_validating_run rules phase1 secondOrder declaration st1
              a finalized nd) as (st2 & Hrun2 & Hchk2).
  { by rewrite Hchk1. }
  { rewrite Hchk1. apply lookup_insert_eq. }
  { by rewrite Hchk1. }
  { exact Hsecond. }
  { exact Hown. }
  exists st1, st2, finalized,
    (phase2Diagnostics rules declaration a it nd (scopesOf (chk st)) (interfaceTypes (chk st))).
  repeat split; try done.
  - rewrite Hchk1. apply lookup_insert_eq.
  - rewrite Hchk2. simpl. rewrite lookup_insert_eq. f_equal. rewrite Hchk1.
    apply finalizedType_again.
  - by rewrite Hchk1.
  - rewrite Hchk2. simpl. f_equal. rewrite Hchk1. apply phase2Diagnostics_again.
Qed.

End Checker.

Import SemaExamples.
#[local] Existing Instance unitForeign.

Lemma checkInterfaceSpecialFunctionBlock_shapes_witness :
  errors (chk (stateOf (checkInterfaceSpecialFunctionBlock blockWithStatement
            DeclarationKindStructureInterface DeclarationKindFunction freshState))) =
    [InvalidImplementationError (at_ 3 4) DeclarationKindStructureInterface DeclarationKindFunction] ∧
  errors (chk (stateOf (checkInterfaceSpecialFunctionBlock blockEmpty
            DeclarationKindStructureInterface DeclarationKindFunction freshState))) =
    [InvalidImplementationError (at_ 2 20) DeclarationKindStructureInterface DeclarationKindFunction] ∧
  errors (chk (stateOf (checkInterfaceSpecialFunctionBlock blockConditionsOnly
            DeclarationKindStructureInterface DeclarationKindFunction freshState))) = [].
Proof.
  split; [|split].
  - pose proof (checkInterfaceSpecialFunctionBlock_shapes blockWithStatement
      DeclarationKindStructureInterface DeclarationKindFunction freshState) as (H1 & _).
    rewrite (H1 _ _ eq_refl). reflexivity.
  - pose proof (checkInterfaceSpecialFunctionBlock_shapes blockEmpty
      DeclarationKindStructureInterface DeclarationKindFunction freshState) as (_ & H2 & _).
    rewrite (H2 eq_refl eq_refl eq_refl). reflexivity.
  - pose proof (checkInterfaceSpecialFunctionBlock_shapes blockConditionsOnly
      DeclarationKindStructureInterface DeclarationKindFunction freshState) as (_ & _ & H3).
    rewrite (H3 eq_refl); [reflexivity|]. right. discriminate.
Defined.

Lemma acceptingHelpers_early_checks : earlyChecksReturn acceptingHelpers.
Proof. repeat split; intros; intros c; by exists c. Defined.

Lemma acceptingHelpers_leave_invalid_implementations :
  functionHelpersLeaveInvalidImplementations acceptingHelpers.
Proof. by repeat split. Defined.

Lemma checkInterfaceFunctions_nil_block_skipped_witness :
  invalidImplementations
    (chk (stateOf (checkInterfaceFunction acceptingHelpers (Some 1%positive)
                     DeclarationKindStructureInterface false (functionWith None)
                     structInterfaceDeclared))) = [] ∧
  invalidImplementations
    (chk (stateOf (checkInterfaceFunctions acceptingHelpers threeFunctions (Some 1%positive)
                     DeclarationKindStructureInterface structInterfaceDeclared))) =
  [InvalidImplementationError (at_ 3 4) DeclarationKindStructureInterface DeclarationKindFunction].
Proof.
  destruct (checkInterfaceFunctions_nil_block_skipped acceptingHelpers (Some 1%positive)
              DeclarationKindStructureInterface acceptingHelpers_leave_invalid_implementations)
    as [Hnil Hall].
  split.
  - rewrite Hnil by reflexivity. vm_compute. reflexivity.
  - rewrite (Hall threeFunctions structInterfaceDeclared
               (stateOf (checkInterfaceFunctions acceptingHelpers threeFunctions (Some 1%positive)
                           DeclarationKindStructureInterface structInterfaceDeclared)))
      by (vm_compute; reflexivity).
    vm_compute. reflexivity.
Defined.

Lemma VisitInterfaceDeclaration_unidentified_nested_panics_witness :
  ∃ st', VisitInterfaceDeclaration acceptingHelpers map_to_list structInterface faultyState
           = Panic (PanicError UnreachableError) st' ∧
         unreachableDiagnostics (chk st') = unreachableDiagnostics (chk faultyState).
Proof.
  apply (VisitInterfaceDeclaration_unidentified_nested_panics acceptingHelpers map_to_list
           structInterface faultyState 1%positive typeWithNested {["N" := unidentifiedNested]}
           "N" (InterfaceTy (Some 2%positive)) unidentifiedNested).
  - exact acceptingHelpers_early_checks.
  - reflexivity.
  - reflexivity.
  - reflexivity.
  - reflexivity.
  - intros n t Hn. simpl in Hn. apply lookup_singleton_Some in Hn as [<- _].
    exists unidentifiedNested. reflexivity.
  - reflexivity.
  - reflexivity.
  - reflexivity.
Defined.

(** C6, counterexample to the claim as stated: two nested interfaces are
    both called [N].  The type produced for the first one (declaration 11,
    type 2) is contained in the enclosing interface type (type 1), but under
    its identifier [N] the enclosing type's [NestedTypes] holds the type of
    the second one (type 3). *)
Lemma nested_type_hidden_by_later_namesake :
  let c := chk (stateOf (declareInterfaceDeclaration nestingHelpers contractWithDuplicateNested
                           freshState)) in
  InterfaceDeclarationTypes c !! 10%positive = Some 1%positive ∧
  InterfaceDeclarationTypes c !! 11%positive = Some 2%positive ∧
  typeIdentifier c (InterfaceTy (Some 2%positive)) = Some "N" ∧
  typeContainer c (InterfaceTy (Some 2%positive)) = Some (Some (InterfaceTy (Some 1%positive))) ∧
  nestedTypesOf c 1%positive ≫= (fun m => m !! "N") = Some (InterfaceTy (Some 3%positive)) ∧
  InterfaceTy (Some 3%positive) ≠ InterfaceTy (Some 2%positive).
Proof. repeat split; try (vm_compute; reflexivity). discriminate. Qed.

Lemma declareInterfaceDeclaration_nested_types_witness :
  let declaration := contractWithTwoNested in
  let st' := stateOf (declareInterfaceDeclaration nestingHelpers declaration freshState) in
  let t : Ptr := Some 1%positive in
  ∃ (a : positive) (c1 c2 : Checker) (nd : gmap string Declaration) (nis ncs : list Ptr),
    t = Some a ∧
    visitNestedDeclarations nestingHelpers (decl_CompositeKind declaration)
      (decl_DeclarationKind declaration) (decl_CompositeDeclarations declaration)
      (decl_InterfaceDeclarations declaration) c1 = Ok (nd, nis, ncs) c2 ∧
    InterfaceNestedDeclarations (chk st') !! decl_addr declaration = Some nd ∧
    InterfaceDeclarationTypes (chk st') !! decl_addr declaration = Some a ∧
    ∀ (i : nat) (ty : Ty),
      ((InterfaceTy <$> nis) ++ (CompositeTy <$> ncs)) !! i = Some ty →
      ∃ (it : InterfaceType) (k : string),
        interfaceTypes (chk st') !! a = Some it ∧
        typeIdentifier (chk st') ty = Some k ∧
        typeContainer (chk st') ty = Some (Some (InterfaceTy t)) ∧
        ((∀ j ty', i < j → ((InterfaceTy <$> nis) ++ (CompositeTy <$> ncs)) !! j = Some ty' →
                   typeIdentifier (chk st') ty' ≠ Some k) →
         it_NestedTypes it !! k = Some ty).
Proof.
  intros declaration st' t.
  apply (declareInterfaceDeclaration_nested_types nestingHelpers declaration freshState st' t).
  vm_compute. reflexivity.
Defined.

Lemma contractNested_own_identifiers :
  recordedUnderOwnIdentifier contractNested (it_NestedTypes contractType).
Proof.
  intros name ty Hname. simpl in Hname.
  apply lookup_insert_Some in Hname as [[<- <-]|[_ Hname]].
  - exists (asDeclaration (nestedInterface 11 "A" 2)), (decl_Identifier (nestedInterface 11 "A" 2)).
    by repeat split.
  - apply lookup_singleton_Some in Hname as [<- <-].
    exists (asDeclaration (nestedInterface 12 "B" 3)), (decl_Identifier (nestedInterface 12 "B" 3)).
    by repeat split.
Defined.

Lemma VisitInterfaceDeclaration_idempotent_witness :
  ∃ (st1 st2 : St) (finalized : InterfaceType) (diagnostics : list error),
    VisitInterfaceDeclaration (validatingHelpers sampleRules nestingHelpers) map_to_list
      contractWithFunctions contractDeclared = Ok tt st1 ∧
    VisitInterfaceDeclaration (validatingHelpers sampleRules nestingHelpers) backwards
      contractWithFunctions st1 = Ok tt st2 ∧
    interfaceTypes (chk st1) !! 1%positive = Some finalized ∧
    interfaceTypes (chk st2) !! 1%positive = Some finalized ∧
    errors (chk st1) = errors (chk contractDeclared) ++ diagnostics ∧
    errors (chk st2) = errors (chk st1) ++ diagnostics.
Proof.
  apply (VisitInterfaceDeclaration_idempotent sampleRules nestingHelpers map_to_list backwards
           contractWithFunctions contractDeclared 1%positive contractType contractNested).
  - vm_compute. reflexivity.
  - vm_compute. reflexivity.
  - vm_compute. reflexivity.
  - exact contractNested_own_identifiers.
  - reflexivity.
  - apply reverse_Permutation.
Defined.

End SemaFacts.

(** * Part V: order of calls, faults and writes of the two phases *)

Module SemaSequenceFacts.

Import Sema SemaProperties SemaSequence SemaFacts.

Section CallOrder.

Context `{Foreign}.

Lemma adds_call (A : Type) (c : Call) (h : Checker -> Result Checker A) :
  adds calls (call c h) [c].
Proof.
  intros st a st'. unfold call. destruct (h (chk st)); [|done]. by intros [= _ <-].
Qed.

Lemma keeps_calls_modify (f : Checker -> Checker) : keeps calls (modify f).
Proof. by apply keeps_modify. Qed.

Lemma keeps_calls_store (p : Ptr) (f : InterfaceType -> InterfaceType) :
  keeps calls (storeInterfaceType p f).
Proof. by apply keeps_storeInterfaceType. Qed.

Lemma keeps_calls_report (err : option error) : keeps calls (report err).
Proof. by destruct err. Qed.

Lemma keeps_calls_block (block : FunctionBlock) (containerKind implementedKind : DeclarationKind) :
  keeps calls (checkInterfaceSpecialFunctionBlock block containerKind implementedKind).
Proof.
  intros st.
  by destruct (checkInterfaceSpecialFunctionBlock_run block containerKind implementedKind st)
    as (st1 & -> & Hcalls & _).
Qed.

Lemma keeps_calls_declareNestedType (declaration : InterfaceDeclaration) (entry : string * Ty) :
  keeps calls (declareNestedType declaration entry).
Proof.
  unfold declareNestedType. apply keeps_bind; [apply keeps_gets|intros [nested|]];
    [|apply keeps_panic].
  destruct (DeclarationIdentifier nested); [|apply keeps_panic].
  apply keeps_bind; [done|intros r; apply keeps_calls_report].
Qed.

Lemma adds_calls_checkInterfaceFunction (helpers : Helpers) (interfaceType : Ptr)
    (declarationKind : DeclarationKind) (inResource : bool) (function : FunctionDeclaration) :
  adds calls (checkInterfaceFunction helpers interfaceType declarationKind inResource function)
    (functionCalls interfaceType function).
Proof.
  unfold checkInterfaceFunction. eapply adds_eq.
  - eapply adds_bind; [apply adds_call|intros _].
    eapply adds_withDefer; [|apply adds_call].
    eapply adds_bind; [apply adds_call|intros _].
    eapply adds_bind; [apply adds_call|intros _].
    apply keeps_adds. destruct (FunctionBlock_ function);
      [apply keeps_calls_block | apply keeps_ret].
  - reflexivity.
Qed.

Lemma adds_calls_checkInterfaceFunctions (helpers : Helpers)
    (functions : list FunctionDeclaration) (interfaceType : Ptr)
    (declarationKind : DeclarationKind) :
  adds calls (checkInterfaceFunctions helpers functions interfaceType declarationKind)
    (concat (functionCalls interfaceType <$> functions)).
Proof.
  unfold checkInterfaceFunctions.
  apply (adds_eq calls _ ([] ++ concat (functionCalls interfaceType <$> functions))); [|done].
  eapply adds_bind; [apply keeps_adds, keeps_loadInterfaceType|intros it].
  apply adds_forEachM. intros function. apply adds_calls_checkInterfaceFunction.
Qed.

(** The calls of a run of phase 2 that returns, [interfaceType] being the
    type recorded for the declaration. *)
Lemma VisitInterfaceDeclaration_calls (helpers : Helpers)
    (rangeOrder : gmap string Ty -> list (string * Ty))
    (declaration : InterfaceDeclaration) (interfaceType : Ptr) (st st' : St) :
  InterfaceDeclarationTypes (chk st) !! decl_addr declaration = interfaceType →
  VisitInterfaceDeclaration helpers rangeOrder declaration st = Ok tt st' →
  calls st' = calls st ++ phase2Calls interfaceType declaration.
Proof.
  intros <-.
  set (interfaceType := InterfaceDeclarationTypes (chk st) !! decl_addr declaration).
  intros Hrun. revert Hrun. unfold VisitInterfaceDeclaration.
  rewrite (bind_run _ _ st st interfaceType) by reflexivity.
  generalize interfaceType. clear interfaceType. intros interfaceType.
  revert st st'.
  match goal with
  | |- ∀ st st', ?m st = Ok tt st' → _ =>
      enough (adds calls m (phase2Calls interfaceType declaration))
        as Hadds by (intros st st'; apply Hadds)
  end.
  eapply adds_eq.
  - eapply adds_bind; [apply keeps_adds, keeps_calls_modify|intros _].
    eapply adds_withDefer; [|apply keeps_adds, keeps_calls_modify].
    do 3 (eapply adds_bind; [apply adds_call|intros _]).
    eapply adds_bind; [apply keeps_adds, keeps_calls_modify|intros _].
    eapply adds_withDefer; [|apply keeps_adds, keeps_calls_modify].
    eapply adds_bind; [apply keeps_adds, keeps_loadInterfaceType|intros it0].
    eapply adds_bind;
      [apply adds_forEachM_nil; intros entry; apply keeps_adds, keeps_calls_declareNestedType
      |intros _].
    eapply adds_bind; [apply adds_call|intros mo].
    eapply adds_bind; [apply keeps_adds, keeps_calls_store|intros _].
    eapply adds_bind; [apply adds_call|intros annotations].
    eapply adds_bind; [apply keeps_adds, keeps_calls_store|intros _].
    eapply adds_bind; [apply keeps_adds, keeps_calls_modify|intros _].
    eapply adds_bind; [apply keeps_adds, keeps_loadInterfaceType|intros it1].
    eapply adds_bind; [apply adds_call|intros _].
    eapply adds_bind; [apply keeps_adds, keeps_loadInterfaceType|intros it2].
    eapply adds_bind; [apply adds_call|intros _].
    eapply adds_bind; [apply adds_call|intros _].
    eapply adds_bind; [apply adds_calls_checkInterfaceFunctions|intros _].
    eapply adds_bind; [apply keeps_adds, keeps_loadInterfaceType|intros it3].
    eapply adds_bind; [apply adds_call|intros _].
    apply adds_call.
  - unfold phase2Calls, earlyCalls, memberCalls, closingCalls. simpl.
    by rewrite ?app_nil_r.
Qed.

(** X4.  Whenever phase 2 returns, the helpers have been called in this
    order, each exactly once and with the interface type recorded for the
    declaration: the three opening checks; [membersAndOrigins],
    [initializerParameterTypeAnnotations], [checkInitializers],
    [checkDestructors], [checkUnknownSpecialFunctions]; then for every function
    of the declaration, in order, [enterValueScope], [declareSelfValue],
    [visitFunctionDeclaration], [leaveValueScope]; finally
    [checkResourceFieldNesting] and [checkCompositeDeclarationSupport]. *)
Theorem VisitInterfaceDeclaration_call_order (helpers : Helpers)
    (rangeOrder : gmap string Ty -> list (string * Ty))
    (declaration : InterfaceDeclaration) (st st' : St) :
  VisitInterfaceDeclaration helpers rangeOrder declaration st = Ok tt st' →
  calls st' =
  calls st ++
    phase2Calls (InterfaceDeclarationTypes (chk st) !! decl_addr declaration) declaration.
Proof. by apply VisitInterfaceDeclaration_calls. Qed.

(** X5.  [checkInterfaceFunctions] reads the interface type before it looks
    at the functions: on a nil interface type it panics with a nil
    dereference without having called anything, even for an empty list of
    functions.  Whenever it returns, every function has got its own value
    scope, in the order of the list: scope entered, [self] declared, the
    function visited, scope left. *)
Theorem checkInterfaceFunctions_call_order (helpers : Helpers)
    (functions : list FunctionDeclaration) (interfaceType : Ptr)
    (declarationKind : DeclarationKind) (st : St) :
  (interfaceAt (chk st) interfaceType = None →
   checkInterfaceFunctions helpers functions interfaceType declarationKind st =
   Panic NilDereference st) ∧
  (∀ st', checkInterfaceFunctions helpers functions interfaceType declarationKind st = Ok tt st' →
          calls st' = calls st ++ concat (functionCalls interfaceType <$> functions)).
Proof.
  split.
  - unfold checkInterfaceFunctions, interfaceAt. intros Hnil. apply bind_panic.
    unfold loadInterfaceType. by rewrite Hnil.
  - intros st'. apply adds_calls_checkInterfaceFunctions.
Qed.

End CallOrder.

Section Scopes.

Context `{Foreign}.

Lemma logs_bind {A B : Type} (P : list Call → Prop) (m : M A) (f : A -> M B) :
  (∀ l1 l2, P l1 → P l2 → P (l1 ++ l2)) →
  logs P m → (∀ a, logs P (f a)) → logs P (m ≫= f).
Proof.
  intros Happ Hm Hf st. destruct (Hm st) as (l1 & Hl1 & HP1). unfold mbind, M_bind.
  destruct (m st) as [a st1|p st1]; simpl in *; [|by exists l1].
  destruct (Hf a st1) as (l2 & Hl2 & HP2). exists (l1 ++ l2).
  split; [by rewrite Hl2, Hl1, app_assoc|by apply Happ].
Qed.

Lemma logs_call {A : Type} (P : list Call → Prop) (c : Call) (h : Checker -> Result Checker A) :
  P [c] → logs P (call c h).
Proof. intros HP st. exists [c]. split; [|done]. unfold call. by destruct (h (chk st)). Qed.

Lemma logs_keeps {A : Type} (P : list Call → Prop) (m : M A) :
  P [] → keeps calls m → logs P m.
Proof. intros HP Hm st. exists []. by rewrite app_nil_r. Qed.

Lemma withDefer_call_log {A : Type} (c : Call) (h : Checker -> Result Checker unit)
    (body : M A) (st : St) :
  calls (stateOf (withDefer (call c h) body st)) = calls (stateOf (body st)) ++ [c].
Proof.
  unfold withDefer, call.
  by destruct (body st) as [a st1|p st1]; simpl; destruct (h (chk st1)).
Qed.

Lemma insideScope_app (l1 l2 : list Call) :
  insideScope l1 → insideScope l2 → insideScope (l1 ++ l2).
Proof. apply Forall_app_2. Qed.

(** One function: either its value scope was entered and left again, or
    entering the scope panicked. *)
Lemma checkInterfaceFunction_scope (helpers : Helpers) (interfaceType : Ptr)
    (declarationKind : DeclarationKind) (inResource : bool) (function : FunctionDeclaration)
    (st : St) :
  let outcome :=
    checkInterfaceFunction helpers interfaceType declarationKind inResource function st in
  (∃ body, insideScope body ∧ calls (stateOf outcome) = calls st ++ scoped body) ∨
  (∃ p c', enterValueScope helpers (chk st) = Panic p c' ∧
           outcome = Panic p {| chk := c'; calls := calls st ++ [CallEnterValueScope] |}).
Proof.
  unfold checkInterfaceFunction.
  destruct (enterValueScope helpers (chk st)) as [[] c1|p c1] eqn:Henter.
  - left. erewrite bind_run by (apply call_run; exact Henter).
    match goal with
    | |- context [withDefer _ ?body ?st1] =>
        assert (logs insideScope body) as Hbody; [|destruct (Hbody st1) as (l & Hl & HP)]
    end.
    + apply logs_bind; [apply insideScope_app| |intros _].
      { apply logs_call. by repeat constructor. }
      apply logs_bind; [apply insideScope_app| |intros _].
      { apply logs_call. by repeat constructor. }
      apply logs_keeps; [constructor|].
      destruct (FunctionBlock_ function); [apply keeps_calls_block|apply keeps_ret].
    + exists l. split; [done|]. rewrite withDefer_call_log, Hl. simpl.
      unfold scoped. by rewrite <- !app_assoc.
  - right. exists p, c1. split; [done|]. apply bind_panic. unfold call. by rewrite Henter.
Qed.

Lemma forEachM_checkInterfaceFunction_scopes (helpers : Helpers) (interfaceType : Ptr)
    (declarationKind : DeclarationKind) (inResource : bool)
    (functions : list FunctionDeclaration) (st : St) :
  let outcome :=
    forEachM (checkInterfaceFunction helpers interfaceType declarationKind inResource)
      functions st in
  ∃ bodies : list (list Call),
    Forall insideScope bodies ∧ length bodies ≤ length functions ∧
    (calls (stateOf outcome) = calls st ++ concat (scoped <$> bodies) ∨
     ∃ p c c', enterValueScope helpers c = Panic p c' ∧
               outcome = Panic p {| chk := c';
                                    calls := calls st ++ concat (scoped <$> bodies) ++
                                             [CallEnterValueScope] |}).
Proof.
  revert st. induction functions as [|function rest IH]; intros st; simpl.
  - exists []. split; [constructor|]. split; [done|]. left. by rewrite app_nil_r.
  - destruct (checkInterfaceFunction_scope helpers interfaceType declarationKind inResource
                function st) as [(body & Hbody & Hlog)|(p & c' & Henter & Hpanic)].
    + unfold mbind, M_bind.
      destruct (checkInterfaceFunction _ _ _ _ _ st) as [[] st1|p st1]; simpl in Hlog.
      * destruct (IH st1) as (bodies & Hbodies & Hlen & Hrest).
        exists (body :: bodies). split; [by constructor|]. split; [simpl; lia|].
        rewrite fmap_cons, concat_cons.
        destruct Hrest as [Hrest|(p & c & c' & Henter & Hpanic)].
        -- left. by rewrite Hrest, Hlog, <- app_assoc.
        -- right. exists p, c, c'. split; [done|]. by rewrite Hpanic, Hlog, <- !app_assoc.
      * exists [body]. split; [by repeat constructor|]. split; [simpl; lia|].
        left. rewrite fmap_cons, concat_cons, fmap_nil, concat_nil. by rewrite app_nil_r.
    + exists []. split; [constructor|]. split; [simpl; lia|]. right.
      exists p, (chk st), c'. split; [done|]. by erewrite bind_panic by exact Hpanic.
Qed.

(** X6.  Value scopes are closed again, whatever happens: in every run of
    [checkInterfaceFunctions], returning or panicking, the calls it has made
    are a sequence of closed scopes, one per function reached: an
    [enterValueScope], calls that neither enter nor leave a value scope, and
    a [leaveValueScope], which is deferred and so is called also when a check
    inside the scope panics.  The one exception is a run that ends in a panic
    of [enterValueScope] itself: that scope is not left. *)
Theorem checkInterfaceFunctions_scopes_closed (helpers : Helpers)
    (functions : list FunctionDeclaration) (interfaceType : Ptr)
    (declarationKind : DeclarationKind) (st : St) :
  let outcome := checkInterfaceFunctions helpers functions interfaceType declarationKind st in
  ∃ bodies : list (list Call),
    Forall insideScope bodies ∧ length bodies ≤ length functions ∧
    (calls (stateOf outcome) = calls st ++ concat (scoped <$> bodies) ∨
     ∃ p c c', enterValueScope helpers c = Panic p c' ∧
               outcome = Panic p {| chk := c';
                                    calls := calls st ++ concat (scoped <$> bodies) ++
                                             [CallEnterValueScope] |}).
Proof.
  unfold checkInterfaceFunctions.
  pose proof (keeps_loadInterfaceType calls interfaceType st) as Hkeep.
  destruct (loadInterfaceType interfaceType st) as [it st1|p st1] eqn:Hload; simpl in Hkeep.
  - assert (st1 = st) as ->.
    { unfold loadInterfaceType in Hload. destruct (interfaceType ≫= _); congruence. }
    erewrite bind_run by exact Hload. apply forEachM_checkInterfaceFunction_scopes.
  - erewrite bind_panic by exact Hload.
    exists []. split; [constructor|]. split; [simpl; lia|]. left. simpl.
    by rewrite app_nil_r.
Qed.

End Scopes.

Section Faults.

Context `{Foreign}.

(** X7.  Phase 2 needs the interface type that phase 1 records for the
    declaration.  Without one, [VisitInterfaceDeclaration] never returns: it
    panics, having called at most the three opening checks, and none of the
    member checks.  When the opening checks return, the panic is the nil
    dereference of reading the nested types of the missing type, and exactly
    the three opening checks have been called. *)
Theorem VisitInterfaceDeclaration_undeclared_panics (helpers : Helpers)
    (rangeOrder : gmap string Ty -> list (string * Ty))
    (declaration : InterfaceDeclaration) (st : St)
    (Hundeclared : InterfaceDeclarationTypes (chk st) !! decl_addr declaration = None) :
  ∃ p st',
    VisitInterfaceDeclaration helpers rangeOrder declaration st = Panic p st' ∧
    (∃ n, calls st' = calls st ++ take n earlyCalls) ∧
    (earlyChecksComplete helpers → p = NilDereference ∧ calls st' = calls st ++ earlyCalls).
Proof.
  unfold VisitInterfaceDeclaration.
  rewrite (bind_run _ _ st st (@None positive)) by (unfold gets; by rewrite Hundeclared).
  erewrite bind_run by reflexivity.
  set (st0 := {| chk := set_containerTypes <[InterfaceTy None := true]> (chk st);
                 calls := calls st |}).
  destruct (checkDeclarationAccessModifier helpers (decl_Access declaration)
              (decl_DeclarationKind declaration) (decl_StartPos declaration) true false
              (chk st0)) as [[] c1|p c1] eqn:Hc1.
  2:{ eexists p, _. split.
      - apply withDefer_modify_panic, bind_panic. unfold call. by rewrite Hc1.
      - split; [exists 1; simpl; by rewrite <- ?app_assoc|]. intros (Haccess & _).
        destruct (Haccess (decl_Access declaration) (decl_DeclarationKind declaration)
                    (decl_StartPos declaration) true false (chk st0)) as (a & c' & Hok).
        congruence. }
  destruct (checkFieldsAccessModifier helpers (Fields (decl_Members declaration)) c1)
    as [[] c2|p c2] eqn:Hc2.
  2:{ eexists p, _. split.
      - apply withDefer_modify_panic.
        erewrite bind_run by (apply call_run; exact Hc1).
        apply bind_panic. unfold call. simpl. by rewrite Hc2.
      - split; [exists 2; simpl; by rewrite <- ?app_assoc|]. intros (_ & Hfields & _).
        destruct (Hfields (Fields (decl_Members declaration)) c1) as (a & c' & Hok).
        congruence. }
  destruct (checkNestedIdentifiers helpers (Fields (decl_Members declaration))
              (Functions (decl_Members declaration)) (decl_InterfaceDeclarations declaration)
              (decl_CompositeDeclarations declaration) c2) as [[] c3|p c3] eqn:Hc3.
  2:{ eexists p, _. split.
      - apply withDefer_modify_panic.
        erewrite bind_run by (apply call_run; exact Hc1).
        erewrite bind_run by (apply call_run; exact Hc2).
        apply bind_panic. unfold call. simpl. by rewrite Hc3.
      - split; [exists 3; simpl; by rewrite <- ?app_assoc|]. intros (_ & _ & Hidents).
        destruct (Hidents (Fields (decl_Members declaration))
                    (Functions (decl_Members declaration))
                    (decl_InterfaceDeclarations declaration)
                    (decl_CompositeDeclarations declaration) c2) as (a & c' & Hok).
        congruence. }
  eexists NilDereference, _. split.
  - apply withDefer_modify_panic.
    erewrite bind_run by (apply call_run; exact Hc1).
    erewrite bind_run by (apply call_run; exact Hc2).
    erewrite bind_run by (apply call_run; exact Hc3).
    erewrite bind_run by reflexivity.
    apply withDefer_modify_panic, bind_panic. reflexivity.
  - simpl. rewrite <- !app_assoc. split; [by exists 3|done].
Qed.

(** One step of the loop over the nested types, for an entry whose recorded
    declaration has an identifier. *)
Lemma declareNestedType_recorded (declaration : InterfaceDeclaration) (entry : string * Ty)
    (st : St) (nested : Declaration) :
  recordedDeclaration (chk st) declaration entry.1 = Some nested →
  is_Some (DeclarationIdentifier nested) →
  ∃ st', declareNestedType declaration entry st = Ok tt st' ∧
         InterfaceNestedDeclarations (chk st') = InterfaceNestedDeclarations (chk st) ∧
         calls st' = calls st.
Proof.
  unfold recordedDeclaration. intros Hrecorded [identifier Hid].
  destruct (InterfaceNestedDeclarations (chk st) !! decl_addr declaration) as [nd|] eqn:Hnd;
    [|done]. simpl in Hrecorded.
  destruct (declareNestedType_identified declaration entry st nd nested identifier)
    as (st' & Hrun & Hkeep & _); [done..|].
  exists st'. split; [done|]. split; [done|].
  pose proof (keeps_calls_declareNestedType declaration entry st) as Hcalls.
  by rewrite Hrun in Hcalls.
Qed.

Lemma declareNestedType_unrecorded (declaration : InterfaceDeclaration) (entry : string * Ty)
    (st : St) :
  recordedDeclaration (chk st) declaration entry.1 = None →
  declareNestedType declaration entry st = Panic NilDereference st.
Proof.
  unfold recordedDeclaration, declareNestedType. intros Hnone.
  erewrite bind_run by (unfold gets; rewrite Hnone; reflexivity). reflexivity.
Qed.

Lemma forEachM_declareNestedType_unrecorded (declaration : InterfaceDeclaration)
    (nds : gmap positive (gmap string Declaration)) (l : list (string * Ty)) :
  let recorded name := nds !! decl_addr declaration ≫= (fun m => m !! name) in
  (∀ entry nested, entry ∈ l → recorded entry.1 = Some nested →
                   is_Some (DeclarationIdentifier nested)) →
  (∃ entry, entry ∈ l ∧ recorded entry.1 = None) →
  ∀ st, InterfaceNestedDeclarations (chk st) = nds →
  ∃ st', forEachM (declareNestedType declaration) l st = Panic NilDereference st' ∧
         calls st' = calls st.
Proof.
  intros recorded. induction l as [|entry r IH]; intros Hall (bad & Hin & Hbad) st Hnds.
  - by apply elem_of_nil in Hin.
  - simpl. destruct (recorded entry.1) as [nested|] eqn:Hentry.
    + destruct (declareNestedType_recorded declaration entry st nested)
        as (st1 & Hrun & Hkeep & Hcalls).
      { unfold recordedDeclaration. by rewrite Hnds. }
      { apply (Hall entry); [by left|done]. }
      erewrite bind_run by exact Hrun.
      destruct IH with (st := st1) as (st' & Hrun' & Hcalls').
      * intros e n He. apply Hall. by right.
      * exists bad. split; [|done].
        apply elem_of_cons in Hin as [->|Hin]; [congruence|done].
      * by rewrite Hkeep.
      * exists st'. split; [done|]. by rewrite Hcalls'.
    + exists st. split; [|done]. apply bind_panic, declareNestedType_unrecorded.
      unfold recordedDeclaration. by rewrite Hnds.
Qed.

(** X8.  A nested type without a recorded declaration stops phase 2: when
    the interface type of the declaration has a nested type for whose name
    nothing is recorded, and every declaration that is recorded for a nested
    type has an identifier, [VisitInterfaceDeclaration] panics with a nil
    dereference, in whatever order the nested types are walked; only the
    three opening checks have been called (they are taken to return and to
    leave the type store and the recorded declarations alone). *)
Theorem VisitInterfaceDeclaration_unrecorded_nested_panics (helpers : Helpers)
    (rangeOrder : gmap string Ty -> list (string * Ty))
    (declaration : InterfaceDeclaration) (st : St)
    (a : positive) (it : InterfaceType) (name : string) (ty : Ty)
    (Hearly : earlyChecksKeepDeclarations helpers)
    (Htype : InterfaceDeclarationTypes (chk st) !! decl_addr declaration = Some a)
    (Hstore : interfaceTypes (chk st) !! a = Some it)
    (Hrange : rangeOrder (it_NestedTypes it) ≡ₚ map_to_list (it_NestedTypes it))
    (Hidentified : ∀ n t nested,
       it_NestedTypes it !! n = Some t →
       recordedDeclaration (chk st) declaration n = Some nested →
       is_Some (DeclarationIdentifier nested))
    (Hname : it_NestedTypes it !! name = Some ty)
    (Hmissing : recordedDeclaration (chk st) declaration name = None) :
  ∃ st', VisitInterfaceDeclaration helpers rangeOrder declaration st
           = Panic NilDereference st' ∧
         calls st' = calls st ++ earlyCalls.
Proof.
  destruct Hearly as (Haccess & Hfields & Hidents).
  unfold VisitInterfaceDeclaration.
  rewrite (bind_run _ _ st st (Some a)) by (unfold gets; by rewrite Htype).
  erewrite bind_run by reflexivity.
  set (st0 := {| chk := set_containerTypes <[InterfaceTy (Some a) := true]> (chk st);
                 calls := calls st |}).
  destruct (Haccess (decl_Access declaration) (decl_DeclarationKind declaration)
              (decl_StartPos declaration) true false (chk st0)) as (c1 & Hc1 & Ht1 & Hn1).
  destruct (Hfields (Fields (decl_Members declaration)) c1) as (c2 & Hc2 & Ht2 & Hn2).
  destruct (Hidents (Fields (decl_Members declaration)) (Functions (decl_Members declaration))
              (decl_InterfaceDeclarations declaration) (decl_CompositeDeclarations declaration) c2)
    as (c3 & Hc3 & Ht3 & Hn3).
  set (log3 := ((calls st0 ++ [CallCheckDeclarationAccessModifier]) ++
                 [CallCheckFieldsAccessModifier]) ++ [CallCheckNestedIdentifiers]).
  set (st4 := {| chk := set_typeActivations Enter c3; calls := log3 |}).
  destruct (forEachM_declareNestedType_unrecorded declaration
              (InterfaceNestedDeclarations (chk st)) (rangeOrder (it_NestedTypes it)))
    with (st := st4) as (st5 & Hloop & Hcalls5).
  { intros [n t] nested Hin. apply (Hidentified n t). apply elem_of_map_to_list.
    by rewrite <- Hrange. }
  { exists (name, ty). split; [|done]. rewrite Hrange. by apply elem_of_map_to_list. }
  { simpl. by rewrite Hn3, Hn2, Hn1. }
  eexists. split.
  - apply withDefer_modify_panic.
    erewrite bind_run by (apply call_run; exact Hc1).
    erewrite bind_run by (apply call_run; exact Hc2).
    erewrite bind_run by (apply call_run; exact Hc3).
    erewrite bind_run by reflexivity.
    apply withDefer_modify_panic.
    erewrite bind_run.
    + apply bind_panic. exact Hloop.
    + unfold loadInterfaceType. simpl. by rewrite Ht3, Ht2, Ht1; simpl; rewrite Hstore.
  - simpl. rewrite Hcalls5. unfold st4, log3, earlyCalls. simpl. by rewrite <- !app_assoc.
Qed.

End Faults.

Section Placeholder.

Context `{Foreign}.

Lemma sameCore_refl (t : InterfaceType) : sameCore t t.
Proof. by repeat split. Qed.

Lemma coreKept_same_types (c c' : Checker) :
  interfaceTypes c' = interfaceTypes c → coreKept c c'.
Proof. intros Heq b t Hb. exists t. rewrite Heq. split; [done|apply sameCore_refl]. Qed.

Lemma coreKept_trans (c1 c2 c3 : Checker) : coreKept c1 c2 → coreKept c2 c3 → coreKept c1 c3.
Proof.
  intros H12 H23 b t Hb. destruct (H12 b t Hb) as (t2 & Hb2 & Hs2).
  destruct (H23 b t2 Hb2) as (t3 & Hb3 & Hs3). exists t3. split; [done|].
  destruct Hs2 as (? & ? & ? & ? & ?), Hs3 as (? & ? & ? & ? & ?).
  repeat split; congruence.
Qed.

Lemma kc_bind {A B : Type} (m : M A) (f : A -> M B) :
  runKeepsCores m → (∀ a, runKeepsCores (f a)) → runKeepsCores (m ≫= f).
Proof.
  intros Hm Hf st b st' (a & st1 & Hrun1 & Hrun2)%bind_Ok.
  eapply coreKept_trans; [by eapply Hm|by eapply Hf].
Qed.

Lemma kc_withDefer {A : Type} (d : M unit) (body : M A) :
  runKeepsCores body → runKeepsCores d → runKeepsCores (withDefer d body).
Proof.
  intros Hb Hd st a st' (st1 & Hrun1 & Hrun2)%withDefer_Ok.
  eapply coreKept_trans; [by eapply Hb|by eapply Hd].
Qed.

Lemma kc_forEachM {A : Type} (f : A -> M unit) (l : list A) :
  (∀ x, runKeepsCores (f x)) → runKeepsCores (forEachM f l).
Proof.
  intros Hf. induction l as [|x r IH]; simpl.
  - intros st [] st' [= <-]. by apply coreKept_same_types.
  - apply kc_bind; [apply Hf|intros _; apply IH].
Qed.

Lemma kc_ret {A : Type} (a : A) : runKeepsCores (mret a).
Proof. intros st a' st' [= _ <-]. by apply coreKept_same_types. Qed.

Lemma kc_modify (f : Checker -> Checker) :
  (∀ c, interfaceTypes (f c) = interfaceTypes c) → runKeepsCores (modify f).
Proof. intros Hf st [] st' [= <-]. apply coreKept_same_types, Hf. Qed.

Lemma kc_report (err : option error) : runKeepsCores (report err).
Proof. destruct err; [by apply kc_modify|apply kc_ret]. Qed.

Lemma kc_DeclareType (identifier : Identifier) (ty : Ty) (kind : DeclarationKind)
    (access : Access) :
  runKeepsCores (DeclareType identifier ty kind access).
Proof. intros st r st' [= _ <-]. by apply coreKept_same_types. Qed.

Lemma kc_call {A : Type} (c : Call) (h : Checker -> Result Checker A) :
  keepsCores h → runKeepsCores (call c h).
Proof.
  intros Hh st a st'. unfold call. specialize (Hh (chk st)).
  destruct (h (chk st)) as [a1 c1|]; [|done]. intros [= _ <-]. by eapply Hh.
Qed.

Lemma kc_loadInterfaceType (p : Ptr) : runKeepsCores (loadInterfaceType p).
Proof.
  intros st t st'. unfold loadInterfaceType. destruct (p ≫= _); [|done].
  intros [= _ <-]. by apply coreKept_same_types.
Qed.

Lemma kc_loadCompositeType (p : Ptr) : runKeepsCores (loadCompositeType p).
Proof.
  intros st t st'. unfold loadCompositeType. destruct (p ≫= _); [|done].
  intros [= _ <-]. by apply coreKept_same_types.
Qed.

Lemma kc_storeInterfaceType (p : Ptr) (f : InterfaceType -> InterfaceType) :
  (∀ t, sameCore t (f t)) → runKeepsCores (storeInterfaceType p f).
Proof.
  intros Hf st [] st'. unfold storeInterfaceType. destruct p as [a|]; [|done].
  destruct (interfaceTypes (chk st) !! a) as [t|] eqn:Ha; [|done].
  intros [= <-] b t' Hb. simpl. destruct (decide (a = b)) as [<-|Hab].
  - rewrite lookup_insert_eq. exists (f t). split; [done|]. by simplify_eq.
  - rewrite lookup_insert_ne by done. exists t'. split; [done|apply sameCore_refl].
Qed.

Lemma kc_storeCompositeType (p : Ptr) (f : CompositeType -> CompositeType) :
  runKeepsCores (storeCompositeType p f).
Proof.
  intros st [] st'. unfold storeCompositeType. destruct p as [a|]; [|done].
  destruct (compositeTypes (chk st) !! a); [|done].
  intros [= <-]. by apply coreKept_same_types.
Qed.

(** Attaching a nested type writes the nested types of the container and the
    container of the nested type, nothing else. *)
Lemma kc_attachNestedInterfaceType (interfaceType nested : Ptr) :
  runKeepsCores (attachNestedInterfaceType interfaceType nested).
Proof.
  unfold attachNestedInterfaceType.
  apply kc_bind; [apply kc_loadInterfaceType|intros n].
  apply kc_bind; [apply kc_loadInterfaceType|intros it].
  apply kc_bind; [by apply kc_storeInterfaceType|intros _].
  by apply kc_storeInterfaceType.
Qed.

Lemma kc_attachNestedCompositeType (interfaceType nested : Ptr) :
  runKeepsCores (attachNestedCompositeType interfaceType nested).
Proof.
  unfold attachNestedCompositeType.
  apply kc_bind; [apply kc_loadCompositeType|intros n].
  apply kc_bind; [apply kc_loadInterfaceType|intros it].
  apply kc_bind; [by apply kc_storeInterfaceType|intros _].
  apply kc_storeCompositeType.
Qed.

(** Phase 1 from the allocation of the type on: the returned pointer is the
    allocated address, and the cores are kept from there. *)
Lemma declareInterfaceDeclaration_cores (helpers : Helpers)
    (declaration : InterfaceDeclaration) (st st' : St) (t : Ptr) :
  declarationHelpersKeepCores helpers →
  declareInterfaceDeclaration helpers declaration st = Ok t st' →
  let a := fresh (dom (interfaceTypes (chk st))) in
  t = Some a ∧
  coreKept
    (set_interfaceTypes
       <[a := {| it_Location := chk_Location (chk st);
                 it_Identifier := id_Identifier (decl_Identifier declaration);
                 it_CompositeKind := decl_CompositeKind declaration;
                 it_NestedTypes := ∅;
                 it_Members := ∅;
                 it_InitializerParameterTypeAnnotations := [];
                 it_ContainerType := None |}]> (chk st))
    (chk st').
Proof.
  intros [Hrecord Hvisit] Hrun a.
  unfold declareInterfaceDeclaration in Hrun.
  apply bind_Ok in Hrun as (location & s1 & [= <- <-] & Hrun).
  apply bind_Ok in Hrun as (a' & s2 & [= <- <-] & Hrun). cbv zeta in Hrun. fold a in Hrun.
  match type of Hrun with
  | ?m ?s2 = _ => assert (runKeepsCores m) as Hcores; [|pose proof (Hcores _ _ _ Hrun) as Hkept]
  end.
  { apply kc_bind; [apply kc_DeclareType|intros r].
    apply kc_bind; [apply kc_report|intros _].
    apply kc_bind; [apply kc_call, Hrecord|intros _].
    apply kc_bind; [|intros _].
    - apply kc_bind; [by apply kc_modify|intros _].
      apply kc_withDefer; [|by apply kc_modify].
      apply kc_bind; [by apply kc_modify|intros _].
      apply kc_withDefer; [|by apply kc_modify].
      apply kc_bind; [apply kc_call, Hvisit|intros nested].
      apply kc_bind; [by apply kc_modify|intros _].
      apply kc_bind; [apply kc_forEachM; intros p; apply kc_attachNestedInterfaceType|intros _].
      apply kc_forEachM. intros p. apply kc_attachNestedCompositeType.
    - apply kc_bind; [by apply kc_modify|intros _]. apply kc_ret. }
  split; [|exact Hkept].
  apply bind_Ok in Hrun as (r & s3 & _ & Hrun).
  apply bind_Ok in Hrun as ([] & s4 & _ & Hrun).
  apply bind_Ok in Hrun as ([] & s5 & _ & Hrun).
  apply bind_Ok in Hrun as ([] & s6 & _ & Hrun).
  by apply bind_Ok in Hrun as ([] & s7 & _ & [= <- _]).
Qed.

Lemma coreKept_allocated (a : positive) (t : InterfaceType) (c : Checker) :
  interfaceTypes c !! a = None → coreKept c (set_interfaceTypes <[a := t]> c).
Proof.
  intros Hfresh b t' Hb. exists t'. split; [|apply sameCore_refl].
  simpl. rewrite lookup_insert_ne; [done|]. intros <-. congruence.
Qed.

(** Phase 1 as a whole keeps the cores of the types that were there. *)
Lemma kc_declareInterfaceDeclaration (helpers : Helpers) (declaration : InterfaceDeclaration) :
  declarationHelpersKeepCores helpers →
  runKeepsCores (declareInterfaceDeclaration helpers declaration).
Proof.
  intros Hkeep st t st' Hrun.
  destruct (declareInterfaceDeclaration_cores _ _ _ _ _ Hkeep Hrun) as [_ Hkept].
  eapply coreKept_trans; [|exact Hkept].
  apply coreKept_allocated, not_elem_of_dom, is_fresh.
Qed.

(** X9.  Phase 1 leaves the members for phase 2.  Provided its two helpers
    keep, for every interface type already in the store, everything but the
    nested types and the container: when [declareInterfaceDeclaration]
    returns, it returns a type that was not in the store before; that type
    carries the location of the checker and the identifier and composite kind
    of the declaration, and has no members and no initializer parameter
    types; and every type that was in the store is still there, changed at
    most in its nested types and its container. *)
Theorem declareInterfaceDeclaration_placeholder (helpers : Helpers)
    (declaration : InterfaceDeclaration) (st st' : St) (t : Ptr)
    (Hkeep : declarationHelpersKeepCores helpers)
    (Hrun : declareInterfaceDeclaration helpers declaration st = Ok t st') :
  ∃ (a : positive) (placeholder : InterfaceType),
    t = Some a ∧
    interfaceTypes (chk st) !! a = None ∧
    interfaceTypes (chk st') !! a = Some placeholder ∧
    it_Location placeholder = chk_Location (chk st) ∧
    it_Identifier placeholder = id_Identifier (decl_Identifier declaration) ∧
    it_CompositeKind placeholder = decl_CompositeKind declaration ∧
    it_Members placeholder = ∅ ∧
    it_InitializerParameterTypeAnnotations placeholder = [] ∧
    coreKept (chk st) (chk st').
Proof.
  destruct (declareInterfaceDeclaration_cores _ _ _ _ _ Hkeep Hrun) as [-> Hkept].
  set (a := fresh (dom (interfaceTypes (chk st)))) in *.
  assert (interfaceTypes (chk st) !! a = None) as Hfresh
    by apply not_elem_of_dom, is_fresh.
  destruct (Hkept a) with (t := {|
      it_Location := chk_Location (chk st);
      it_Identifier := id_Identifier (decl_Identifier declaration);
      it_CompositeKind := decl_CompositeKind declaration;
      it_NestedTypes := ∅;
      it_Members := ∅;
      it_InitializerParameterTypeAnnotations := [];
      it_ContainerType := None |}) as (placeholder & Hplace & Hl & Hi & Hk & Hm & Hp).
  { apply lookup_insert_eq. }
  exists a, placeholder. repeat split; try done.
  eapply coreKept_trans; [|exact Hkept]. by apply coreKept_allocated.
Qed.

End Placeholder.

Section Kept.

Context `{Foreign} {X : Type} (obs : St -> list X).

Lemma keeps_Ok {A : Type} (m : M A) (st st' : St) (a : A) :
  keeps obs m → m st = Ok a st' → obs st' = obs st.
Proof. intros Hm Hrun. specialize (Hm st). by rewrite Hrun in Hm. Qed.

Lemma keeps_forEachM {A : Type} (f : A -> M unit) (l : list A) :
  (∀ x, keeps obs (f x)) → keeps obs (forEachM f l).
Proof.
  intros Hf. induction l as [|x r IH]; simpl; [done|].
  apply keeps_bind; [apply Hf|intros _; apply IH].
Qed.

Lemma keeps_loadCompositeType (p : Ptr) : keeps obs (loadCompositeType p).
Proof. intros st. unfold loadCompositeType. by destruct (p ≫= _). Qed.

Lemma keeps_storeCompositeType (p : Ptr) (f : CompositeType -> CompositeType) :
  (∀ g st, obs {| chk := set_compositeTypes g (chk st); calls := calls st |} = obs st) →
  keeps obs (storeCompositeType p f).
Proof.
  intros Hobs st. unfold storeCompositeType. destruct p as [a|]; [|done].
  destruct (compositeTypes (chk st) !! a); [apply Hobs|done].
Qed.

Lemma keeps_call {A : Type} (c : Call) (h : Checker -> Result Checker A) :
  (∀ st log, obs {| chk := chk st; calls := log |} = obs st) →
  (∀ st, obs {| chk := stateOf (h (chk st)); calls := calls st |} = obs st) →
  keeps obs (call c h).
Proof.
  intros Hlog Hh st. unfold call. specialize (Hh st).
  destruct (h (chk st)) as [a c'|p c']; simpl in *;
    by rewrite (Hlog {| chk := c'; calls := calls st |}).
Qed.

(** A panic of [m ≫= f] when [m] keeps the observation: the observation is
    what [f] made of it. *)
Lemma bind_panic_keeps {A B : Type} (m : M A) (f : A -> M B) :
  keeps obs m →
  (∀ a st p st', f a st = Panic p st' → obs st' = obs st) →
  ∀ st p st', (m ≫= f) st = Panic p st' → obs st' = obs st.
Proof.
  intros Hm Hf st p st'. specialize (Hm st). unfold mbind, M_bind.
  destruct (m st) as [a st1|p1 st1]; simpl in Hm.
  - intros Hrun. by rewrite (Hf _ _ _ _ Hrun).
  - by intros [= _ <-].
Qed.

End Kept.

Section Association.

Context `{Foreign}.

Lemma declareInterfaceDeclaration_associated (helpers : Helpers)
    (declaration : InterfaceDeclaration) (st st' : St) (t : Ptr) :
  declareInterfaceDeclaration helpers declaration st = Ok t st' →
  InterfaceDeclarationTypes (chk st') !! decl_addr declaration = t.
Proof.
  unfold declareInterfaceDeclaration. intros Hrun.
  apply bind_Ok in Hrun as (location & s1 & _ & Hrun).
  apply bind_Ok in Hrun as (a & s2 & _ & Hrun). cbv zeta in Hrun.
  apply bind_Ok in Hrun as (r & s3 & _ & Hrun).
  apply bind_Ok in Hrun as ([] & s4 & _ & Hrun).
  apply bind_Ok in Hrun as ([] & s5 & _ & Hrun).
  apply bind_Ok in Hrun as ([] & s6 & _ & Hrun).
  apply bind_Ok in Hrun as ([] & s7 & [= <-] & [= <- <-]).
  simpl. apply lookup_insert_eq.
Qed.

(** X10.  The two phases meet at the association of the declaration with its
    type: when phase 1 returns, the declaration is associated with the type
    it returns; and a run of phase 2 from there that returns has worked on
    that type: it is the type handed to [membersAndOrigins],
    [checkInitializers], [checkDestructors] and [declareSelfValue]. *)
Theorem phase2_works_on_type_of_phase1 (helpers : Helpers)
    (rangeOrder : gmap string Ty -> list (string * Ty))
    (declaration : InterfaceDeclaration) (st st1 st2 : St) (t : Ptr)
    (Hphase1 : declareInterfaceDeclaration helpers declaration st = Ok t st1)
    (Hphase2 : VisitInterfaceDeclaration helpers rangeOrder declaration st1 = Ok tt st2) :
  InterfaceDeclarationTypes (chk st1) !! decl_addr declaration = t ∧
  calls st2 = calls st1 ++ phase2Calls t declaration.
Proof.
  pose proof (declareInterfaceDeclaration_associated _ _ _ _ _ Hphase1) as Hassociated.
  split; [done|]. by eapply VisitInterfaceDeclaration_calls.
Qed.

(** X11.  The association is the last thing phase 1 writes.  Provided its two
    helpers leave the association of the declaration alone: when
    [declareInterfaceDeclaration] panics, the declaration is associated with
    what it was associated with before, so a declaration that had no type
    still has none. *)
Theorem declareInterfaceDeclaration_panic_not_associated (helpers : Helpers)
    (declaration : InterfaceDeclaration) (st st' : St) (p : PanicValue)
    (Hkeep : declarationHelpersKeepAssociation helpers declaration)
    (Hpanic : declareInterfaceDeclaration helpers declaration st = Panic p st') :
  InterfaceDeclarationTypes (chk st') !! decl_addr declaration =
  InterfaceDeclarationTypes (chk st) !! decl_addr declaration.
Proof.
  destruct Hkeep as [Hrecord Hvisit].
  set (obs := fun s : St => [InterfaceDeclarationTypes (chk s) !! decl_addr declaration]).
  enough (obs st' = obs st) as [= Hobs] by done.
  revert st p st' Hpanic. unfold declareInterfaceDeclaration.
  apply bind_panic_keeps; [apply keeps_gets|intros location].
  apply bind_panic_keeps; [by intros st|intros a]. cbv zeta.
  apply bind_panic_keeps; [by intros st|intros r].
  apply bind_panic_keeps; [by destruct (r.2)|intros _].
  apply bind_panic_keeps; [|intros _].
  { apply keeps_call; [done|]. intros st. unfold obs. simpl. by rewrite Hrecord. }
  apply bind_panic_keeps; [|intros _].
  { apply keeps_bind; [by apply keeps_modify|intros _].
    apply keeps_withDefer; [|by apply keeps_modify].
    apply keeps_bind; [by apply keeps_modify|intros _].
    apply keeps_withDefer; [|by apply keeps_modify].
    apply keeps_bind; [|intros nested].
    { apply keeps_call; [done|]. intros st. unfold obs. simpl. by rewrite Hvisit. }
    apply keeps_bind; [by apply keeps_modify|intros _].
    apply keeps_bind; [|intros _]; apply keeps_forEachM; intros nestedType.
    - unfold attachNestedInterfaceType.
      apply keeps_bind; [apply keeps_loadInterfaceType|intros n].
      apply keeps_bind; [apply keeps_loadInterfaceType|intros it].
      apply keeps_bind; [by apply keeps_storeInterfaceType|intros _].
      by apply keeps_storeInterfaceType.
    - unfold attachNestedCompositeType.
      apply keeps_bind; [apply keeps_loadCompositeType|intros n].
      apply keeps_bind; [apply keeps_loadInterfaceType|intros it].
      apply keeps_bind; [by apply keeps_storeInterfaceType|intros _].
      by apply keeps_storeCompositeType. }
  intros st p st'. by unfold mbind, M_bind, modify, mret, M_ret.
Qed.

End Association.

Section Finalizing.

Context `{Foreign}.

Lemma call_Ok {A : Type} (c : Call) (h : Checker -> Result Checker A) (st st' : St) (a : A) :
  call c h st = Ok a st' → h (chk st) = Ok a (chk st').
Proof. unfold call. destruct (h (chk st)); [|done]. by intros [= <- <-]. Qed.

Lemma storeInterfaceType_Ok (a : positive) (f : InterfaceType -> InterfaceType) (st st' : St) :
  storeInterfaceType (Some a) f st = Ok tt st' →
  ∃ t, interfaceTypes (chk st) !! a = Some t ∧
       interfaceTypes (chk st') = <[a := f t]> (interfaceTypes (chk st)).
Proof.
  unfold storeInterfaceType. destruct (interfaceTypes (chk st) !! a) as [t|]; [|done].
  intros [= <-]. by exists t.
Qed.

Lemma keeps_type_call {A : Type} (a : positive) (c : Call) (h : Checker -> Result Checker A) :
  keepsTypeAt a h → keeps (fun s : St => [interfaceTypes (chk s) !! a]) (call c h).
Proof. intros Hh. apply keeps_call; [done|]. intros st. simpl. by rewrite Hh. Qed.

Lemma keeps_type_declareNestedType (a : positive) (declaration : InterfaceDeclaration)
    (entry : string * Ty) :
  keeps (fun s : St => [interfaceTypes (chk s) !! a]) (declareNestedType declaration entry).
Proof.
  unfold declareNestedType. apply keeps_bind; [apply keeps_gets|intros [nested|]];
    [|apply keeps_panic].
  destruct (DeclarationIdentifier nested); [|apply keeps_panic].
  apply keeps_bind; [done|intros r]. by destruct (r.2).
Qed.

Lemma keeps_type_checkInterfaceFunctions (helpers : Helpers) (a : positive)
    (functions : list FunctionDeclaration) (interfaceType : Ptr)
    (declarationKind : DeclarationKind) :
  phase2HelpersKeepType helpers a →
  keeps (fun s : St => [interfaceTypes (chk s) !! a])
    (checkInterfaceFunctions helpers functions interfaceType declarationKind).
Proof.
  intros (_ & _ & _ & _ & _ & _ & _ & _ & Henter & Hleave & Hself & Hvisit & _).
  unfold checkInterfaceFunctions.
  apply keeps_bind; [apply keeps_loadInterfaceType|intros it].
  apply keeps_forEachM. intros function. unfold checkInterfaceFunction.
  apply keeps_bind; [by apply keeps_type_call|intros _].
  apply keeps_withDefer; [|by apply keeps_type_call].
  apply keeps_bind; [by apply keeps_type_call|intros _].
  apply keeps_bind; [by apply keeps_type_call|intros _].
  destruct (FunctionBlock_ function) as [block|]; [|apply keeps_ret].
  intros st.
  by rewrite (checkInterfaceSpecialFunctionBlock_state block declarationKind
                DeclarationKindFunction st).
Qed.

(** X12.  What phase 2 writes into the interface type.  Provided the helpers
    leave alone what the store holds for the type of the declaration: when
    [VisitInterfaceDeclaration] returns, that type is the type it found, with
    its members replaced by the members [membersAndOrigins] returned and its
    initializer parameter types replaced by what
    [initializerParameterTypeAnnotations] returned; its location, identifier,
    composite kind, nested types and container are untouched. *)
Theorem VisitInterfaceDeclaration_finalizes_type (helpers : Helpers)
    (rangeOrder : gmap string Ty -> list (string * Ty))
    (declaration : InterfaceDeclaration) (st st' : St) (a : positive) (it : InterfaceType)
    (Hkeep : phase2HelpersKeepType helpers a)
    (Htype : InterfaceDeclarationTypes (chk st) !! decl_addr declaration = Some a)
    (Hstore : interfaceTypes (chk st) !! a = Some it)
    (Hrun : VisitInterfaceDeclaration helpers rangeOrder declaration st = Ok tt st') :
  ∃ (c1 c1' c2 c2' : Checker) (members : gmap string Member) (origins : Origins)
    (annotations : list TypeAnnotation),
    membersAndOrigins helpers (Some a) (Fields (decl_Members declaration))
      (Functions (decl_Members declaration)) false c1 = Ok (members, origins) c1' ∧
    initializerParameterTypeAnnotations helpers
      (Initializers helpers (decl_Members declaration)) c2 = Ok annotations c2' ∧
    interfaceTypes (chk st') !! a =
      Some (set_it_InitializerParameterTypeAnnotations annotations (set_it_Members members it)).
Proof.
  pose proof Hkeep as (Haccess & Hfields & Hidents & Hmembers & Hannotations & Hinit &
                       Hdestr & Hunknown & _ & _ & _ & _ & Hnesting & Hsupport).
  set (obs := fun s : St => [interfaceTypes (chk s) !! a]).
  unfold VisitInterfaceDeclaration in Hrun.
  rewrite (bind_run _ _ st st (Some a)) in Hrun by (unfold gets; by rewrite Htype).
  erewrite bind_run in Hrun by reflexivity.
  apply withDefer_Ok in Hrun as (s1 & Hrun & [= <-]).
  apply bind_Ok in Hrun as ([] & sa & [= Ha]%(keeps_Ok obs) & Hrun);
    [|by apply keeps_type_call].
  apply bind_Ok in Hrun as ([] & sb & [= Hb]%(keeps_Ok obs) & Hrun);
    [|by apply keeps_type_call].
  apply bind_Ok in Hrun as ([] & sc & [= Hc]%(keeps_Ok obs) & Hrun);
    [|by apply keeps_type_call].
  apply bind_Ok in Hrun as ([] & sd & [= <-] & Hrun).
  apply withDefer_Ok in Hrun as (s2 & Hrun & [= <-]).
  apply bind_Ok in Hrun as (it0 & se & [= He]%(keeps_Ok obs) & Hrun);
    [|apply keeps_loadInterfaceType].
  apply bind_Ok in Hrun as ([] & sf & [= Hf]%(keeps_Ok obs) & Hrun);
    [|apply keeps_forEachM; intros entry; apply keeps_type_declareNestedType].
  apply bind_Ok in Hrun as ([members origins] & sg & Hcall1 & Hrun).
  pose proof (keeps_Ok obs _ _ _ _ (keeps_type_call a _ _ (Hmembers _ _ _ _)) Hcall1)
    as [= Hg].
  apply call_Ok in Hcall1.
  apply bind_Ok in Hrun as ([] & sh & (t1 & Ht1 & Hh)%storeInterfaceType_Ok & Hrun).
  apply bind_Ok in Hrun as (annotations & si & Hcall2 & Hrun).
  pose proof (keeps_Ok obs _ _ _ _ (keeps_type_call a _ _ (Hannotations _)) Hcall2)
    as [= Hi].
  apply call_Ok in Hcall2.
  apply bind_Ok in Hrun as ([] & sj & (t2 & Ht2 & Hj)%storeInterfaceType_Ok & Hrun).
  apply bind_Ok in Hrun as ([] & sk & [= <-] & Hrun).
  match type of Hrun with
  | ?m _ = _ => assert (keeps obs m) as Hrest
  end.
  { apply keeps_bind; [apply keeps_loadInterfaceType|intros it1].
    apply keeps_bind; [by apply keeps_type_call|intros _].
    apply keeps_bind; [apply keeps_loadInterfaceType|intros it2].
    apply keeps_bind; [by apply keeps_type_call|intros _].
    apply keeps_bind; [by apply keeps_type_call|intros _].
    apply keeps_bind; [by apply keeps_type_checkInterfaceFunctions|intros _].
    apply keeps_bind; [apply keeps_loadInterfaceType|intros it3].
    apply keeps_bind; [by apply keeps_type_call|intros _].
    by apply keeps_type_call. }
  apply (keeps_Ok obs _ _ _ _ Hrest) in Hrun as [= Hlast].
  eexists _, _, _, _, members, origins, annotations.
  split; [exact Hcall1|]. split; [exact Hcall2|].
  simpl in *. rewrite Hlast, Hj, lookup_insert_eq. do 2 f_equal.
  rewrite Hi, Hh, lookup_insert_eq in Ht2. injection Ht2 as <-. f_equal.
  rewrite Hg, Hf, He, Hc, Hb, Ha, Hstore in Ht1. by injection Ht1 as <-.
Qed.

End Finalizing.

Import SemaExamples SemaSequenceExamples.

#[local] Existing Instance unitForeign.

Lemma VisitInterfaceDeclaration_call_order_witness :
  calls (stateOf (VisitInterfaceDeclaration nestingHelpers map_to_list contractWithFunctions
                    contractDeclared)) =
  calls contractDeclared ++
    phase2Calls (InterfaceDeclarationTypes (chk contractDeclared)
                   !! decl_addr contractWithFunctions) contractWithFunctions.
Proof.
  apply (VisitInterfaceDeclaration_call_order nestingHelpers map_to_list contractWithFunctions
           contractDeclared).
  vm_compute. reflexivity.
Defined.

Lemma acceptingHelpers_early_checks_complete : earlyChecksComplete acceptingHelpers.
Proof. repeat split; intros; intros c; by exists tt, c. Qed.

Lemma VisitInterfaceDeclaration_undeclared_panics_witness :
  ∃ st', VisitInterfaceDeclaration acceptingHelpers map_to_list structInterface freshState
           = Panic NilDereference st' ∧
         calls st' = calls freshState ++ earlyCalls.
Proof.
  destruct (VisitInterfaceDeclaration_undeclared_panics acceptingHelpers map_to_list
              structInterface freshState eq_refl) as (p & st' & Hrun & _ & Hcomplete).
  destruct (Hcomplete acceptingHelpers_early_checks_complete) as [-> Hcalls].
  by exists st'.
Defined.

Lemma acceptingHelpers_keep_declarations : earlyChecksKeepDeclarations acceptingHelpers.
Proof. repeat split; intros; intros c; by exists c. Qed.

Lemma VisitInterfaceDeclaration_unrecorded_nested_panics_witness :
  ∃ st', VisitInterfaceDeclaration acceptingHelpers map_to_list structInterface unrecordedState
           = Panic NilDereference st' ∧
         calls st' = calls unrecordedState ++ earlyCalls.
Proof.
  apply (VisitInterfaceDeclaration_unrecorded_nested_panics acceptingHelpers map_to_list
           structInterface unrecordedState 1%positive typeWithTwoNested
           "N" (InterfaceTy (Some 3%positive))).
  - exact acceptingHelpers_keep_declarations.
  - reflexivity.
  - reflexivity.
  - reflexivity.
  - intros n t nested _ Hrecorded. unfold recordedDeclaration in Hrecorded.
    simpl in Hrecorded. rewrite lookup_singleton_eq in Hrecorded. simpl in Hrecorded.
    apply lookup_singleton_Some in Hrecorded as [_ <-]. by eexists.
  - reflexivity.
  - reflexivity.
Defined.

Lemma withoutLog_keepsCores {A : Type} (m : M A) : runKeepsCores m → keepsCores (withoutLog m).
Proof.
  intros Hm c a c'. unfold withoutLog.
  destruct (m {| chk := c; calls := [] |}) as [a1 s1|] eqn:Hrun; [|done].
  intros [= _ <-]. by apply (Hm _ _ _ Hrun).
Qed.

Lemma acceptingHelpers_keep_cores : declarationHelpersKeepCores acceptingHelpers.
Proof. split; intros; intros c a c' [= _ <-]; by apply coreKept_same_types. Qed.

Lemma nestingHelpers_keep_cores : declarationHelpersKeepCores nestingHelpers.
Proof.
  split.
  - intros name variable c a c' [= _ <-]. by apply coreKept_same_types.
  - intros kind declarationKind composites interfaces. apply withoutLog_keepsCores.
    apply kc_bind; [|intros nested; apply kc_ret].
    induction interfaces as [|d r IH]; simpl; [apply kc_ret|].
    apply kc_bind; [apply kc_declareInterfaceDeclaration, acceptingHelpers_keep_cores|intros t].
    apply kc_bind; [apply IH|intros rest; apply kc_ret].
Qed.

Lemma declareInterfaceDeclaration_placeholder_witness :
  let st' := stateOf (declareInterfaceDeclaration nestingHelpers contractWithTwoNested
                        freshState) in
  ∃ (a : positive) (placeholder : InterfaceType),
    Some 1%positive = Some a ∧
    interfaceTypes (chk freshState) !! a = None ∧
    interfaceTypes (chk st') !! a = Some placeholder ∧
    it_Location placeholder = chk_Location (chk freshState) ∧
    it_Identifier placeholder = id_Identifier (decl_Identifier contractWithTwoNested) ∧
    it_CompositeKind placeholder = decl_CompositeKind contractWithTwoNested ∧
    it_Members placeholder = ∅ ∧
    it_InitializerParameterTypeAnnotations placeholder = [] ∧
    coreKept (chk freshState) (chk st').
Proof.
  intros st'.
  apply (declareInterfaceDeclaration_placeholder nestingHelpers contractWithTwoNested
           freshState st' (Some 1%positive) nestingHelpers_keep_cores).
  vm_compute. reflexivity.
Defined.

Lemma phase2_works_on_type_of_phase1_witness :
  let st1 := stateOf (declareInterfaceDeclaration acceptingHelpers structWithFunctions
                        freshState) in
  let st2 := stateOf (VisitInterfaceDeclaration acceptingHelpers map_to_list
                        structWithFunctions st1) in
  InterfaceDeclarationTypes (chk st1) !! decl_addr structWithFunctions = Some 1%positive ∧
  calls st2 = calls st1 ++ phase2Calls (Some 1%positive) structWithFunctions.
Proof.
  intros st1 st2.
  apply (phase2_works_on_type_of_phase1 acceptingHelpers map_to_list structWithFunctions
           freshState st1 st2 (Some 1%positive)); vm_compute; reflexivity.
Defined.

Lemma nilNestingHelpers_keep_association (declaration : InterfaceDeclaration) :
  declarationHelpersKeepAssociation nilNestingHelpers declaration.
Proof. split; intros; intros c; reflexivity. Qed.

Lemma declareInterfaceDeclaration_panic_not_associated_witness :
  let outcome := declareInterfaceDeclaration nilNestingHelpers structInterface freshState in
  outcome = Panic NilDereference (stateOf outcome) ∧
  InterfaceDeclarationTypes (chk (stateOf outcome)) !! decl_addr structInterface =
  InterfaceDeclarationTypes (chk freshState) !! decl_addr structInterface.
Proof.
  intros outcome.
  assert (outcome = Panic NilDereference (stateOf outcome)) as Hpanic
    by (vm_compute; reflexivity).
  split; [exact Hpanic|].
  exact (declareInterfaceDeclaration_panic_not_associated nilNestingHelpers structInterface
           freshState (stateOf outcome) NilDereference
           (nilNestingHelpers_keep_association structInterface) Hpanic).
Defined.

Lemma findingHelpers_keep_type (a : positive) : phase2HelpersKeepType findingHelpers a.
Proof. repeat split; intros; intros c; reflexivity. Qed.

Lemma VisitInterfaceDeclaration_finalizes_type_witness :
  let st' := stateOf (VisitInterfaceDeclaration findingHelpers map_to_list contractWithFunctions
                        contractDeclared) in
  ∃ (c1 c1' c2 c2' : Checker) (members : gmap string Member) (origins : Origins)
    (annotations : list TypeAnnotation),
    membersAndOrigins findingHelpers (Some 1%positive)
      (Fields (decl_Members contractWithFunctions))
      (Functions (decl_Members contractWithFunctions)) false c1 = Ok (members, origins) c1' ∧
    initializerParameterTypeAnnotations findingHelpers
      (Initializers findingHelpers (decl_Members contractWithFunctions)) c2
      = Ok annotations c2' ∧
    interfaceTypes (chk st') !! 1%positive =
      Some (set_it_InitializerParameterTypeAnnotations annotations
              (set_it_Members members contractType)).
Proof.
  intros st'.
  apply (VisitInterfaceDeclaration_finalizes_type findingHelpers map_to_list
           contractWithFunctions contractDeclared st' 1%positive contractType
           (findingHelpers_keep_type 1%positive)); vm_compute; reflexivity.
Defined.

End SemaSequenceFacts.

(** * Part VI: the flag, the destructor check and sibling declarations *)

Module SemaPhaseFacts.

Import Sema SemaProperties SemaSequence SemaPhases SemaFacts SemaSequenceFacts.

Section Agreement.

Context `{Foreign} (P : St -> Prop).

Lemma agree_sameOn {A : Type} (m1 m2 : M A) : agree P m1 m2 → sameOn P m1 m2.
Proof. intros Hm st Hst. by apply Hm. Qed.

Lemma agree_kept {A : Type} (m : M A) : (∀ st, P st → P (stateOf (m st))) → agree P m m.
Proof. intros Hm st Hst. split; [done|by apply Hm]. Qed.

Lemma agree_bind {A B : Type} (m1 m2 : M A) (f1 f2 : A -> M B) :
  agree P m1 m2 → (∀ a, agree P (f1 a) (f2 a)) → agree P (m1 ≫= f1) (m2 ≫= f2).
Proof.
  intros Hm Hf st Hst. destruct (Hm st Hst) as [Heq HP]. unfold mbind, M_bind.
  rewrite <- Heq. destruct (m1 st) as [a st1|p st1]; simpl in HP; [|done].
  by apply Hf.
Qed.

Lemma agree_withDefer {A : Type} (d1 d2 : M unit) (body1 body2 : M A) :
  agree P body1 body2 → agree P d1 d2 → agree P (withDefer d1 body1) (withDefer d2 body2).
Proof.
  intros Hb Hd st Hst. destruct (Hb st Hst) as [Heq HP]. unfold withDefer.
  rewrite <- Heq. destruct (body1 st) as [a st1|p st1]; simpl in HP;
    destruct (Hd st1 HP) as [Heqd HPd]; rewrite <- Heqd;
    by destruct (d1 st1).
Qed.

Lemma agree_forEachM {A : Type} (f1 f2 : A -> M unit) (l : list A) :
  (∀ x, agree P (f1 x) (f2 x)) → agree P (forEachM f1 l) (forEachM f2 l).
Proof.
  intros Hf. induction l as [|x r IH]; simpl; [by apply agree_kept|].
  apply agree_bind; [apply Hf|intros _; apply IH].
Qed.

Lemma sameOn_bind {A B : Type} (m1 m2 : M A) (f1 f2 : A -> M B) :
  agree P m1 m2 → (∀ a, sameOn P (f1 a) (f2 a)) → sameOn P (m1 ≫= f1) (m2 ≫= f2).
Proof.
  intros Hm Hf st Hst. destruct (Hm st Hst) as [Heq HP]. unfold mbind, M_bind.
  rewrite <- Heq. destruct (m1 st) as [a st1|p st1]; simpl in HP; [|done].
  by apply Hf.
Qed.

Lemma sameOn_withDefer {A : Type} (d : M unit) (body1 body2 : M A) :
  sameOn P body1 body2 → sameOn P (withDefer d body1) (withDefer d body2).
Proof. intros Hb st Hst. unfold withDefer. by rewrite (Hb st Hst). Qed.

End Agreement.

Section AgreementOnChecker.

Context `{Foreign} (Q : Checker -> Prop).

Lemma agree_call {A : Type} (c : Call) (h1 h2 : Checker -> Result Checker A) :
  (∀ c0, Q c0 → h1 c0 = h2 c0) → (∀ c0, Q c0 → Q (stateOf (h1 c0))) →
  agree (fun st => Q (chk st)) (call c h1) (call c h2).
Proof.
  intros Heq HQ st Hst. unfold call. rewrite <- (Heq _ Hst). specialize (HQ _ Hst).
  by destruct (h1 (chk st)).
Qed.

Lemma agree_modify (f : Checker -> Checker) :
  (∀ c0, Q c0 → Q (f c0)) → agree (fun st => Q (chk st)) (modify f) (modify f).
Proof. intros Hf. apply agree_kept. intros st. apply Hf. Qed.

Lemma agree_gets {A : Type} (f : Checker -> A) :
  agree (fun st => Q (chk st)) (gets f) (gets f).
Proof. by apply agree_kept. Qed.

Lemma agree_ret {A : Type} (a : A) : agree (fun st => Q (chk st)) (mret a) (mret a).
Proof. by apply agree_kept. Qed.

Lemma agree_panic {A : Type} (p : PanicValue) :
  agree (fun st => Q (chk st)) (panic (A := A) p) (panic p).
Proof. by apply agree_kept. Qed.

Lemma agree_loadInterfaceType (p : Ptr) :
  agree (fun st => Q (chk st)) (loadInterfaceType p) (loadInterfaceType p).
Proof. apply agree_kept. intros st. unfold loadInterfaceType. by destruct (p ≫= _). Qed.

Lemma agree_storeInterfaceType (p : Ptr) (f : InterfaceType -> InterfaceType) :
  (∀ a t c0, Q c0 → interfaceTypes c0 !! a = Some t → p = Some a →
             Q (set_interfaceTypes <[a := f t]> c0)) →
  agree (fun st => Q (chk st)) (storeInterfaceType p f) (storeInterfaceType p f).
Proof.
  intros Hf. apply agree_kept. intros st Hst. unfold storeInterfaceType.
  destruct p as [a|]; [|done].
  destruct (interfaceTypes (chk st) !! a) as [t|] eqn:Ha; [|done]. simpl. by eapply Hf.
Qed.

Lemma agree_report (err : option error) :
  (∀ g c0, Q c0 → Q (set_errors g c0)) →
  agree (fun st => Q (chk st)) (report err) (report err).
Proof. intros Hf. destruct err; [by apply agree_modify; intros; apply Hf|apply agree_ret]. Qed.

Lemma agree_declareNestedType (declaration : InterfaceDeclaration) (entry : string * Ty) :
  (∀ g c0, Q c0 → Q (set_errors g c0)) →
  (∀ g c0, Q c0 → Q (set_typeActivations g c0)) →
  agree (fun st => Q (chk st)) (declareNestedType declaration entry)
    (declareNestedType declaration entry).
Proof.
  intros He Ht. unfold declareNestedType.
  apply agree_bind; [apply agree_gets|intros [nested|]]; [|apply agree_panic].
  destruct (DeclarationIdentifier nested); [|apply agree_panic].
  apply agree_bind; [|intros r; by apply agree_report].
  apply agree_kept. intros st Hst. simpl. by apply Ht.
Qed.

Lemma agree_block (block : FunctionBlock) (containerKind implementedKind : DeclarationKind) :
  (∀ g c0, Q c0 → Q (set_errors g c0)) →
  agree (fun st => Q (chk st))
    (checkInterfaceSpecialFunctionBlock block containerKind implementedKind)
    (checkInterfaceSpecialFunctionBlock block containerKind implementedKind).
Proof.
  intros He. apply agree_kept. intros st Hst.
  rewrite checkInterfaceSpecialFunctionBlock_state. simpl. by apply He.
Qed.

End AgreementOnChecker.

Section Flag.

Context `{Foreign}.

Lemma agree_checkInterfaceFunctions (ty : Ty) (helpers helpers' : Helpers)
    (functions : list FunctionDeclaration) (interfaceType : Ptr)
    (declarationKind : DeclarationKind) :
  helpersKeepFlag ty helpers →
  helpersAgreeWhenFlagged ty helpers helpers' →
  agree (fun st => flagged ty (chk st))
    (checkInterfaceFunctions helpers' functions interfaceType declarationKind)
    (checkInterfaceFunctions helpers functions interfaceType declarationKind).
Proof.
  intros (_ & _ & _ & _ & _ & _ & _ & _ & Kenter & Kleave & Kself & Kvisit & _)
         ((_ & _ & _ & _ & _ & _ & _ & _ & Aenter & Aleave & Aself & Avisit & _) & _).
  assert (∀ A (h h' : Checker -> Result Checker A) c,
            (∀ c0, flagged ty c0 → h' c0 = h c0) →
            (∀ c0, flagged ty c0 → flagged ty (stateOf (h c0))) →
            agree (fun st => flagged ty (chk st)) (call c h') (call c h)) as Hcall.
  { intros A h h' c Heq Hkeep. apply agree_call; [done|].
    intros c0 Hc0. rewrite Heq by done. by apply Hkeep. }
  cbv beta in *. unfold checkInterfaceFunctions.
  apply agree_bind; [apply agree_loadInterfaceType|intros it].
  apply agree_forEachM. intros function. unfold checkInterfaceFunction.
  apply agree_bind; [(apply Hcall; auto)|intros _].
  apply agree_withDefer; [|(apply Hcall; auto)].
  apply agree_bind; [(apply Hcall; auto)|intros _].
  apply agree_bind; [(apply Hcall; auto)|intros _].
  destruct (FunctionBlock_ function) as [block|]; [by apply agree_block|apply agree_ret].
Qed.

(** While the flag is set and the helpers keep it, phase 2 after the write
    of the flag depends on the helpers only through what they do in states
    in which the flag is set. *)
Lemma VisitInterfaceDeclaration_flagged_runs (helpers helpers' : Helpers)
    (rangeOrder : gmap string Ty -> list (string * Ty))
    (declaration : InterfaceDeclaration) (st : St) :
  let ty := InterfaceTy (InterfaceDeclarationTypes (chk st) !! decl_addr declaration) in
  helpersKeepFlag ty helpers →
  helpersAgreeWhenFlagged ty helpers helpers' →
  VisitInterfaceDeclaration helpers' rangeOrder declaration st =
  VisitInterfaceDeclaration helpers rangeOrder declaration st.
Proof.
  intros ty Hkeep Hagree.
  pose proof Hkeep as (Kaccess & Kfields & Kidents & Kmembers & Kannotations & Kinit &
                       Kdestr & Kunknown & _ & _ & _ & _ & Knesting & Ksupport).
  pose proof Hagree as ((Aaccess & Afields & Aidents & Amembers & Aannotations & Ainit &
                         Adestr & Aunknown & _ & _ & _ & _ & Anesting & Asupport) &
                        Ainitializers & Adestructors & AfieldsBy).
  assert (∀ A (h h' : Checker -> Result Checker A) c,
            (∀ c0, flagged ty c0 → h' c0 = h c0) →
            (∀ c0, flagged ty c0 → flagged ty (stateOf (h c0))) →
            agree (fun st => flagged ty (chk st)) (call c h') (call c h)) as Hcall.
  { intros A h h' c Heq Hkept. apply agree_call; [done|].
    intros c0 Hc0. rewrite Heq by done. by apply Hkept. }
  cbv beta in *. unfold VisitInterfaceDeclaration.
  rewrite !(bind_run (A := Ptr) _ _ st st
              (InterfaceDeclarationTypes (chk st) !! decl_addr declaration)) by reflexivity.
  erewrite !bind_run by reflexivity.
  rewrite Ainitializers, Adestructors, AfieldsBy.
  apply sameOn_withDefer with (P := fun st => flagged ty (chk st));
    [|apply lookup_insert_eq].
  apply agree_sameOn.
  apply agree_bind; [(apply Hcall; auto)|intros _].
  apply agree_bind; [(apply Hcall; auto)|intros _].
  apply agree_bind; [(apply Hcall; auto)|intros _].
  apply agree_bind; [by apply agree_modify|intros _].
  apply agree_withDefer; [|by apply agree_modify].
  apply agree_bind; [apply agree_loadInterfaceType|intros it0].
  apply agree_bind; [apply agree_forEachM; intros entry; by apply agree_declareNestedType
                    |intros _].
  apply agree_bind; [(apply Hcall; auto)|intros mo].
  apply agree_bind; [by apply agree_storeInterfaceType|intros _].
  apply agree_bind; [(apply Hcall; auto)|intros annotations].
  apply agree_bind; [by apply agree_storeInterfaceType|intros _].
  apply agree_bind; [by apply agree_modify|intros _].
  apply agree_bind; [apply agree_loadInterfaceType|intros it1].
  apply agree_bind; [(apply Hcall; auto)|intros _].
  apply agree_bind; [apply agree_loadInterfaceType|intros it2].
  apply agree_bind; [(apply Hcall; auto)|intros _].
  apply agree_bind; [(apply Hcall; auto)|intros _].
  apply agree_bind; [by apply agree_checkInterfaceFunctions|intros _].
  apply agree_bind; [apply agree_loadInterfaceType|intros it3].
  apply agree_bind; [(apply Hcall; auto)|intros _].
  (apply Hcall; auto).
Qed.

(** C4.  [VisitInterfaceDeclaration] sets the container-checking flag of the
    interface type at entry and clears it on every exit path.
    At entry: the first check is run in the state of entry with the flag set;
    when that check panics there, the call unwinds with its panic, and with
    the flag cleared in the state the check left.
    During the check: provided the helpers do not clear the flag themselves,
    every helper is called with the flag set, so that the run does not depend
    on what the helpers would do in a state without the flag.
    On exit: in the state the call leaves behind the flag is [false], whether
    it returns or panics and whatever the helpers do. *)
Theorem VisitInterfaceDeclaration_container_flag (helpers : Helpers)
    (rangeOrder : gmap string Ty -> list (string * Ty))
    (declaration : InterfaceDeclaration) (st : St) :
  let ty := InterfaceTy (InterfaceDeclarationTypes (chk st) !! decl_addr declaration) in
  (∀ p c',
     checkDeclarationAccessModifier helpers (decl_Access declaration)
       (decl_DeclarationKind declaration) (decl_StartPos declaration) true false
       (set_containerTypes <[ty := true]> (chk st)) = Panic p c' →
     VisitInterfaceDeclaration helpers rangeOrder declaration st =
     Panic p {| chk := set_containerTypes <[ty := false]> c';
                calls := calls st ++ [CallCheckDeclarationAccessModifier] |}) ∧
  (∀ helpers',
     helpersKeepFlag ty helpers →
     helpersAgreeWhenFlagged ty helpers helpers' →
     VisitInterfaceDeclaration helpers' rangeOrder declaration st =
     VisitInterfaceDeclaration helpers rangeOrder declaration st) ∧
  containerTypes
    (chk (stateOf (VisitInterfaceDeclaration helpers rangeOrder declaration st)))
    !! ty = Some false.
Proof.
  intros ty. split; [|split].
  - intros p c' Hpanic. unfold VisitInterfaceDeclaration.
    rewrite (bind_run (A := Ptr) _ _ st st
               (InterfaceDeclarationTypes (chk st) !! decl_addr declaration)) by reflexivity.
    erewrite bind_run by reflexivity.
    apply (withDefer_modify_panic _ _ _
             {| chk := c'; calls := calls st ++ [CallCheckDeclarationAccessModifier] |}).
    apply bind_panic. unfold call. simpl. fold ty. by rewrite Hpanic.
  - intros helpers'. apply VisitInterfaceDeclaration_flagged_runs.
  - unfold VisitInterfaceDeclaration.
    rewrite (bind_run (A := Ptr) _ _ st st
               (InterfaceDeclarationTypes (chk st) !! decl_addr declaration)) by reflexivity.
    erewrite bind_run by reflexivity.
    rewrite withDefer_modify_state. apply lookup_insert_eq.
Qed.

End Flag.

Section Destructors.

Context `{Foreign}.

Lemma sameOn_call_bind {A B : Type} (Q : Checker -> Prop) (c : Call)
    (h1 h2 : Checker -> Result Checker A) (f : A -> M B) :
  (∀ c0, Q c0 → h1 c0 = h2 c0) →
  sameOn (fun st => Q (chk st)) (call c h1 ≫= f) (call c h2 ≫= f).
Proof. intros Heq st Hst. unfold mbind, M_bind, call. by rewrite (Heq _ Hst). Qed.

Ltac helper_fields :=
  cbn [withCheckDestructors checkDeclarationAccessModifier checkFieldsAccessModifier
       checkNestedIdentifiers membersAndOrigins initializerParameterTypeAnnotations
       checkInitializers checkDestructors checkUnknownSpecialFunctions enterValueScope
       leaveValueScope declareSelfValue visitFunctionDeclaration checkResourceFieldNesting
       checkCompositeDeclarationSupport recordVariableDeclarationOccurrence
       visitNestedDeclarations Initializers Destructors FieldsByIdentifier].

(** Two runs of phase 2 that differ only in [checkDestructors]: they are the
    same run when the two checks do the same for a type of the kind of this
    declaration's type. *)
Lemma VisitInterfaceDeclaration_destructor_checks (helpers : Helpers)
    (check1 check2 : DestructorCheck)
    (rangeOrder : gmap string Ty -> list (string * Ty))
    (declaration : InterfaceDeclaration) (st : St) (a : positive) (kind : CompositeKind) :
  InterfaceDeclarationTypes (chk st) !! decl_addr declaration = Some a →
  kindAt a kind (chk st) →
  checksBeforeDestructorsKeepKind helpers a →
  (∀ destructors fields members declarationKind name containerKind c,
     kindAt a kind c →
     check1 destructors fields members (Some a) declarationKind name containerKind c =
     check2 destructors fields members (Some a) declarationKind name containerKind c) →
  VisitInterfaceDeclaration (withCheckDestructors helpers check1) rangeOrder declaration st =
  VisitInterfaceDeclaration (withCheckDestructors helpers check2) rangeOrder declaration st.
Proof.
  intros Htype Hkind (Kaccess & Kfields & Kidents & Kmembers & Kannotations & Kinit) Hsame.
  assert (∀ A (h : Checker -> Result Checker A) c,
            keepsKindAt a h →
            agree (fun st => kindAt a kind (chk st)) (call c h) (call c h)) as Hcall.
  { intros A h c Hkept. apply agree_call; [done|]. intros c0. apply Hkept. }
  assert (∀ g c0, kindAt a kind c0 → kindAt a kind (set_errors g c0)) as Herrors by done.
  assert (∀ g c0, kindAt a kind c0 → kindAt a kind (set_typeActivations g c0)) as Hscopes
    by done.
  assert (∀ f, (∀ t, it_CompositeKind (f t) = it_CompositeKind t) →
               agree (fun st => kindAt a kind (chk st))
                 (storeInterfaceType (Some a) f) (storeInterfaceType (Some a) f)) as Hstore.
  { intros f Hf. apply agree_storeInterfaceType.
    intros a' t c0 (it & Hit & Hk) Ha' [= <-]. exists (f t). simpl.
    rewrite lookup_insert_eq. split; [done|]. rewrite Hf. congruence. }
  unfold VisitInterfaceDeclaration.
  rewrite !(bind_run (A := Ptr) _ _ st st (Some a)) by (unfold gets; by rewrite Htype).
  erewrite !bind_run by reflexivity. helper_fields.
  apply sameOn_withDefer with (P := fun st => kindAt a kind (chk st)); [|done].
  apply sameOn_bind; [by apply Hcall|intros _].
  apply sameOn_bind; [by apply Hcall|intros _].
  apply sameOn_bind; [by apply Hcall|intros _].
  apply sameOn_bind; [by apply agree_modify|intros _].
  apply sameOn_withDefer.
  apply sameOn_bind; [apply agree_loadInterfaceType|intros it0].
  apply sameOn_bind; [apply agree_forEachM; intros entry; by apply agree_declareNestedType
                     |intros _].
  apply sameOn_bind; [by apply Hcall|intros mo].
  apply sameOn_bind; [by apply Hstore|intros _].
  apply sameOn_bind; [by apply Hcall|intros annotations].
  apply sameOn_bind; [by apply Hstore|intros _].
  apply sameOn_bind; [by apply agree_modify|intros _].
  apply sameOn_bind; [apply agree_loadInterfaceType|intros it1].
  apply sameOn_bind; [by apply Hcall|intros _].
  apply sameOn_bind; [apply agree_loadInterfaceType|intros it2].
  apply sameOn_call_bind. intros c0 Hc0. by apply Hsame.
Qed.

Lemma panics_bind_run {A B : Type} (m : M A) (f : A -> M B) (st st1 : St) (a : A)
    (p : PanicValue) :
  m st = Ok a st1 → (∃ st', f a st1 = Panic p st') → ∃ st', (m ≫= f) st = Panic p st'.
Proof. intros Hm (st' & Hf). exists st'. by rewrite (bind_run _ _ _ _ _ Hm). Qed.

Lemma panics_withDefer_modify {A : Type} (f : Checker -> Checker) (body : M A) (st : St)
    (p : PanicValue) :
  (∃ st', body st = Panic p st') → ∃ st', withDefer (modify f) body st = Panic p st'.
Proof. intros (st' & Hbody). eexists. by apply withDefer_modify_panic. Qed.

(** [checkDestructors] is reached whenever the rest of phase 2 returns: a
    check that panics for this type makes the whole of phase 2 panic. *)
Lemma VisitInterfaceDeclaration_destructor_panic (helpers : Helpers) (check : DestructorCheck)
    (rangeOrder : gmap string Ty -> list (string * Ty))
    (declaration : InterfaceDeclaration) (st st' : St) (a : positive) (p : PanicValue) :
  InterfaceDeclarationTypes (chk st) !! decl_addr declaration = Some a →
  VisitInterfaceDeclaration (withCheckDestructors helpers noDestructorCheck) rangeOrder
    declaration st = Ok tt st' →
  (∀ destructors fields members kind name containerKind c,
     ∃ c', check destructors fields members (Some a) kind name containerKind c = Panic p c') →
  ∃ st'', VisitInterfaceDeclaration (withCheckDestructors helpers check) rangeOrder
            declaration st = Panic p st''.
Proof.
  intros Htype Hrun Hpanic. revert Hrun. unfold VisitInterfaceDeclaration.
  rewrite !(bind_run (A := Ptr) _ _ st st (Some a)) by (unfold gets; by rewrite Htype).
  erewrite !bind_run by reflexivity. helper_fields.
  intros (s0 & Hrun & _)%withDefer_Ok. apply panics_withDefer_modify.
  apply bind_Ok in Hrun as (? & ? & Hstep & Hrun). eapply panics_bind_run; [exact Hstep|].
  apply bind_Ok in Hrun as (? & ? & Hstep2 & Hrun). eapply panics_bind_run; [exact Hstep2|].
  apply bind_Ok in Hrun as (? & ? & Hstep3 & Hrun). eapply panics_bind_run; [exact Hstep3|].
  apply bind_Ok in Hrun as (? & ? & Hstep4 & Hrun). eapply panics_bind_run; [exact Hstep4|].
  apply withDefer_Ok in Hrun as (? & Hrun & _). apply panics_withDefer_modify.
  do 10 (let Hs := fresh "Hs" in
         apply bind_Ok in Hrun as (? & ? & Hs & Hrun); eapply panics_bind_run; [exact Hs|]).
  match goal with
  | |- ∃ st'', (call ?c (check ?d ?f ?m _ ?k ?n ?ck) ≫= _) ?s = _ =>
      destruct (Hpanic d f m k n ck (chk s)) as (c' & Hc');
      exists {| chk := c'; calls := calls s ++ [c] |}
  end.
  apply bind_panic. unfold call. by rewrite Hc'.
Qed.

(** C5.  With [checkDestructors] as the spec describes it (destructor
    consistency is checked if the kind is a resource kind), and the interface
    type carrying the composite kind of its declaration, as phase 1 leaves
    it.  Phase 2 of a resource interface is phase 2 with the consistency
    check, and phase 2 of an interface of any other kind is phase 2 with no
    destructor check at all, in every run, returning or panicking, and in
    whatever order the nested types are walked.  The consistency check of a
    resource interface does run: when it refuses the type by a panic, a
    phase 2 that would return without it panics with it.  (The checks that
    come before are taken to leave the type its kind.) *)
Theorem VisitInterfaceDeclaration_destructors_for_resources (helpers : Helpers)
    (consistency : DestructorCheck)
    (rangeOrder : gmap string Ty -> list (string * Ty))
    (declaration : InterfaceDeclaration) (st : St) (a : positive) (it : InterfaceType)
    (Htype : InterfaceDeclarationTypes (chk st) !! decl_addr declaration = Some a)
    (Hstore : interfaceTypes (chk st) !! a = Some it)
    (Hkind : it_CompositeKind it = decl_CompositeKind declaration)
    (Hframe : checksBeforeDestructorsKeepKind helpers a) :
  (decl_CompositeKind declaration = CompositeKindResource →
   VisitInterfaceDeclaration (withCheckDestructors helpers (resourceOnly consistency))
     rangeOrder declaration st =
   VisitInterfaceDeclaration (withCheckDestructors helpers consistency)
     rangeOrder declaration st) ∧
  (decl_CompositeKind declaration = CompositeKindResource →
   ∀ p st',
     VisitInterfaceDeclaration (withCheckDestructors helpers noDestructorCheck)
       rangeOrder declaration st = Ok tt st' →
     (∀ destructors fields members kind name containerKind c,
        ∃ c', consistency destructors fields members (Some a) kind name containerKind c =
              Panic p c') →
     ∃ st'',
       VisitInterfaceDeclaration (withCheckDestructors helpers (resourceOnly consistency))
         rangeOrder declaration st = Panic p st'') ∧
  (decl_CompositeKind declaration ≠ CompositeKindResource →
   VisitInterfaceDeclaration (withCheckDestructors helpers (resourceOnly consistency))
     rangeOrder declaration st =
   VisitInterfaceDeclaration (withCheckDestructors helpers noDestructorCheck)
     rangeOrder declaration st).
Proof.
  assert (decl_CompositeKind declaration = CompositeKindResource →
          VisitInterfaceDeclaration (withCheckDestructors helpers (resourceOnly consistency))
            rangeOrder declaration st =
          VisitInterfaceDeclaration (withCheckDestructors helpers consistency)
            rangeOrder declaration st) as Hruns.
  { intros Hresource.
    apply (VisitInterfaceDeclaration_destructor_checks helpers _ _ rangeOrder declaration st a
             (decl_CompositeKind declaration)); try done; try (by exists it).
    intros destructors fields members declarationKind name containerKind c (it' & Hit' & Hk).
    unfold resourceOnly, interfaceAt. simpl. rewrite Hit'.
    by rewrite bool_decide_eq_true_2 by congruence. }
  split; [exact Hruns|]. split.
  - intros Hresource p st' Hrest Hrefuses. rewrite (Hruns Hresource).
    by eapply VisitInterfaceDeclaration_destructor_panic.
  - intros Hresource.
    apply (VisitInterfaceDeclaration_destructor_checks helpers _ _ rangeOrder declaration st a
             (decl_CompositeKind declaration)); try done; try (by exists it).
    intros destructors fields members declarationKind name containerKind c (it' & Hit' & Hk).
    unfold resourceOnly, interfaceAt, noDestructorCheck. simpl. rewrite Hit'.
    by rewrite bool_decide_eq_false_2 by congruence.
Qed.

End Destructors.

Section AttachLoops.

Context `{Foreign}.









End AttachLoops.

Section Siblings.

Context `{Foreign}.



End Siblings.

(** ** The theorems on concrete declarations *)

Import SemaExamples SemaSequenceExamples SemaPhaseExamples.

#[local] Existing Instance unitForeign.

Lemma acceptingHelpers_keep_flag (ty : Ty) : helpersKeepFlag ty acceptingHelpers.
Proof. unfold helpersKeepFlag, eachPhase2Helper. repeat apply conj; intros; assumption. Qed.

Lemma probingHelpers_agree (ty : Ty) :
  helpersAgreeWhenFlagged ty acceptingHelpers (probingHelpers ty).
Proof.
  unfold helpersAgreeWhenFlagged, eachPhase2Helper.
  repeat apply conj; intros; try reflexivity;
    cbn [probingHelpers checkDeclarationAccessModifier checkCompositeDeclarationSupport];
    unfold probing; by rewrite decide_True.
Qed.

Lemma acceptingHelpers_keep_kind (a : positive) :
  checksBeforeDestructorsKeepKind acceptingHelpers a.
Proof.
  unfold checksBeforeDestructorsKeepKind, keepsKindAt. repeat apply conj; intros; assumption.
Qed.






Lemma VisitInterfaceDeclaration_container_flag_witness :
  let ty := InterfaceTy (Some 1%positive) in
  VisitInterfaceDeclaration refusingHelpers map_to_list structInterface structInterfaceDeclared =
    Panic (OtherPanic tt)
      {| chk := set_containerTypes <[ty := false]>
                  (set_containerTypes <[ty := true]> (chk structInterfaceDeclared));
         calls := calls structInterfaceDeclared ++ [CallCheckDeclarationAccessModifier] |} ∧
  VisitInterfaceDeclaration (probingHelpers ty) map_to_list structInterface
    structInterfaceDeclared =
    VisitInterfaceDeclaration acceptingHelpers map_to_list structInterface
      structInterfaceDeclared ∧
  containerTypes
    (chk (stateOf (VisitInterfaceDeclaration acceptingHelpers map_to_list structInterface
                     structInterfaceDeclared)))
    !! ty = Some false.
Proof.
  intros ty.
  destruct (VisitInterfaceDeclaration_container_flag refusingHelpers map_to_list
              structInterface structInterfaceDeclared) as (Hentry & _ & _).
  destruct (VisitInterfaceDeclaration_container_flag acceptingHelpers map_to_list
              structInterface structInterfaceDeclared) as (_ & Hduring & Hexit).
  split; [exact (Hentry _ _ eq_refl)|]. split; [|exact Hexit].
  exact (Hduring (probingHelpers ty) (acceptingHelpers_keep_flag ty) (probingHelpers_agree ty)).
Defined.

Lemma VisitInterfaceDeclaration_destructors_for_resources_witness :
  let gated := withCheckDestructors acceptingHelpers (resourceOnly objectingCheck) in
  let refusing := withCheckDestructors acceptingHelpers (resourceOnly refusingCheck) in
  VisitInterfaceDeclaration gated map_to_list resourceInterface resourceInterfaceDeclared =
    VisitInterfaceDeclaration (withCheckDestructors acceptingHelpers objectingCheck)
      map_to_list resourceInterface resourceInterfaceDeclared ∧
  errors (chk (stateOf (VisitInterfaceDeclaration gated map_to_list resourceInterface
                          resourceInterfaceDeclared))) = [OtherError tt] ∧
  (∃ st', VisitInterfaceDeclaration refusing map_to_list resourceInterface
            resourceInterfaceDeclared = Panic (OtherPanic tt) st') ∧
  VisitInterfaceDeclaration gated map_to_list structInterface structInterfaceDeclared =
    VisitInterfaceDeclaration (withCheckDestructors acceptingHelpers noDestructorCheck)
      map_to_list structInterface structInterfaceDeclared ∧
  errors (chk (stateOf (VisitInterfaceDeclaration gated map_to_list structInterface
                          structInterfaceDeclared))) = [].
Proof.
  intros gated refusing.
  split; [|split; [|split; [|split]]].
  - eapply (proj1 (VisitInterfaceDeclaration_destructors_for_resources acceptingHelpers
                     objectingCheck map_to_list resourceInterface resourceInterfaceDeclared
                     1%positive _ eq_refl eq_refl eq_refl (acceptingHelpers_keep_kind 1))).
    reflexivity.
  - vm_compute. reflexivity.
  - eapply (proj1 (proj2 (VisitInterfaceDeclaration_destructors_for_resources acceptingHelpers
                     refusingCheck map_to_list resourceInterface resourceInterfaceDeclared
                     1%positive _ eq_refl eq_refl eq_refl (acceptingHelpers_keep_kind 1)))).
    + reflexivity.
    + vm_compute. reflexivity.
    + intros. by eexists.
  - eapply (proj2 (proj2 (VisitInterfaceDeclaration_destructors_for_resources acceptingHelpers
                     objectingCheck map_to_list structInterface structInterfaceDeclared
                     1%positive _ eq_refl eq_refl eq_refl (acceptingHelpers_keep_kind 1)))).
    discriminate.
  - vm_compute. reflexivity.
Defined.


End SemaPhaseFacts.


(** * Part VII: properties of the algorithm enumerations *)

Module AlgorithmsFacts.

Import Algorithms.

Ltac switch_cases :=
  unfold SignatureAlgorithm_Name, SignatureAlgorithm_DocString, HashAlgorithm_Name,
    HashAlgorithm_DocString, SignatureAlgorithmECDSA_P256, SignatureAlgorithmECDSA_Secp256k1,
    SignatureAlgorithmBLSBLS12381, HashAlgorithmSHA2_256, HashAlgorithmSHA2_384,
    HashAlgorithmSHA3_256, HashAlgorithmSHA3_384, HashAlgorithmKMAC128 in *;
  repeat case_decide; subst.

Lemma listed_cases (c : BuiltinEnumCase) :
  c ∈ SignatureAlgorithms ++ HashAlgorithms ↔
  match c with
  | SignatureAlgorithmCase algo => (0 ≤ algo < 3)%Z
  | HashAlgorithmCase algo => (0 ≤ algo < 5)%Z
  end.
Proof.
  unfold SignatureAlgorithms, HashAlgorithms. simpl. rewrite !elem_of_cons, elem_of_nil.
  unfold SignatureAlgorithmECDSA_P256, SignatureAlgorithmECDSA_Secp256k1,
    SignatureAlgorithmBLSBLS12381, HashAlgorithmSHA2_256, HashAlgorithmSHA2_384,
    HashAlgorithmSHA3_256, HashAlgorithmSHA3_384, HashAlgorithmKMAC128.
  destruct c as [algo|algo]; split.
  - intros [?|[?|[?|[?|[?|[?|[?|[?|[]]]]]]]]]; simplify_eq; lia.
  - intros Hrange.
    assert (algo = 0 ∨ algo = 1 ∨ algo = 2)%Z as [-> | [-> | ->]] by lia; tauto.
  - intros [?|[?|[?|[?|[?|[?|[?|[?|[]]]]]]]]]; simplify_eq; lia.
  - intros Hrange.
    assert (algo = 0 ∨ algo = 1 ∨ algo = 2 ∨ algo = 3 ∨ algo = 4)%Z
      as [-> | [-> | [-> | [-> | ->]]]] by lia; tauto.
Qed.

Lemma methods_on_catalogs (c : BuiltinEnumCase) :
  c ∈ SignatureAlgorithms ++ HashAlgorithms →
  ∃ name doc, Name c = Returns name ∧ DocString c = Returns doc.
Proof.
  intros Hlisted%listed_cases.
  destruct c as [algo|algo]; simpl in *; switch_cases; try lia; eauto.
Qed.

Lemma methods_off_catalogs (c : BuiltinEnumCase) :
  c ∉ SignatureAlgorithms ++ HashAlgorithms →
  Name c = Panics NewUnreachableError ∧ DocString c = Panics NewUnreachableError.
Proof.
  rewrite listed_cases.
  destruct c as [algo|algo]; simpl; switch_cases; intros Hout; try done; exfalso; lia.
Qed.

(** X1.  The two catalogs are exactly the values the methods know: for a
    case of either catalog [Name] and [DocString] return; for every other
    value of the two types, whatever integer it holds, both panic with the
    unreachable-error. *)
Theorem Name_DocString_return_on_catalogs (c : BuiltinEnumCase) :
  (c ∈ SignatureAlgorithms ++ HashAlgorithms ↔ ∃ name, Name c = Returns name) ∧
  (c ∈ SignatureAlgorithms ++ HashAlgorithms ↔ ∃ doc, DocString c = Returns doc) ∧
  (c ∉ SignatureAlgorithms ++ HashAlgorithms ↔ Name c = Panics NewUnreachableError) ∧
  (c ∉ SignatureAlgorithms ++ HashAlgorithms ↔ DocString c = Panics NewUnreachableError).
Proof.
  destruct (decide (c ∈ SignatureAlgorithms ++ HashAlgorithms)) as [Hin|Hout].
  - destruct (methods_on_catalogs c Hin) as (name & doc & Hname & Hdoc).
    rewrite Hname, Hdoc. split_and!; split; try done; eauto.
  - destruct (methods_off_catalogs c Hout) as [Hname Hdoc].
    rewrite Hname, Hdoc. split_and!; split; try done; by intros [? [=]].
Qed.

Ltac doc_strings :=
  unfold SignatureAlgorithmDocStringECDSA_P256, SignatureAlgorithmDocStringECDSA_Secp256k1,
    SignatureAlgorithmDocStringBLSBLS12381, HashAlgorithmDocStringSHA2_256,
    HashAlgorithmDocStringSHA2_384, HashAlgorithmDocStringSHA3_256,
    HashAlgorithmDocStringSHA3_384, HashAlgorithmDocStringKMAC128, rawLine, lineBreak in *.

(** X2.  What [Name] returns identifies the case, and so does what
    [DocString] returns: two enum cases, of the same or of different types,
    for which the method returns the same string are the same case. *)
Theorem Name_DocString_identify_case (c1 c2 : BuiltinEnumCase) (text : string) :
  (Name c1 = Returns text → Name c2 = Returns text → c1 = c2) ∧
  (DocString c1 = Returns text → DocString c2 = Returns text → c1 = c2).
Proof.
  split; intros Hfirst Hsecond; destruct c1 as [a1|a1], c2 as [a2|a2]; simpl in *;
    switch_cases; doc_strings; try done; by simplify_eq.
Qed.

(** X3.  Each catalog lists its cases in the order of their raw values,
    starting from zero and without gaps: the raw value of the case at index
    [i] is [i]. *)
Theorem catalog_index_is_raw_value (i : nat) (c : BuiltinEnumCase) :
  SignatureAlgorithms !! i = Some c ∨ HashAlgorithms !! i = Some c →
  RawValue c = Z.of_nat i.
Proof.
  unfold SignatureAlgorithms, HashAlgorithms.
  intros [Hi|Hi]; do 5 (destruct i as [|i]; [by simplify_eq/=|]); by simplify_eq/=.
Qed.

Lemma Name_DocString_identify_case_witness :
  Name (HashAlgorithmCase (2 + 2)%Z) = Returns "KMAC128" ∧
  DocString (SignatureAlgorithmCase (1 + 1)%Z) = Returns SignatureAlgorithmDocStringBLSBLS12381 ∧
  HashAlgorithmCase (2 + 2)%Z = HashAlgorithmCase HashAlgorithmKMAC128 ∧
  SignatureAlgorithmCase (1 + 1)%Z = SignatureAlgorithmCase SignatureAlgorithmBLSBLS12381.
Proof.
  split; [reflexivity|]. split; [reflexivity|]. split.
  - apply (proj1 (Name_DocString_identify_case (HashAlgorithmCase (2 + 2)%Z)
                    (HashAlgorithmCase HashAlgorithmKMAC128) "KMAC128")); reflexivity.
  - apply (proj2 (Name_DocString_identify_case (SignatureAlgorithmCase (1 + 1)%Z)
                    (SignatureAlgorithmCase SignatureAlgorithmBLSBLS12381)
                    SignatureAlgorithmDocStringBLSBLS12381)); reflexivity.
Defined.

Lemma catalog_index_is_raw_value_witness :
  HashAlgorithms !! 4%nat = Some (HashAlgorithmCase HashAlgorithmKMAC128) ∧
  RawValue (HashAlgorithmCase HashAlgorithmKMAC128) = 4%Z.
Proof.
  split; [reflexivity|].
  apply (catalog_index_is_raw_value 4 (HashAlgorithmCase HashAlgorithmKMAC128)).
  right. reflexivity.
Defined.

End AlgorithmsFacts.
